(** * Selection-and-resilience core of the tencent_video_scraper package

    A shallow embedding of the parts of

      - [tencent_video_scraper/http_client.py]        (retry predicate),
      - [tencent_video_scraper/rate_limiter.py]       (token bucket, backoff),
      - [tencent_video_scraper/third_party_parser.py] (relay pool ledger,
        ranking, play-URL validation),
      - [tencent_video_scraper/proxy_manager.py]      (proxy pool, probe,
        selection)

    that the specification's properties talk about.

    Conventions of the embedding.
      - Python [int] is [Z] (unbounded).
      - Python [float] is idealised as an exact rational [Q]; [float('inf')]
        is a separate constructor where the code produces it.  Equalities
        between floats are therefore stated with [==] ([Qeq]).
      - [time.time()] is an explicit argument: every reading of the clock
        made by a method is one parameter of its model.
      - [random.choice(seq)] is [seq[randbelow(len(seq))]]; the drawn index
        is an explicit argument.
      - Python [str] is [string], a character standing for the code point of
        the same number (code points below 256).
      - An insertion-ordered [dict] whose iteration order matters is a list
        of its values, keyed by the value's own key field. *)

From Stdlib Require Import ZArith QArith Qminmax List Bool Lia String Ascii.
From Stdlib Require Import Permutation Sorted Lqa.
Import ListNotations.

Local Open Scope Z_scope.

(** Strict comparison on rationals as a boolean ([a < b] in Python). *)
Definition Qltb (a b : Q) : bool := negb (Qle_bool b a).

(* ------------------------------------------------------------------ *)
(** * http_client.py *)

Module HTTPClient.

(** The one field of [ScraperConfig] that [_should_retry] reads. *)
Record ScraperConfig : Type := mkConfig { max_retries : Z }.

(** [HTTPClient._should_retry(status_code, attempt)]. *)
Definition _should_retry (config : ScraperConfig)
           (status_code attempt : Z) : bool :=
  if attempt >=? max_retries config then false
  else if (500 <=? status_code) && (status_code <? 600) then true
  else if status_code =? 429 then true
  else if status_code =? 408 then true
  else false.

End HTTPClient.

(* ------------------------------------------------------------------ *)
(** * rate_limiter.py *)

Module RateLimiter.

Local Open Scope Q_scope.

(** [self.stats] *)
Record Stats : Type := mkStats {
  total_requests : Z;
  blocked_requests : Z;
  backoff_events : Z
}.

Record t : Type := mkRL {
  rate : Q;
  tokens : Q;
  last_update : Q;
  backoff_factor : Q;
  max_backoff : Q;
  stats : Stats
}.

(** [RateLimiter.__init__(requests_per_second)], the clock reading [now]. *)
Definition init (requests_per_second now : Q) : t :=
  mkRL requests_per_second requests_per_second now 1 60 (mkStats 0 0 0).

(** [RateLimiter.acquire()].  [now] is the clock at entry, [now'] the clock
    after the sleep of the blocked branch. *)
Definition acquire (s : t) (now now' : Q) : t :=
  let st := stats s in
  let total := (total_requests st + 1)%Z in
  let time_passed := now - last_update s in
  let tokens1 := Qmin (rate s) (tokens s + time_passed * rate s) in
  if Qle_bool 1 tokens1 then
    mkRL (rate s) (tokens1 - 1) now
         (if Qltb 1 (backoff_factor s)
          then Qmax 1 (backoff_factor s * (9 # 10))
          else backoff_factor s)
         (max_backoff s)
         (mkStats total (blocked_requests st) (backoff_events st))
  else
    let time_passed' := now' - now in
    let tokens2 := Qmin (rate s) (tokens1 + time_passed' * rate s) in
    mkRL (rate s) (tokens2 - 1) now'
         (backoff_factor s) (max_backoff s)
         (mkStats total (blocked_requests st + 1)%Z (backoff_events st)).

(** The sleep requested by the blocked branch of [acquire]. *)
Definition wait_time (s : t) (now : Q) : Q :=
  let tokens1 := Qmin (rate s) (tokens s + (now - last_update s) * rate s) in
  (1 - tokens1) / rate s * backoff_factor s.

(** [RateLimiter.set_backoff(factor)]. *)
Definition set_backoff (s : t) (factor : Q) : t :=
  let old_factor := backoff_factor s in
  let new_factor := Qmin (max_backoff s) (backoff_factor s * factor) in
  let st := stats s in
  mkRL (rate s) (tokens s) (last_update s) new_factor (max_backoff s)
       (if Qltb old_factor new_factor
        then mkStats (total_requests st) (blocked_requests st)
                     (backoff_events st + 1)%Z
        else st).

(** [RateLimiter.trigger_exponential_backoff()]. *)
Definition trigger_exponential_backoff (s : t) : t := set_backoff s 2.

(** [RateLimiter.reset_backoff()]. *)
Definition reset_backoff (s : t) : t :=
  if Qltb 1 (backoff_factor s)
  then mkRL (rate s) (tokens s) (last_update s) 1 (max_backoff s) (stats s)
  else s.

(** [RateLimiter.update_rate(new_rate)], the state after a call that
    returns.  The one call that does not return is an increase from the
    rate 0: [new_rate / old_rate] then raises [ZeroDivisionError] (after
    [self.rate] was set); statements about such a limiter exclude the rate
    0 or bound the rates so that the call is not made. *)
Definition update_rate (s : t) (new_rate : Q) : t :=
  let old_rate := rate s in
  mkRL new_rate
       (if Qltb old_rate new_rate
        then Qmin new_rate (tokens s * (new_rate / old_rate))
        else Qmin new_rate (tokens s))
       (last_update s) (backoff_factor s) (max_backoff s) (stats s).

(** What the specification's sentence describes: proportional rescaling
    clamped to the new capacity, whatever the direction of the change. *)
Definition rescaled_tokens (s : t) (new_rate : Q) : Q :=
  Qmin new_rate (tokens s * (new_rate / rate s)).

(** Two limiter states that differ at most in the representation of their
    rational fields. *)
Definition equiv (a b : t) : Prop :=
  rate a == rate b /\ tokens a == tokens b /\
  last_update a == last_update b /\
  backoff_factor a == backoff_factor b /\
  max_backoff a == max_backoff b /\ stats a = stats b.

(** The data model's bounds on the backoff factor. *)
Definition backoff_ok (s : t) : Prop :=
  1 <= backoff_factor s /\ backoff_factor s <= max_backoff s.

(** The limiter after two immediate [acquire] calls on
    [RateLimiter(4.0)]: rate 4, two tokens left. *)
Definition limiter_4_2 : t := acquire (acquire (init 4 0) 0 0) 0 0.

(** [RateLimiter.get_stats()]: the counters, the current rate, tokens and
    backoff factor, and the share of blocked requests. *)
Record StatsView : Type := mkView {
  view_total_requests : Z;
  view_blocked_requests : Z;
  view_backoff_events : Z;
  current_rate : Q;
  current_tokens : Q;
  view_backoff_factor : Q;
  block_rate : Q
}.

Definition get_stats (s : t) : StatsView :=
  let st := stats s in
  mkView (total_requests st) (blocked_requests st) (backoff_events st)
         (rate s) (tokens s) (backoff_factor s)
         (if (total_requests st >? 0)%Z
          then inject_Z (blocked_requests st) / inject_Z (total_requests st)
          else 0).

(** [RateLimiter.reset_stats()]. *)
Definition reset_stats (s : t) : t :=
  mkRL (rate s) (tokens s) (last_update s) (backoff_factor s)
       (max_backoff s) (mkStats 0 0 0).

(** Whether a call of [acquire] at the instant [now] finds no token and
    has to sleep. *)
Definition blocks (s : t) (now : Q) : bool :=
  negb (Qle_bool 1
          (Qmin (rate s) (tokens s + (now - last_update s) * rate s))).

(** [asyncio.sleep(d)] returns no earlier than [d] seconds after it was
    called: the clock [now'] read after the sleep of a blocked [acquire]
    entered at [now]. *)
Definition slept_enough (s : t) (now now' : Q) : Prop :=
  blocks s now = true -> wait_time s now <= now' - now.

(** The calls a client makes on a limiter. *)
Inductive op : Type :=
| Acquire (now now' : Q)
| SetBackoff (factor : Q)
| TriggerBackoff
| ResetBackoff
| UpdateRate (new_rate : Q)
| ResetStats.

Definition step (s : t) (o : op) : t :=
  match o with
  | Acquire now now' => acquire s now now'
  | SetBackoff f => set_backoff s f
  | TriggerBackoff => trigger_exponential_backoff s
  | ResetBackoff => reset_backoff s
  | UpdateRate r => update_rate s r
  | ResetStats => reset_stats s
  end.

Definition run (s : t) (os : list op) : t := fold_left step os s.

(** A backoff that is not asked to shrink the factor. *)
Definition raises (o : op) : Prop :=
  match o with
  | SetBackoff f => 1 <= f
  | _ => True
  end.

(** [n] calls of [trigger_exponential_backoff] in a row. *)
Fixpoint triggers (n : nat) (s : t) : t :=
  match n with
  | O => s
  | S n' => triggers n' (trigger_exponential_backoff s)
  end.

End RateLimiter.

(* ------------------------------------------------------------------ *)
(** * rate_limiter.py: AdaptiveRateLimiter *)

Module AdaptiveRateLimiter.

Local Open Scope Q_scope.

(** [class AdaptiveRateLimiter(RateLimiter)]: the inherited state and the
    fields of the subclass.  [adjustment_threshold] is the constant 10 set
    by the constructor. *)
Record t : Type := mkARL {
  base : RateLimiter.t;
  min_rate : Q;
  max_rate : Q;
  success_count : Z;
  failure_count : Z
}.

Definition adjustment_threshold : Z := 10.

(** [AdaptiveRateLimiter.__init__(initial_rate, min_rate, max_rate)]. *)
Definition init (initial_rate min_r max_r now : Q) : t :=
  mkARL (RateLimiter.init initial_rate now) min_r max_r 0 0.

(** [AdaptiveRateLimiter._check_adjustment()]. *)
Definition _check_adjustment (a : t) : t :=
  let total_requests := (success_count a + failure_count a)%Z in
  if (total_requests >=? adjustment_threshold)%Z then
    let success_rate :=
      inject_Z (success_count a) / inject_Z total_requests in
    let rate := RateLimiter.rate (base a) in
    let base' :=
      if Qltb (9 # 10) success_rate then
        let new_rate := Qmin (max_rate a) (rate * (12 # 10)) in
        if negb (Qeq_bool new_rate rate)
        then RateLimiter.update_rate (base a) new_rate else base a
      else if Qltb success_rate (7 # 10) then
        let new_rate := Qmax (min_rate a) (rate * (8 # 10)) in
        if negb (Qeq_bool new_rate rate)
        then RateLimiter.update_rate (base a) new_rate else base a
      else base a in
    mkARL base' (min_rate a) (max_rate a) 0 0
  else a.

(** [AdaptiveRateLimiter.record_success()]. *)
Definition record_success (a : t) : t :=
  _check_adjustment
    (mkARL (base a) (min_rate a) (max_rate a)
           (success_count a + 1)%Z (failure_count a)).

(** [AdaptiveRateLimiter.record_failure()]. *)
Definition record_failure (a : t) : t :=
  _check_adjustment
    (mkARL (base a) (min_rate a) (max_rate a)
           (success_count a) (failure_count a + 1)%Z).

(** A run of observations, [true] for a success. *)
Definition observe (a : t) (success : bool) : t :=
  if success then record_success a else record_failure a.

Definition observe_all (a : t) (obs : list bool) : t :=
  fold_left observe obs a.

(** The invariants of the adaptive limiter: the rate within its bounds,
    the bucket within the rate, the window counters below the threshold. *)
Definition ok (a : t) : Prop :=
  0 <= min_rate a /\ min_rate a <= RateLimiter.rate (base a) /\
  RateLimiter.rate (base a) <= max_rate a /\
  RateLimiter.tokens (base a) <= RateLimiter.rate (base a) /\
  (0 <= success_count a)%Z /\ (0 <= failure_count a)%Z /\
  (success_count a + failure_count a < adjustment_threshold)%Z.

(** The rate a full window with [k] successes out of 10 decides on. *)
Definition decided_rate (a : t) (k : nat) : Q :=
  let rate := RateLimiter.rate (base a) in
  if (10 <=? k)%nat then Qmin (max_rate a) (rate * (12 # 10))
  else if (k <=? 6)%nat then Qmax (min_rate a) (rate * (8 # 10))
  else rate.

End AdaptiveRateLimiter.

(* ------------------------------------------------------------------ *)
(** * Python built-ins used by the pools *)

Module Py.

Section Sorted.
Context {A : Type}.
(** [ltb a b] is [key(a) < key(b)], the only comparison [sorted] makes. *)
Variable ltb : A -> A -> bool.

(** Insert [x], which stood to the left of every element of [l] in the
    input, into the sorted [l]: it moves right only past elements that
    are strictly smaller, so it stays in front of its equals. *)
Fixpoint insert (x : A) (l : list A) : list A :=
  match l with
  | [] => [x]
  | y :: l' => if ltb y x then y :: insert x l' else x :: y :: l'
  end.

(** [sorted(l, key=...)]: a stable sort. *)
Fixpoint sorted (l : list A) : list A :=
  match l with
  | [] => []
  | x :: l' => insert x (sorted l')
  end.
End Sorted.

(** [sorted(l, key=..., reverse=True)] and [l.sort(key=..., reverse=True)]:
    descending, and still stable (equal elements keep their input order). *)
Definition sorted_reverse {A : Type} (ltb : A -> A -> bool)
           (l : list A) : list A :=
  sorted (fun a b => ltb b a) l.

(** [s.startswith(p)]. *)
Definition startswith (s p : string) : bool := String.prefix p s.

(** [sub in s] for strings. *)
Fixpoint contains (sub s : string) : bool :=
  String.prefix sub s ||
  match s with
  | EmptyString => false
  | String _ s' => contains sub s'
  end.

(** [c in s] for a single character [c]. *)
Fixpoint has_char (c : ascii) (s : string) : bool :=
  match s with
  | EmptyString => false
  | String d s' => Ascii.eqb d c || has_char c s'
  end.

(** [chr(n).lower()] for a code point below 256: the ASCII capitals and the
    Latin-1 capitals U+00C0..U+00DE (U+00D7, the multiplication sign, is
    not a letter) move up by 32. *)
Definition lower_char (c : ascii) : ascii :=
  let n := nat_of_ascii c in
  if ((65 <=? n) && (n <=? 90) ||
      (192 <=? n) && (n <=? 222) && negb (n =? 215))%nat
  then ascii_of_nat (n + 32) else c.

(** [s.lower()]. *)
Fixpoint lower (s : string) : string :=
  match s with
  | EmptyString => EmptyString
  | String c s' => String (lower_char c) (lower s')
  end.

(** [any(x in s for x in xs)]. *)
Definition any_in (xs : list string) (s : string) : bool :=
  existsb (fun x => contains x s) xs.

(** The relations the boolean tests above decide. *)
Definition StartsWith (s p : string) : Prop :=
  exists post, s = (p ++ post)%string.
Definition EndsWith (s p : string) : Prop :=
  exists pre, s = (pre ++ p)%string.
Definition Contains (sub s : string) : Prop :=
  exists pre post, s = (pre ++ sub ++ post)%string.
Definition HasChar (c : ascii) (s : string) : Prop :=
  exists pre post, s = (pre ++ String c post)%string.

End Py.

(* ------------------------------------------------------------------ *)
(** * third_party_parser.py *)

Module ThirdPartyParser.

(** The result of [get_average_response_time]: a float or [float('inf')]. *)
Inductive xfloat : Type :=
| Fin (q : Q)
| Inf.

Definition xeqb (a b : xfloat) : bool :=
  match a, b with
  | Fin x, Fin y => Qeq_bool x y
  | Inf, Inf => true
  | _, _ => false
  end.

Definition xltb (a b : xfloat) : bool :=
  match a, b with
  | Fin x, Fin y => Qltb x y
  | Fin _, Inf => true
  | Inf, _ => false
  end.

(** [@dataclass class ParserInterface]. *)
Record ParserInterface : Type := mkParser {
  name : string;
  url_template : string;
  response_type : string;
  enabled : bool;
  success_count : Z;
  failure_count : Z;
  total_response_time : Q;
  last_success_time : option Q;
  last_failure_time : option Q;
  cooldown_until : option Q;
  consecutive_failures : Z
}.

(** [ParserInterface(name=..., url_template=..., response_type=...)]. *)
Definition new_parser (n u r : string) : ParserInterface :=
  mkParser n u r true 0 0 0 None None None 0.

(** [ParserInterface.get_success_rate]. *)
Definition get_success_rate (p : ParserInterface) : Q :=
  let total := success_count p + failure_count p in
  if total >? 0
  then (inject_Z (success_count p) / inject_Z total)%Q
  else (1 # 2)%Q.

(** [ParserInterface.get_average_response_time]. *)
Definition get_average_response_time (p : ParserInterface) : xfloat :=
  if success_count p >? 0
  then Fin (total_response_time p / inject_Z (success_count p))%Q
  else Inf.

(** [ParserInterface.is_in_cooldown], the clock reading [now]. *)
Definition is_in_cooldown (p : ParserInterface) (now : Q) : bool :=
  match cooldown_until p with
  | None => false
  | Some u => Qltb now u
  end.

(** Class constants of [ThirdPartyParserManager]. *)
Definition COOLDOWN_BASE : Z := 60.
Definition COOLDOWN_MAX : Z := 3600.
Definition MAX_CONSECUTIVE_FAILURES : Z := 5.

(** [ThirdPartyParserManager._record_success(parser, response_time)]. *)
Definition _record_success (p : ParserInterface)
           (response_time now : Q) : ParserInterface :=
  mkParser (name p) (url_template p) (response_type p) (enabled p)
           (success_count p + 1) (failure_count p)
           (total_response_time p + response_time)%Q
           (Some now) (last_failure_time p)
           None 0.

(** The [cooldown_time] computed by [_record_failure] once the count of
    consecutive failures is [cf]. *)
Definition cooldown_time (cf : Z) : Z :=
  Z.min (COOLDOWN_BASE * 2 ^ (cf - MAX_CONSECUTIVE_FAILURES)) COOLDOWN_MAX.

(** [ThirdPartyParserManager._record_failure(parser)]; [now] is the clock
    read for [last_failure_time], [now'] the one read for the cooldown. *)
Definition _record_failure (p : ParserInterface)
           (now now' : Q) : ParserInterface :=
  let cf := consecutive_failures p + 1 in
  mkParser (name p) (url_template p) (response_type p) (enabled p)
           (success_count p) (failure_count p + 1)
           (total_response_time p)
           (last_success_time p) (Some now)
           (if cf >=? MAX_CONSECUTIVE_FAILURES
            then Some (now' + inject_Z (cooldown_time cf))%Q
            else cooldown_until p)
           cf.

(** [n] calls of [_record_failure] in a row; [clock i] gives the two
    readings made by the call that has [i] calls after it. *)
Fixpoint record_failures (n : nat) (clock : nat -> Q * Q)
         (p : ParserInterface) : ParserInterface :=
  match n with
  | O => p
  | S n' =>
      record_failures n' clock
        (_record_failure p (fst (clock n')) (snd (clock n')))
  end.

(** The sort key of [get_sorted_parsers]:
    [(-p.get_success_rate(), p.get_average_response_time())]. *)
Definition sort_key (p : ParserInterface) : Q * xfloat :=
  ((- get_success_rate p)%Q, get_average_response_time p).

(** [<] on the key tuples: the first components that differ decide. *)
Definition key_ltb (a b : Q * xfloat) : bool :=
  if Qeq_bool (fst a) (fst b) then xltb (snd a) (snd b)
  else Qltb (fst a) (fst b).

(** [==] on the key tuples. *)
Definition key_eqb (a b : Q * xfloat) : bool :=
  Qeq_bool (fst a) (fst b) && xeqb (snd a) (snd b).

Definition available (now : Q) (p : ParserInterface) : bool :=
  enabled p && negb (is_in_cooldown p now).

(** [ThirdPartyParserManager.get_sorted_parsers] on [self.parsers]; the
    clock readings of the [is_in_cooldown] calls of one pass are taken to
    be the single instant [now]. *)
Definition get_sorted_parsers (parsers : list ParserInterface)
           (now : Q) : list ParserInterface :=
  let available_parsers := filter (available now) parsers in
  Py.sorted (fun p q => key_ltb (sort_key p) (sort_key q))
            available_parsers.

(** Literals of [validate_play_url]. *)
Definition dquote : ascii := ascii_of_nat 34.
Definition squote : ascii := ascii_of_nat 39.
Definition newline : ascii := ascii_of_nat 10.
Definition carriage_return : ascii := ascii_of_nat 13.
Definition tab : ascii := ascii_of_nat 9.

Definition valid_extensions : list string :=
  [".m3u8"; ".mp4"; ".flv"; ".ts"]%string.
Definition valid_protocols : list string :=
  ["/m3u8/"; "/mp4/"; "/flv/"; "/hls/"; "/dash/"]%string.
Definition invalid_chars : list ascii :=
  ["<"%char; ">"%char; dquote; squote; newline; carriage_return; tab].

(** [ThirdPartyParserManager.validate_play_url(url)] on a [str]. *)
Definition validate_play_url (url : string) : bool :=
  if String.eqb url EmptyString then false
  else if negb (Py.startswith url "http://" || Py.startswith url "https://")
  then false
  else
    let url_lower := Py.lower url in
    let has_valid_format :=
      Py.any_in valid_extensions url_lower ||
      Py.any_in valid_protocols url_lower in
    if negb has_valid_format then false
    else if (Z.of_nat (String.length url) <? 20) ||
            (Z.of_nat (String.length url) >? 2000)
    then false
    else if existsb (fun c => Py.has_char c url) invalid_chars then false
    else true.

(** The order of the ranking in the specification's words: [p] may stand
    before [q] when its success rate is higher, or the rates are equal and
    its average latency is not larger. *)
Definition xle (a b : xfloat) : Prop :=
  match a, b with
  | Fin x, Fin y => (x <= y)%Q
  | _, Inf => True
  | Inf, Fin _ => False
  end.

Definition xeq (a b : xfloat) : Prop :=
  match a, b with
  | Fin x, Fin y => (x == y)%Q
  | Inf, Inf => True
  | _, _ => False
  end.

Definition ranks_before (p q : ParserInterface) : Prop :=
  (get_success_rate q < get_success_rate p)%Q \/
  ((get_success_rate p == get_success_rate q)%Q /\
   xle (get_average_response_time p) (get_average_response_time q)).

(** A full tie: equal success rate and equal average latency. *)
Definition tied (p q : ParserInterface) : Prop :=
  (get_success_rate p == get_success_rate q)%Q /\
  xeq (get_average_response_time p) (get_average_response_time q).

(** The boolean test of a full tie with [p0], on the sort keys. *)
Definition tiedb (p0 p : ParserInterface) : bool :=
  key_eqb (sort_key p) (sort_key p0).

(** A pool of three relay resources: five failures in a row on the first,
    one success on the second, nothing recorded on the third. *)
Definition pool_abc : list ParserInterface :=
  [record_failures 5 (fun _ => (0, 0)%Q)
     (new_parser "a" "https://a/?url={url}" "html");
   _record_success (new_parser "b" "https://b/?url={url}" "json") (1 # 2) 0;
   new_parser "c" "https://c/?url={url}" "html"].

(** One entry of a configuration whose fields have the types the code
    expects (a JSON object with string values, and a boolean for
    [enabled]): each field present or absent.  The entries of other shapes
    are the [JValue]s below. *)
Record ParserConfig : Type := mkCfg {
  cfg_name : option string;
  cfg_url_template : option string;
  cfg_response_type : option string;
  cfg_enabled : option bool
}.

(** [d.get(key, default)]. *)
Definition get_default {A : Type} (o : option A) (default : A) : A :=
  match o with
  | Some x => x
  | None => default
  end.

(** [ThirdPartyParserManager._validate_parser_config(parser_data)] on
    such an entry. *)
Definition _validate_parser_config (parser_data : ParserConfig) : bool :=
  match cfg_name parser_data, cfg_url_template parser_data with
  | Some _, Some url_template =>
      if negb (Py.contains "{url}" url_template) then false
      else
        let response_type :=
          get_default (cfg_response_type parser_data) "html"%string in
        if negb (existsb (String.eqb response_type)
                         ["json"; "html"]%string)
        then false else true
  | _, _ => false
  end.

(** A value as [json.load] gives it: the entries of a configuration file
    are of the type [Dict[str, Any]] by annotation only. *)
#[local] Unset Elimination Schemes.
Inductive JValue : Type :=
| JNull
| JBool (b : bool)
| JNumber (q : Q)
| JString (s : string)
| JList (items : list JValue)
| JDict (items : list (string * JValue)).
#[local] Set Elimination Schemes.

(** [v == s] for a string [s]: a string is equal to a string only. *)
Definition is_str (s : string) (v : JValue) : bool :=
  match v with
  | JString s' => String.eqb s' s
  | _ => false
  end.

(** [s in v] for a string [s]: a substring of a string, an element of a
    list, a key of a dict; [None] is the [TypeError] raised for a value
    that is no container. *)
Definition py_in (s : string) (v : JValue) : option bool :=
  match v with
  | JString s' => Some (Py.contains s s')
  | JList items => Some (existsb (is_str s) items)
  | JDict items => Some (existsb (fun kv => String.eqb (fst kv) s) items)
  | JNull | JBool _ | JNumber _ => None
  end.

(** The value under [key] among the items of a dict (its keys are
    pairwise distinct). *)
Definition dict_lookup (items : list (string * JValue)) (key : string)
  : option JValue :=
  option_map snd (find (fun kv => String.eqb (fst kv) key) items).

(** [v[key]] for a string [key]; [None] is the [KeyError] of a dict
    without the key and the [TypeError] of any other value. *)
Definition subscript (v : JValue) (key : string) : option JValue :=
  match v with
  | JDict items => dict_lookup items key
  | _ => None
  end.

(** [ThirdPartyParserManager._validate_parser_config(parser_data)] on any
    value of the file; [None] when the call raises.  No step of it looks
    at the type of a field. *)
Definition _validate_parser_config_any (parser_data : JValue)
  : option bool :=
  match py_in "name" parser_data with
  | None => None
  | Some false => Some false
  | Some true =>
  match py_in "url_template" parser_data with
  | None => None
  | Some false => Some false
  | Some true =>
  match subscript parser_data "url_template" with
  | None => None
  | Some url_template =>
  match py_in "{url}" url_template with
  | None => None
  | Some false => Some false
  | Some true =>
  match parser_data with
  | JDict items =>
      let response_type :=
        get_default (dict_lookup items "response_type")
                    (JString "html") in
      if negb (existsb (fun s => is_str s response_type)
                       ["json"; "html"]%string)
      then Some false else Some true
  | _ => None
  end
  end
  end
  end
  end.

(** The JSON object of an entry whose fields, where present, are strings
    (a boolean for [enabled]). *)
Definition entry_of (d : ParserConfig) : JValue :=
  JDict
    (match cfg_name d with
     | Some n => [("name"%string, JString n)]
     | None => []
     end ++
     match cfg_url_template d with
     | Some t => [("url_template"%string, JString t)]
     | None => []
     end ++
     match cfg_response_type d with
     | Some r => [("response_type"%string, JString r)]
     | None => []
     end ++
     match cfg_enabled d with
     | Some b => [("enabled"%string, JBool b)]
     | None => []
     end).

(** What the membership test for the placeholder accepts as a
    template. *)
Definition holds_placeholder (url_template : JValue) : Prop :=
  match url_template with
  | JString s => Py.Contains "{url}" s
  | JList items => In (JString "{url}") items
  | JDict items => In "{url}"%string (map fst items)
  | JNull | JBool _ | JNumber _ => False
  end.

(** The entries that the validation accepts. *)
Definition accepted_entry (parser_data : JValue) : Prop :=
  exists items url_template,
    parser_data = JDict items /\
    In "name"%string (map fst items) /\
    dict_lookup items "url_template" = Some url_template /\
    holds_placeholder url_template /\
    (dict_lookup items "response_type" = None \/
     dict_lookup items "response_type" = Some (JString "json") \/
     dict_lookup items "response_type" = Some (JString "html")).

(** An entry whose template is a list that holds the placeholder. *)
Definition entry_with_list_template : JValue :=
  JDict [("name"%string, JString "relay");
         ("url_template"%string, JList [JString "{url}"])].

(** [ThirdPartyParserManager.get_parser_by_name(name)]. *)
Definition get_parser_by_name (parsers : list ParserInterface)
           (n : string) : option ParserInterface :=
  find (fun p => String.eqb (name p) n) parsers.

(** In-place mutation of the parser that [get_parser_by_name(n)] returns,
    the first one with that name. *)
Fixpoint update_first (n : string) (f : ParserInterface -> ParserInterface)
         (parsers : list ParserInterface) : list ParserInterface :=
  match parsers with
  | [] => []
  | p :: ps =>
      if String.eqb (name p) n then f p :: ps
      else p :: update_first n f ps
  end.

(** [self.parsers.remove(parser)] for the parser that
    [get_parser_by_name(n)] returns: no parser in front of it has its
    name, so none in front of it is equal to it, and it is the one
    removed. *)
Fixpoint remove_first (n : string) (parsers : list ParserInterface)
  : list ParserInterface :=
  match parsers with
  | [] => []
  | p :: ps =>
      if String.eqb (name p) n then ps else p :: remove_first n ps
  end.

(** [ThirdPartyParserManager.add_parser(name, url_template,
    response_type)]: the new list and the returned flag. *)
Definition add_parser (parsers : list ParserInterface)
           (n url_tmpl rtype : string) : list ParserInterface * bool :=
  if negb (_validate_parser_config
             (mkCfg (Some n) (Some url_tmpl) (Some rtype) None))
  then (parsers, false)
  else
    match get_parser_by_name parsers n with
    | Some _ => (parsers, false)
    | None => (parsers ++ [new_parser n url_tmpl rtype], true)
    end.

(** [ThirdPartyParserManager.remove_parser(name)]. *)
Definition remove_parser (parsers : list ParserInterface) (n : string)
  : list ParserInterface * bool :=
  match get_parser_by_name parsers n with
  | Some _ => (remove_first n parsers, true)
  | None => (parsers, false)
  end.

Definition set_enabled (b : bool) (p : ParserInterface) : ParserInterface :=
  mkParser (name p) (url_template p) (response_type p) b
           (success_count p) (failure_count p) (total_response_time p)
           (last_success_time p) (last_failure_time p)
           (cooldown_until p) (consecutive_failures p).

(** [ThirdPartyParserManager.enable_parser(name)]. *)
Definition enable_parser (parsers : list ParserInterface) (n : string)
  : list ParserInterface * bool :=
  match get_parser_by_name parsers n with
  | Some _ => (update_first n (set_enabled true) parsers, true)
  | None => (parsers, false)
  end.

(** [ThirdPartyParserManager.disable_parser(name)]. *)
Definition disable_parser (parsers : list ParserInterface) (n : string)
  : list ParserInterface * bool :=
  match get_parser_by_name parsers n with
  | Some _ => (update_first n (set_enabled false) parsers, true)
  | None => (parsers, false)
  end.

(** The per-parser effect of [reset_stats]. *)
Definition reset_parser (p : ParserInterface) : ParserInterface :=
  mkParser (name p) (url_template p) (response_type p) (enabled p)
           0 0 0 None None None 0.

(** [ThirdPartyParserManager.reset_stats()]. *)
Definition reset_stats (parsers : list ParserInterface)
  : list ParserInterface :=
  map reset_parser parsers.

(** [ThirdPartyParserManager.get_strategy_count()]. *)
Definition get_strategy_count (parsers : list ParserInterface) : Z :=
  Z.of_nat (List.length (filter enabled parsers)).

(** The three counts of [ThirdPartyParserManager.get_stats()]. *)
Definition total_parsers (parsers : list ParserInterface) : Z :=
  Z.of_nat (List.length parsers).
Definition enabled_parsers (parsers : list ParserInterface) : Z :=
  Z.of_nat (List.length (filter enabled parsers)).
Definition available_parsers (parsers : list ParserInterface) (now : Q)
  : Z :=
  Z.of_nat (List.length (get_sorted_parsers parsers now)).

(** [ThirdPartyParserManager.DEFAULT_PARSERS]. *)
Definition DEFAULT_PARSERS : list (string * string * string) :=
  [("jx.777jiexi.com", "https://jx.777jiexi.com/player/?url={url}", "html");
   ("jx.parwix.com", "https://jx.parwix.com:4433/player/?url={url}", "html");
   ("www.mtosz.com", "https://www.mtosz.com/m3u8.php?url={url}", "json");
   ("jx.iztyy.com", "https://jx.iztyy.com/?url={url}", "html");
   ("jx.xmflv.com", "https://jx.xmflv.com/?url={url}", "html");
   ("jx.m3u8.tv", "https://jx.m3u8.tv/jiexi/?url={url}", "html");
   ("jx.aidouer.net", "https://jx.aidouer.net/?url={url}", "html");
   ("www.playm3u8.cn", "https://www.playm3u8.cn/jiexi.php?url={url}",
    "json");
   ("jx.jsonplayer.com", "https://jx.jsonplayer.com/player/?url={url}",
    "html");
   ("jx.yparse.com", "https://jx.yparse.com/index.php?url={url}",
    "html")]%string.

(** The body of the loop of [_load_custom_parsers] for one entry. *)
Definition load_custom_parser (parsers : list ParserInterface)
           (parser_data : ParserConfig) : list ParserInterface :=
  if _validate_parser_config parser_data then
    match cfg_name parser_data, cfg_url_template parser_data with
    | Some n, Some tmpl =>
        let rtype :=
          get_default (cfg_response_type parser_data) "html"%string in
        let en := get_default (cfg_enabled parser_data) true in
        match get_parser_by_name parsers n with
        | Some _ =>
            update_first n
              (fun p =>
                 mkParser (name p) tmpl rtype en
                          (success_count p) (failure_count p)
                          (total_response_time p)
                          (last_success_time p) (last_failure_time p)
                          (cooldown_until p) (consecutive_failures p))
              parsers
        | None =>
            parsers ++ [mkParser n tmpl rtype en 0 0 0 None None None 0]
        end
    | _, _ => parsers
    end
  else parsers.

(** [ThirdPartyParserManager._load_custom_parsers] on the entries of the
    file's [custom_parsers] list. *)
Definition _load_custom_parsers (parsers : list ParserInterface)
           (custom_parsers : list ParserConfig) : list ParserInterface :=
  fold_left load_custom_parser custom_parsers parsers.

(** [ThirdPartyParserManager._init_parsers()]: the default parsers, then
    the custom ones of the configuration file, if any. *)
Definition _init_parsers (custom_parsers : list ParserConfig)
  : list ParserInterface :=
  _load_custom_parsers
    (map (fun d => new_parser (fst (fst d)) (snd (fst d)) (snd d))
         DEFAULT_PARSERS)
    custom_parsers.

(** [ThirdPartyParserManager._is_video_url(url)] on a [str]. *)
Definition video_indicators : list string :=
  [".m3u8"; ".mp4"; ".flv"; "/m3u8/"; "/mp4/"; "/flv/"]%string.
Definition exclude : list string :=
  ["poster"; "thumb"; "cover"; ".jpg"; ".png"; ".gif"; ".css"; ".js";
   "favicon"]%string.

Definition _is_video_url (url : string) : bool :=
  if String.eqb url EmptyString || negb (Py.startswith url "http")
  then false
  else
    let url_lower := Py.lower url in
    let has_video := Py.any_in video_indicators url_lower in
    let is_excluded := Py.any_in exclude url_lower in
    has_video && negb is_excluded.

(** The calls that change the parsers of a manager. *)
Inductive op : Type :=
| AddParser (n url_tmpl rtype : string)
| RemoveParser (n : string)
| EnableParser (n : string)
| DisableParser (n : string)
| RecordSuccess (n : string) (response_time now : Q)
| RecordFailure (n : string) (now now' : Q)
| ResetStats
| LoadCustom (custom_parsers : list ParserConfig).

Definition step (parsers : list ParserInterface) (o : op)
  : list ParserInterface :=
  match o with
  | AddParser n t r => fst (add_parser parsers n t r)
  | RemoveParser n => fst (remove_parser parsers n)
  | EnableParser n => fst (enable_parser parsers n)
  | DisableParser n => fst (disable_parser parsers n)
  | RecordSuccess n rt now =>
      update_first n (fun p => _record_success p rt now) parsers
  | RecordFailure n now now' =>
      update_first n (fun p => _record_failure p now now') parsers
  | ResetStats => reset_stats parsers
  | LoadCustom cs => _load_custom_parsers parsers cs
  end.

Definition run (parsers : list ParserInterface) (os : list op)
  : list ParserInterface :=
  fold_left step os parsers.

(** A registered parser is well formed: its template has the placeholder
    and its response type is one of the two known ones. *)
Definition well_formed (p : ParserInterface) : Prop :=
  Py.Contains "{url}" (url_template p) /\
  (response_type p = "json"%string \/ response_type p = "html"%string).

(** The counters of a parser are natural numbers. *)
Definition counted (p : ParserInterface) : Prop :=
  0 <= success_count p /\ 0 <= failure_count p /\
  0 <= consecutive_failures p.

(** The three invariants of the registry together. *)
Definition registry_ok (ps : list ParserInterface) : Prop :=
  NoDup (map name ps) /\ Forall well_formed ps /\ Forall counted ps.

(** What one attempt of [parse] through a relay resource gives: the play
    URL that the extraction found in the body ([None] without a body or a
    URL, and on an exception), the measured response time, and the clock
    readings of the record made for the attempt. *)
Record Attempt : Type := mkAttempt {
  play_url : option string;
  attempt_time : Q;
  clock1 : Q;
  clock2 : Q
}.

(** [play_url and self.validate_play_url(play_url)]. *)
Definition accepted (a : Attempt) : option string :=
  match play_url a with
  | Some u =>
      if negb (String.eqb u EmptyString) && validate_play_url u
      then Some u else None
  | None => None
  end.

Definition succeeded (a : Attempt) (p : ParserInterface)
  : ParserInterface :=
  _record_success p (attempt_time a) (clock1 a).

Definition failed (a : Attempt) (p : ParserInterface) : ParserInterface :=
  _record_failure p (clock1 a) (clock2 a).

(** The loop of [ThirdPartyParserManager.parse] over the ranked parsers,
    given by their names; [attempt n] is what the request through the
    parser named [n] gives. *)
Fixpoint parse_loop (attempt : string -> Attempt) (order : list string)
         (parsers : list ParserInterface)
  : list ParserInterface * option string :=
  match order with
  | [] => (parsers, None)
  | n :: rest =>
      match accepted (attempt n) with
      | Some u => (update_first n (succeeded (attempt n)) parsers, Some u)
      | None =>
          parse_loop attempt rest
                     (update_first n (failed (attempt n)) parsers)
      end
  end.

(** [ThirdPartyParserManager.parse(video_url, http_client)]. *)
Definition parse (parsers : list ParserInterface) (now : Q)
           (attempt : string -> Attempt)
  : list ParserInterface * option string :=
  parse_loop attempt (map name (get_sorted_parsers parsers now)) parsers.

(** The record of a parser after a [parse] in which the parsers named in
    [losers] were tried without success and [winner], if any, gave the
    result. *)
Definition after_parse (attempt : string -> Attempt)
           (losers : list string) (winner : option string)
           (p : ParserInterface) : ParserInterface :=
  if existsb (String.eqb (name p)) losers
  then failed (attempt (name p)) p
  else match winner with
       | Some n =>
           if String.eqb (name p) n then succeeded (attempt n) p else p
       | None => p
       end.

(** The URL contract in the specification's words: non-empty, an http or
    https scheme in front, between 20 and 2000 characters, none of the
    seven forbidden characters, and a recognised media indicator (looked
    for without regard to letter case). *)
Definition media_indicators : list string :=
  valid_extensions ++ valid_protocols.

Definition url_contract (candidate : string) : Prop :=
  candidate <> EmptyString /\
  (Py.StartsWith candidate "http://" \/
   Py.StartsWith candidate "https://") /\
  (20 <= String.length candidate <= 2000)%nat /\
  (forall c, In c invalid_chars -> ~ Py.HasChar c candidate) /\
  (exists ind, In ind media_indicators /\
               Py.Contains ind (Py.lower candidate)).

End ThirdPartyParser.

(* ------------------------------------------------------------------ *)
(** * proxy_manager.py *)

Module ProxyManager.

(** [class ProxyStatus(Enum)]. *)
Inductive ProxyStatus : Type := ACTIVE | FAILED | BANNED | CHECKING.

Definition status_eqb (a b : ProxyStatus) : bool :=
  match a, b with
  | ACTIVE, ACTIVE | FAILED, FAILED | BANNED, BANNED
  | CHECKING, CHECKING => true
  | _, _ => false
  end.

(** [@dataclass class ProxyInfo]. *)
Record ProxyInfo : Type := mkProxy {
  url : string;
  status : ProxyStatus;
  last_check : Q;
  failure_count : Z;
  success_count : Z;
  response_time : Q
}.

(** [ProxyInfo(url)]. *)
Definition new_proxy (u : string) : ProxyInfo := mkProxy u ACTIVE 0 0 0 0.

(** [ProxyInfo.success_rate]. *)
Definition success_rate (p : ProxyInfo) : Q :=
  let total := success_count p + failure_count p in
  if total >? 0
  then (inject_Z (success_count p) / inject_Z total)%Q
  else 0%Q.

(** What one run of the probe request observes: the three clock readings
    of [_check_proxy] and whether the request came back with status 200
    ([false]: any other status, or an exception). *)
Record ProbeRun : Type := mkRun {
  t_check : Q;
  t_start : Q;
  t_end : Q;
  ok : bool
}.

(** [_check_proxy] up to its first [await]. *)
Definition check_begin (p : ProxyInfo) (r : ProbeRun) : ProxyInfo :=
  mkProxy (url p) CHECKING (t_check r) (failure_count p) (success_count p)
          (response_time p).

(** [_check_proxy] from the response (or the exception) on. *)
Definition check_end (p : ProxyInfo) (r : ProbeRun) : ProxyInfo :=
  if ok r then
    mkProxy (url p) ACTIVE (last_check p) 0 (success_count p + 1)
            (t_end r - t_start r)%Q
  else
    let fc := failure_count p + 1 in
    mkProxy (url p) (if fc >=? 3 then FAILED else ACTIVE)
            (last_check p) fc (success_count p) (t_end r - t_start r)%Q.

(** [ProxyManager._check_proxy(proxy_info)]. *)
Definition _check_proxy (p : ProxyInfo) (r : ProbeRun) : ProxyInfo :=
  check_end (check_begin p r) r.

(** The per-proxy effect of [mark_proxy_banned]. *)
Definition banned (p : ProxyInfo) : ProxyInfo :=
  mkProxy (url p) BANNED (last_check p) (failure_count p) (success_count p)
          (response_time p).

(** The per-proxy effect of [mark_proxy_failed]. *)
Definition failed (p : ProxyInfo) : ProxyInfo :=
  let fc := failure_count p + 1 in
  mkProxy (url p) (if fc >=? 3 then FAILED else status p)
          (last_check p) fc (success_count p) (response_time p).

(** The per-proxy effect of [reset_proxy]. *)
Definition reset (p : ProxyInfo) : ProxyInfo :=
  mkProxy (url p) ACTIVE 0 0 (success_count p) (response_time p).

(** [class ProxyManager]: [self.proxies] in insertion order, one entry per
    key; [self.banned_ips] as a duplicate-free list. *)
Record t : Type := mkPM {
  proxies : list ProxyInfo;
  check_interval : Z;
  banned_ips : list string
}.

(** [url in self.proxies]. *)
Definition mem (u : string) (ps : list ProxyInfo) : bool :=
  existsb (fun p => String.eqb (url p) u) ps.

(** [self.proxies.get(url)]. *)
Definition lookup (u : string) (ps : list ProxyInfo) : option ProxyInfo :=
  find (fun p => String.eqb (url p) u) ps.

(** In-place mutation of the [ProxyInfo] stored under [u], if any. *)
Definition update (u : string) (f : ProxyInfo -> ProxyInfo)
           (ps : list ProxyInfo) : list ProxyInfo :=
  map (fun p => if String.eqb (url p) u then f p else p) ps.

(** [self.proxies[u] = ProxyInfo(u)]: a present key keeps its position. *)
Definition dict_set (u : string) (ps : list ProxyInfo) : list ProxyInfo :=
  if mem u ps then update u (fun _ => new_proxy u) ps
  else ps ++ [new_proxy u].

(** [ProxyManager.__init__(proxies, check_interval)]. *)
Definition init (urls : list string) (interval : Z) : t :=
  mkPM (fold_left (fun d u => dict_set u d) urls []) interval [].

Definition set_proxies (pm : t) (ps : list ProxyInfo) : t :=
  mkPM ps (check_interval pm) (banned_ips pm).

(** [ProxyManager._check_all_proxies]: every proxy whose last check is
    older than the interval is probed, whatever its status.  The probes
    are gathered; each one mutates its own [ProxyInfo] only, so the state
    once all have finished is the one computed here.  [run u] is what the
    probe of [u] observes. *)
Definition _check_all_proxies (pm : t) (now : Q)
           (run : string -> ProbeRun) : t :=
  set_proxies pm
    (map (fun p =>
            if Qltb (inject_Z (check_interval pm)) (now - last_check p)%Q
            then _check_proxy p (run (url p)) else p)
         (proxies pm)).

(** The sort key of [get_active_proxy]:
    [(p.success_rate, -p.response_time)]. *)
Definition sort_key (p : ProxyInfo) : Q * Q :=
  (success_rate p, (- response_time p)%Q).

Definition key_ltb (a b : Q * Q) : bool :=
  if Qeq_bool (fst a) (fst b) then Qltb (snd a) (snd b)
  else Qltb (fst a) (fst b).

Definition active_proxies (pm : t) : list ProxyInfo :=
  filter (fun p => status_eqb (status p) ACTIVE) (proxies pm).

(** [active_proxies] after [active_proxies.sort(key=..., reverse=True)]. *)
Definition ranked (pm : t) : list ProxyInfo :=
  Py.sorted_reverse (fun p q => key_ltb (sort_key p) (sort_key q))
                    (active_proxies pm).

(** [active_proxies[:max(1, len(active_proxies) // 2)]]. *)
Definition top_proxies (pm : t) : list ProxyInfo :=
  firstn (Z.to_nat (Z.max 1 (Z.of_nat (List.length (ranked pm)) / 2)))
         (ranked pm).

(** [ProxyManager.get_active_proxy]; [r] is the index drawn by
    [random.choice] (below the length of [top_proxies]). *)
Definition get_active_proxy (pm : t) (r : nat) : option string :=
  match active_proxies pm with
  | [] => None
  | _ :: _ => option_map url (nth_error (top_proxies pm) r)
  end.

(** [ProxyManager.mark_proxy_banned(proxy_url, ip)]. *)
Definition mark_proxy_banned (pm : t) (u : string) (ip : option string)
  : t :=
  mkPM (update u banned (proxies pm)) (check_interval pm)
       (match ip with
        | Some i =>
            if String.eqb i EmptyString then banned_ips pm
            else if existsb (String.eqb i) (banned_ips pm)
                 then banned_ips pm else banned_ips pm ++ [i]
        | None => banned_ips pm
        end).

(** [ProxyManager.mark_proxy_failed(proxy_url)]. *)
Definition mark_proxy_failed (pm : t) (u : string) : t :=
  set_proxies pm (update u failed (proxies pm)).

(** [ProxyManager.reset_proxy(proxy_url)]. *)
Definition reset_proxy (pm : t) (u : string) : t :=
  set_proxies pm (update u reset (proxies pm)).

(** [ProxyManager.add_proxy(proxy_url)]. *)
Definition add_proxy (pm : t) (u : string) : t :=
  if mem u (proxies pm) then pm
  else set_proxies pm (proxies pm ++ [new_proxy u]).

(** [ProxyManager.remove_proxy(proxy_url)]. *)
Definition remove_proxy (pm : t) (u : string) : t :=
  set_proxies pm
    (filter (fun p => negb (String.eqb (url p) u)) (proxies pm)).

(** [ProxyManager.handle_ip_ban_detection]; [detected] is the verdict of
    [detect_ip_ban] on the response. *)
Definition handle_ip_ban_detection (pm : t) (u : string)
           (detected : bool) : t :=
  if detected then mark_proxy_banned pm u None else pm.

(** One probe of the proxy stored under [u]. *)
Definition check_proxy_of (pm : t) (u : string) (r : ProbeRun) : t :=
  set_proxies pm (update u (fun p => _check_proxy p r) (proxies pm)).

(** The operations that change a [ProxyManager]. *)
Inductive op : Type :=
| MarkBanned (u : string) (ip : option string)
| MarkFailed (u : string)
| HandleIpBan (u : string) (detected : bool)
| ResetProxy (u : string)
| AddProxy (u : string)
| RemoveProxy (u : string)
| CheckProxy (u : string) (r : ProbeRun)
| CheckAll (now : Q) (run : string -> ProbeRun).

Definition step (pm : t) (o : op) : t :=
  match o with
  | MarkBanned u ip => mark_proxy_banned pm u ip
  | MarkFailed u => mark_proxy_failed pm u
  | HandleIpBan u d => handle_ip_ban_detection pm u d
  | ResetProxy u => reset_proxy pm u
  | AddProxy u => add_proxy pm u
  | RemoveProxy u => remove_proxy pm u
  | CheckProxy u r => check_proxy_of pm u r
  | CheckAll now run => _check_all_proxies pm now run
  end.

Definition run_ops (pm : t) (os : list op) : t := fold_left step os pm.

(** An operation that may hand the proxy [u] back to selection or drop its
    record: its manual reset, its removal, and the health check. *)
Definition releases (u : string) (o : op) : bool :=
  match o with
  | ResetProxy v | RemoveProxy v | CheckProxy v _ => String.eqb v u
  | CheckAll _ _ => true
  | _ => false
  end.

(** The events in the life of one [ProxyInfo]. *)
Inductive event : Type :=
| Probe (r : ProbeRun)
| MarkedFailed
| MarkedBanned
| Reset.

Definition apply_event (p : ProxyInfo) (e : event) : ProxyInfo :=
  match e with
  | Probe r => _check_proxy p r
  | MarkedFailed => failed p
  | MarkedBanned => banned p
  | Reset => reset p
  end.

Definition history (u : string) (es : list event) : ProxyInfo :=
  fold_left apply_event es (new_proxy u).

Definition is_failure (e : event) : bool :=
  match e with
  | Probe r => negb (ok r)
  | MarkedFailed => true
  | _ => false
  end.

Definition is_probe_success (e : event) : bool :=
  match e with
  | Probe r => ok r
  | _ => false
  end.

Definition is_success_or_reset (e : event) : bool :=
  match e with
  | Probe r => ok r
  | Reset => true
  | _ => false
  end.

(** The longest prefix of [l] without an element satisfying [stop]. *)
Fixpoint take_until {A : Type} (stop : A -> bool) (l : list A) : list A :=
  match l with
  | [] => []
  | x :: l' => if stop x then [] else x :: take_until stop l'
  end.

(** The number of failures recorded after the last event satisfying
    [stop] (counted from the end of the history backwards). *)
Definition failures_since (stop : event -> bool) (es : list event) : Z :=
  Z.of_nat (List.length (filter is_failure (take_until stop (rev es)))).

(** The number of successful probes of a history. *)
Definition successes (es : list event) : Z :=
  Z.of_nat (List.length (filter is_probe_success es)).

(** The ratio the property describes, over [n] failures. *)
Definition rate_over (s n : Z) : Q :=
  if s + n >? 0 then (inject_Z s / inject_Z (s + n))%Q else 0%Q.

(** [self.proxies[u].status], when [u] is a key. *)
Definition status_of (pm : t) (u : string) : option ProxyStatus :=
  option_map status (lookup u (proxies pm)).

(** The keys of a [dict] are distinct. *)
Definition wf (pm : t) : Prop := NoDup (map url (proxies pm)).

(** Every record stored under [u] is out of selection: banned, or failed. *)
Definition quarantined (u : string) (ps : list ProxyInfo) : Prop :=
  mem u ps = true /\
  Forall (fun p => url p = u -> status p = BANNED \/ status p = FAILED) ps.

(** The order of [ranked]: [p] may stand before [q] when its success rate
    is higher, or the rates are equal and its response time is not
    larger. *)
Definition ranks_before (p q : ProxyInfo) : Prop :=
  (success_rate q < success_rate p)%Q \/
  ((success_rate p == success_rate q)%Q /\
   (response_time p <= response_time q)%Q).

(** Equality of two sort keys of [get_active_proxy]. *)
Definition key_eqb (a b : Q * Q) : bool :=
  Qeq_bool (fst a) (fst b) && Qeq_bool (snd a) (snd b).

(** A full tie: equal success rate and equal response time. *)
Definition tied (p q : ProxyInfo) : Prop :=
  (success_rate p == success_rate q)%Q /\
  (response_time p == response_time q)%Q.

(** The boolean test of a full tie with [p0], on the sort keys. *)
Definition tiedb (p0 p : ProxyInfo) : bool :=
  key_eqb (sort_key p) (sort_key p0).

(** The number of candidates that [get_active_proxy] keeps out of [n]. *)
Definition kept_count (n : nat) : nat := Nat.max 1 (n / 2).

(** The number the specification's sentence gives: half of [n] rounded
    up, and one at least. *)
Definition kept_count_rounded_up (n : nat) : nat := Nat.max 1 ((n + 1) / 2).

(** A pool of three fresh proxies. *)
Definition pool3 : t :=
  init ["http://10.0.0.1:8080"; "http://10.0.0.2:8080";
        "http://10.0.0.3:8080"]%string 300.

(** A pool of one proxy on which a ban has been detected. *)
Definition pool_banned : t :=
  mark_proxy_banned (init ["http://10.0.0.1:8080"%string] 300)
                    "http://10.0.0.1:8080" None.

(** A successful probe, one second long, started at [now]. *)
Definition probe_ok (now : Q) : ProbeRun :=
  mkRun now now (now + 1)%Q true.

(** A failed probe, one second long, started at [now]. *)
Definition probe_failed (now : Q) : ProbeRun :=
  mkRun now now (now + 1)%Q false.

(** [ProxyManager.get_proxy_stats()]. *)
Record ProxyStats : Type := mkPStats {
  stats_total : Z;
  stats_active : Z;
  stats_failed : Z;
  stats_banned : Z;
  stats_checking : Z
}.

Definition count_status (st : ProxyStats) (p : ProxyInfo) : ProxyStats :=
  match status p with
  | ACTIVE => mkPStats (stats_total st) (stats_active st + 1)
                       (stats_failed st) (stats_banned st)
                       (stats_checking st)
  | FAILED => mkPStats (stats_total st) (stats_active st)
                       (stats_failed st + 1) (stats_banned st)
                       (stats_checking st)
  | BANNED => mkPStats (stats_total st) (stats_active st)
                       (stats_failed st) (stats_banned st + 1)
                       (stats_checking st)
  | CHECKING => mkPStats (stats_total st) (stats_active st)
                         (stats_failed st) (stats_banned st)
                         (stats_checking st + 1)
  end.

Definition get_proxy_stats (pm : t) : ProxyStats :=
  fold_left count_status (proxies pm)
            (mkPStats (Z.of_nat (List.length (proxies pm))) 0 0 0 0).

(** The [ban_indicators] of [detect_ip_ban] that a string of code points
    below 256 can hold.  The list of the source has six more, written in
    Chinese: they hold code points above 255 and so occur in no string of
    this model. *)
Definition ban_indicators : list string :=
  ["access denied"; "forbidden"; "ip blocked"; "ip banned";
   "rate limited"; "too many requests";
   "captcha"; "verification required"]%string.

(** [ProxyManager.detect_ip_ban(response_text, status_code)]. *)
Definition detect_ip_ban (response_text : string) (status_code : Z) : bool :=
  if existsb (Z.eqb status_code) [403; 429; 503] then true
  else if negb (String.eqb response_text EmptyString)
       then Py.any_in ban_indicators (Py.lower response_text)
       else false.

(** [ProxyManager.handle_ip_ban_detection(proxy_url, response_text,
    status_code)]. *)
Definition handle_ip_ban (pm : t) (u response_text : string)
           (status_code : Z) : t :=
  handle_ip_ban_detection pm u (detect_ip_ban response_text status_code).

(** [max(key(x) for x in p0 :: rest)], Python's [max] keeping the first
    of the largest values. *)
Definition py_max (p0 : Q) (rest : list Q) : Q :=
  fold_left (fun m x => if Qltb m x then x else m) rest p0.

(** [max(p0 :: rest, key=f)]: the first element with the largest key. *)
Definition py_argmax {A : Type} (f : A -> Q) (p0 : A) (rest : list A) : A :=
  fold_left (fun b x => if Qltb (f b) (f x) then x else b) rest p0.

(** The [proxy.score] that [get_best_proxy] computes. *)
Definition score (max_response_time : Q) (p : ProxyInfo) : Q :=
  let response_score := (1 - response_time p / max_response_time)%Q in
  (success_rate p * (7 # 10) + response_score * (3 # 10))%Q.

(** [max(p.response_time for p in active_proxies) or 1]. *)
Definition max_response_time (p0 : ProxyInfo) (rest : list ProxyInfo) : Q :=
  let m := py_max (response_time p0) (map response_time rest) in
  if Qeq_bool m 0 then 1%Q else m.

(** [ProxyManager.get_best_proxy()]. *)
Definition get_best_proxy (pm : t) : option string :=
  match active_proxies pm with
  | [] => None
  | p0 :: rest =>
      Some (url (py_argmax (score (max_response_time p0 rest)) p0 rest))
  end.

(** The score every ACTIVE proxy gets during one [get_best_proxy]. *)
Definition score_in (pm : t) (p : ProxyInfo) : Q :=
  match active_proxies pm with
  | [] => 0%Q
  | p0 :: rest => score (max_response_time p0 rest) p
  end.

(** A proxy is due for a probe at [now]. *)
Definition due (pm : t) (now : Q) (p : ProxyInfo) : bool :=
  Qltb (inject_Z (check_interval pm)) (now - last_check p)%Q.

(** A history with a success, then a failure, then a manual reset. *)
Definition history_with_reset : list event :=
  [Probe (probe_ok 1000); MarkedFailed; Reset].

End ProxyManager.

(* ------------------------------------------------------------------ *)
(** * http_client.py: delays and the request loop *)

Module HTTPRequests.

(** [HTTPClient._calculate_backoff_delay(attempt, status_code)] for an
    attempt number of the loop (never negative); [jitter] is the value
    drawn by [random.uniform(0, 1)]. *)
Definition base_delay (status_code : Z) : Q :=
  if status_code =? 429 then 2%Q
  else if (500 <=? status_code) && (status_code <? 600) then (3 # 2)%Q
  else 1%Q.

(** The conversion of the integer [2 ** attempt] to a float that the
    product [base_delay * (2 ** attempt)] makes: an integer of [2 ** 1024]
    or more is too large for a float and the conversion raises
    [OverflowError] ([None]). *)
Definition float_of_pow2 (attempt : nat) : option Q :=
  if (1024 <=? attempt)%nat then None
  else Some (inject_Z (2 ^ Z.of_nat attempt)).

Definition _calculate_backoff_delay (attempt : nat) (status_code : Z)
           (jitter : Q) : option Q :=
  match float_of_pow2 attempt with
  | None => None
  | Some power =>
      let delay := (base_delay status_code * power + jitter)%Q in
      Some (Qmin delay 60)
  end.

(** The sleep of [HTTPClient._apply_rate_limit()], if it sleeps:
    [rate_limit] is [self.config.rate_limit], [current_time] the clock at
    entry. *)
Definition rate_limit_sleep (rate_limit last_request_time current_time : Q)
  : option Q :=
  if Qltb 0 rate_limit then
    let min_interval := (1 / rate_limit)%Q in
    let time_since_last := (current_time - last_request_time)%Q in
    if Qltb time_since_last min_interval
    then Some (min_interval - time_since_last)%Q
    else None
  else None.

(** [HTTPClient._apply_rate_limit()]: the new [last_request_time];
    [after] is the clock read once the sleep, if any, is over. *)
Definition _apply_rate_limit (rate_limit last_request_time after : Q) : Q :=
  if Qltb 0 rate_limit then after else last_request_time.

(** The counters of [HTTPClient], its proxy manager ([None] when the
    configuration lists no proxy) and the proxies of the configuration. *)
Record Client : Type := mkClient {
  request_count : Z;
  success_count : Z;
  error_count : Z;
  proxy_manager : option ProxyManager.t;
  config_proxies : list string
}.

(** What one [session.get] of the loop ends in. *)
Inductive Outcome : Type :=
| Response (status : Z) (content : string)
| TimeoutError
| ClientError
| OtherError.

(** [HTTPClient._get_proxy()], [r] the index drawn by [random.choice]. *)
Definition _get_proxy (c : Client) (r : nat) : option string :=
  match proxy_manager c with
  | Some pm => ProxyManager.get_active_proxy pm r
  | None =>
      match config_proxies c with
      | [] => None
      | _ :: _ => nth_error (config_proxies c) r
      end
  end.

(** [if proxy and self.proxy_manager: f(proxy)]. *)
Definition with_proxy (c : Client) (proxy : option string)
           (f : ProxyManager.t -> string -> ProxyManager.t) : Client :=
  match proxy, proxy_manager c with
  | Some u, Some pm =>
      if String.eqb u EmptyString then c
      else mkClient (request_count c) (success_count c) (error_count c)
                    (Some (f pm u)) (config_proxies c)
  | _, _ => c
  end.

Definition count_success (c : Client) : Client :=
  mkClient (request_count c) (success_count c + 1) (error_count c)
           (proxy_manager c) (config_proxies c).

Definition count_error (c : Client) : Client :=
  mkClient (request_count c) (success_count c) (error_count c + 1)
           (proxy_manager c) (config_proxies c).

Definition count_request (c : Client) : Client :=
  mkClient (request_count c + 1) (success_count c) (error_count c)
           (proxy_manager c) (config_proxies c).

(** What [get] gives: the client afterwards, the content of the response
    returned ([None] for [None], and when the call raises), the number of
    requests it sent, and whether the call ended in an exception that left
    [get] instead of a return. *)
Record GetResult : Type := mkResult {
  client : Client;
  response : option string;
  requests : nat;
  raised : bool
}.

(** [delay = await self._calculate_backoff_delay(attempt, status_code)]
    followed by [await asyncio.sleep(delay)] in the loop of [get]: [true]
    when the computation of the delay raises [OverflowError].  The loop
    keeps nothing of the delay, and the jitter drawn plays no part in the
    exception ([attempt] is a loop index, never negative). *)
Definition backoff_raises (attempt status_code : Z) : bool :=
  match _calculate_backoff_delay (Z.to_nat attempt) status_code 0 with
  | Some _ => false
  | None => true
  end.

(** The retry loop of [HTTPClient.get] from the attempt [attempt] on, with
    [fuel] iterations of [range(max_retries + 1)] left and [sent] requests
    sent so far; [outcome a] is what the request of attempt [a] ends
    in.  An [OverflowError] of the delay computed in the [try] body is
    caught by [except Exception] (one error counted, [break]); raised in
    the handler of a timeout or of a network error it leaves [get]. *)
Fixpoint get_loop (config : HTTPClient.ScraperConfig)
         (outcome : Z -> Outcome) (proxy : option string)
         (fuel : nat) (attempt : Z) (c : Client) (sent : nat) : GetResult :=
  match fuel with
  | O => mkResult c None sent false
  | S fuel' =>
      match outcome attempt with
      | Response status content =>
          if status =? 200
          then mkResult (count_success c) (Some content) (S sent) false
          else
            let c1 :=
              with_proxy c proxy
                (fun pm u => ProxyManager.handle_ip_ban pm u content status)
            in
            if HTTPClient._should_retry config status attempt
            then
              if backoff_raises attempt status
              then mkResult (count_error c1) None (S sent) false
              else get_loop config outcome proxy fuel' (attempt + 1) c1
                            (S sent)
            else mkResult (count_error c1) None (S sent) false
      | TimeoutError =>
          if attempt <? HTTPClient.max_retries config
          then
            if backoff_raises attempt 408
            then mkResult c None (S sent) true
            else get_loop config outcome proxy fuel' (attempt + 1) c
                          (S sent)
          else get_loop config outcome proxy fuel' (attempt + 1)
                        (count_error c) (S sent)
      | ClientError =>
          let c1 := with_proxy c proxy ProxyManager.mark_proxy_failed in
          if attempt <? HTTPClient.max_retries config
          then
            if backoff_raises attempt 500
            then mkResult c1 None (S sent) true
            else get_loop config outcome proxy fuel' (attempt + 1) c1
                          (S sent)
          else get_loop config outcome proxy fuel' (attempt + 1)
                        (count_error c1) (S sent)
      | OtherError => mkResult (count_error c) None (S sent) false
      end
  end.

(** [HTTPClient.get(url)]. *)
Definition get (config : HTTPClient.ScraperConfig) (outcome : Z -> Outcome)
           (r : nat) (c : Client) : GetResult :=
  let proxy := _get_proxy c r in
  get_loop config outcome proxy
           (Z.to_nat (HTTPClient.max_retries config + 1)) 0
           (count_request c) 0.

(** [HTTPClient.get_stats()['success_rate']]. *)
Definition success_rate (c : Client) : Q :=
  if request_count c >? 0
  then (inject_Z (success_count c) / inject_Z (request_count c))%Q
  else 0%Q.

(** An outcome after which the loop asks for another attempt. *)
Definition retried (o : Outcome) : Prop :=
  match o with
  | Response status _ =>
      status = 408 \/ status = 429 \/ 500 <= status <= 599
  | TimeoutError | ClientError => True
  | OtherError => False
  end.

(** The outcomes whose handler computes a delay outside the [try] body:
    at the attempt 1024, where the delay can no longer be computed, [get]
    raises after them instead of returning. *)
Definition raises_at_overflow (o : Outcome) : Prop :=
  o = TimeoutError \/ o = ClientError.

(** The counters of a client add up: every request counted is counted as
    a success or as an error. *)
Definition balanced (c : Client) : Prop :=
  0 <= success_count c /\ 0 <= error_count c /\
  success_count c + error_count c = request_count c.

(** The calls that [get] makes on the proxy manager for the proxy [u]. *)
Definition penalty (u : string) (o : ProxyManager.op) : Prop :=
  (exists d, o = ProxyManager.HandleIpBan u d) \/
  o = ProxyManager.MarkFailed u.

End HTTPRequests.

(* ------------------------------------------------------------------ *)
(** * Arithmetic helpers *)

Lemma Qltb_true (a b : Q) : Qltb a b = true <-> (a < b)%Q.
Proof.
  unfold Qltb. rewrite negb_true_iff. split; intro H.
  - apply Qnot_le_lt. intro Hle. apply Qle_bool_iff in Hle. congruence.
  - destruct (Qle_bool b a) eqn:E; [|reflexivity].
    apply Qle_bool_iff in E. exfalso. exact (Qlt_not_le _ _ H E).
Qed.

Lemma Qltb_false (a b : Q) : Qltb a b = false <-> (b <= a)%Q.
Proof.
  unfold Qltb. rewrite negb_false_iff. apply Qle_bool_iff.
Qed.

Lemma Qmin_spec_le (a b : Q) : (a <= b)%Q -> Qmin a b = a.
Proof.
  intro H. unfold Qmin, GenericMinMax.gmin.
  destruct (Qcompare a b) eqn:E; try reflexivity.
  apply Qgt_alt in E. exfalso. exact (Qlt_not_le _ _ E H).
Qed.

Lemma Qmin_spec_gt (a b : Q) : (b < a)%Q -> Qmin a b = b.
Proof.
  intro H. unfold Qmin, GenericMinMax.gmin.
  assert (E : Qcompare a b = Gt) by (apply Qgt_alt; exact H).
  rewrite E. reflexivity.
Qed.

Lemma Qmax_spec_lt (a b : Q) : (a < b)%Q -> Qmax a b = b.
Proof.
  intro H. unfold Qmax, GenericMinMax.gmax.
  assert (E : Qcompare a b = Lt) by (apply Qlt_alt; exact H).
  rewrite E. reflexivity.
Qed.

Lemma Qmax_spec_ge (a b : Q) : (b <= a)%Q -> Qmax a b = a.
Proof.
  intro H. unfold Qmax, GenericMinMax.gmax.
  destruct (Qcompare a b) eqn:E; try reflexivity.
  apply Qlt_alt in E. exfalso. exact (Qlt_not_le _ _ E H).
Qed.

(* ------------------------------------------------------------------ *)
(** * The retry predicate *)

(** C9: for every status code [c] and attempt count [a], [_should_retry]
    answers [true] exactly when [a] is below [max_retries] and [c] is 408,
    429 or lies in 500..599; every other status code is never retried. *)
Theorem should_retry_iff (config : HTTPClient.ScraperConfig) (c a : Z) :
  HTTPClient._should_retry config c a = true <->
  a < HTTPClient.max_retries config /\
  (c = 408 \/ c = 429 \/ 500 <= c <= 599).
Proof.
  unfold HTTPClient._should_retry.
  destruct (Z.geb_spec a (HTTPClient.max_retries config)) as [Hge | Hlt].
  - split; [discriminate | lia].
  - destruct (Z.leb_spec 500 c), (Z.ltb_spec c 600); cbn [andb];
      try (split; [intros _ | reflexivity]; lia);
      destruct (Z.eqb_spec c 429), (Z.eqb_spec c 408);
      split; try reflexivity; try discriminate; try lia.
Qed.

(* ------------------------------------------------------------------ *)
(** * The relay pool's ledger *)

Section Ledger.
Import ThirdPartyParser.

Lemma cooldown_time_le_max (cf : Z) : cooldown_time cf <= COOLDOWN_MAX.
Proof. unfold cooldown_time. apply Z.le_min_r. Qed.

Lemma cooldown_time_mono (a b : Z) :
  MAX_CONSECUTIVE_FAILURES <= a -> a <= b ->
  cooldown_time a <= cooldown_time b.
Proof.
  intros Ha Hab. unfold cooldown_time.
  apply Z.min_le_compat_r.
  apply Z.mul_le_mono_nonneg_l; [unfold COOLDOWN_BASE; lia|].
  apply Z.pow_le_mono_r; lia.
Qed.

Lemma cooldown_time_at_threshold :
  cooldown_time MAX_CONSECUTIVE_FAILURES = COOLDOWN_BASE.
Proof. reflexivity. Qed.

Lemma record_failures_count (n : nat) (clock : nat -> Q * Q)
      (p : ParserInterface) :
  consecutive_failures (record_failures n clock p) =
    consecutive_failures p + Z.of_nat n /\
  failure_count (record_failures n clock p) =
    failure_count p + Z.of_nat n.
Proof.
  revert p. induction n as [|n IH]; intro p; cbn [record_failures].
  - split; lia.
  - destruct (IH (_record_failure p (fst (clock n)) (snd (clock n))))
      as [H1 H2].
    rewrite H1, H2. cbn. split; lia.
Qed.

Lemma record_failures_below_threshold (n : nat) (clock : nat -> Q * Q)
      (p : ParserInterface) :
  consecutive_failures p + Z.of_nat n < MAX_CONSECUTIVE_FAILURES ->
  cooldown_until (record_failures n clock p) = cooldown_until p.
Proof.
  revert p. induction n as [|n IH]; intros p H; cbn [record_failures].
  - reflexivity.
  - rewrite IH.
    + cbn. destruct (Z.geb_spec (consecutive_failures p + 1)
                                MAX_CONSECUTIVE_FAILURES); [lia|reflexivity].
    + cbn. lia.
Qed.

End Ledger.

(** C7: [_record_success] adds one to [success_count], adds the latency to
    [total_response_time], resets [consecutive_failures] to 0 and clears
    [cooldown_until], so that the resource is in cooldown at no instant
    afterwards, whatever its state was before. *)
Theorem record_success_clears_cooldown
        (p : ThirdPartyParser.ParserInterface) (latency now : Q) :
  let p' := ThirdPartyParser._record_success p latency now in
  ThirdPartyParser.success_count p' = ThirdPartyParser.success_count p + 1 /\
  ThirdPartyParser.total_response_time p' =
    (ThirdPartyParser.total_response_time p + latency)%Q /\
  ThirdPartyParser.consecutive_failures p' = 0 /\
  ThirdPartyParser.cooldown_until p' = None /\
  ThirdPartyParser.failure_count p' = ThirdPartyParser.failure_count p /\
  forall t : Q, ThirdPartyParser.is_in_cooldown p' t = false.
Proof.
  cbn. repeat split.
Qed.

(** C4: each [_record_failure] adds one to [failure_count] and to
    [consecutive_failures]; once the new count has reached the threshold it
    sets [cooldown_until] to the clock plus
    [min(COOLDOWN_BASE * 2^(count - threshold), COOLDOWN_MAX)] (below the
    threshold the field is left alone).  After exactly threshold-many
    failures in a row on a resource without consecutive failures the
    resource is in cooldown at once (at the instant of the last call and
    until COOLDOWN_BASE seconds later), and not after fewer.  The cooldown
    duration is non-decreasing in the count and never above COOLDOWN_MAX. *)
Theorem record_failure_cooldown :
  (forall (p : ThirdPartyParser.ParserInterface) (now now' : Q),
      let p' := ThirdPartyParser._record_failure p now now' in
      let cf := ThirdPartyParser.consecutive_failures p' in
      ThirdPartyParser.failure_count p' =
        ThirdPartyParser.failure_count p + 1 /\
      cf = ThirdPartyParser.consecutive_failures p + 1 /\
      (ThirdPartyParser.MAX_CONSECUTIVE_FAILURES <= cf ->
       ThirdPartyParser.cooldown_until p' =
         Some (now' + inject_Z
                 (Z.min (ThirdPartyParser.COOLDOWN_BASE *
                         2 ^ (cf - ThirdPartyParser.MAX_CONSECUTIVE_FAILURES))
                        ThirdPartyParser.COOLDOWN_MAX))%Q) /\
      (cf < ThirdPartyParser.MAX_CONSECUTIVE_FAILURES ->
       ThirdPartyParser.cooldown_until p' =
         ThirdPartyParser.cooldown_until p)) /\
  (forall (p : ThirdPartyParser.ParserInterface) (clock : nat -> Q * Q),
      ThirdPartyParser.consecutive_failures p = 0 ->
      let n := Z.to_nat ThirdPartyParser.MAX_CONSECUTIVE_FAILURES in
      let p' := ThirdPartyParser.record_failures n clock p in
      ThirdPartyParser.is_in_cooldown p' (snd (clock 0%nat)) = true /\
      (forall t : Q,
          (t < snd (clock 0%nat) +
               inject_Z ThirdPartyParser.COOLDOWN_BASE)%Q ->
          ThirdPartyParser.is_in_cooldown p' t = true) /\
      (forall k : nat, (k < n)%nat ->
          ThirdPartyParser.cooldown_until
            (ThirdPartyParser.record_failures k clock p) =
          ThirdPartyParser.cooldown_until p)) /\
  (forall a b : Z,
      ThirdPartyParser.MAX_CONSECUTIVE_FAILURES <= a -> a <= b ->
      ThirdPartyParser.cooldown_time a <= ThirdPartyParser.cooldown_time b) /\
  (forall a : Z,
      ThirdPartyParser.cooldown_time a <= ThirdPartyParser.COOLDOWN_MAX).
Proof.
  split; [|split; [|split]].
  - intros p now now'. cbn zeta.
    cbn [ThirdPartyParser._record_failure ThirdPartyParser.failure_count
         ThirdPartyParser.consecutive_failures
         ThirdPartyParser.cooldown_until].
    repeat split.
    + intro H.
      destruct (Z.geb_spec (ThirdPartyParser.consecutive_failures p + 1)
                           ThirdPartyParser.MAX_CONSECUTIVE_FAILURES);
        [reflexivity | lia].
    + intro H.
      destruct (Z.geb_spec (ThirdPartyParser.consecutive_failures p + 1)
                           ThirdPartyParser.MAX_CONSECUTIVE_FAILURES);
        [lia | reflexivity].
  - intros p clock Hp n p'.
    assert (Hin : forall t : Q,
               (t < snd (clock 0%nat) +
                    inject_Z ThirdPartyParser.COOLDOWN_BASE)%Q ->
               ThirdPartyParser.is_in_cooldown p' t = true).
    { intros t Ht. subst p' n.
      change (Z.to_nat ThirdPartyParser.MAX_CONSECUTIVE_FAILURES) with 5%nat.
      cbn [ThirdPartyParser.record_failures].
      unfold ThirdPartyParser.is_in_cooldown.
      cbn [ThirdPartyParser._record_failure
           ThirdPartyParser.consecutive_failures
           ThirdPartyParser.cooldown_until].
      rewrite Hp. cbn. apply Qltb_true. exact Ht. }
    split; [|split].
    + apply Hin. rewrite <- (Qplus_0_r (snd (clock 0%nat))) at 1.
      apply Qplus_lt_r. reflexivity.
    + exact Hin.
    + intros k Hk. apply record_failures_below_threshold.
      rewrite Hp. subst n. lia.
  - exact cooldown_time_mono.
  - exact cooldown_time_le_max.
Qed.

(** A run of the claim C4 on a fresh relay resource, the clock standing at
    100 s during all calls. *)
Lemma record_failure_cooldown_witness :
  ThirdPartyParser.is_in_cooldown
    (ThirdPartyParser.record_failures 5 (fun _ => (100, 100)%Q)
       (ThirdPartyParser.new_parser "a" "https://a/?url={url}" "html"))
    100 = true.
Proof.
  exact (proj1 (proj1 (proj2 record_failure_cooldown)
                  (ThirdPartyParser.new_parser "a" "https://a/?url={url}"
                                               "html")
                  (fun _ => (100, 100)%Q) eq_refl)).
Defined.

(* ------------------------------------------------------------------ *)
(** * The rate limiter *)

Section Limiter.
Import RateLimiter.
Local Open Scope Q_scope.

Lemma init_backoff_ok (r now : Q) : backoff_ok (init r now).
Proof. split; cbn; lra. Qed.

Lemma acquire_backoff_ok (s : t) (now now' : Q) :
  backoff_ok s -> backoff_ok (acquire s now now').
Proof.
  intros [H1 H2]. unfold acquire, backoff_ok.
  destruct (Qle_bool 1 _); cbn [backoff_factor max_backoff];
    [|split; assumption].
  destruct (Qltb 1 (backoff_factor s)) eqn:E; [|split; assumption].
  apply Qltb_true in E. split.
  - apply Q.le_max_l.
  - apply Q.max_lub; lra.
Qed.

Lemma trigger_backoff_ok (s : t) :
  backoff_ok s -> backoff_ok (trigger_exponential_backoff s).
Proof.
  intros [H1 H2]. unfold trigger_exponential_backoff, set_backoff, backoff_ok.
  cbn [backoff_factor max_backoff]. split.
  - apply Q.min_glb; lra.
  - apply Q.le_min_l.
Qed.

Lemma reset_backoff_ok (s : t) : backoff_ok s -> backoff_ok (reset_backoff s).
Proof.
  intros [H1 H2]. unfold reset_backoff, backoff_ok.
  destruct (Qltb 1 (backoff_factor s)) eqn:E; [|split; assumption].
  cbn. split; lra.
Qed.

Lemma update_rate_backoff_ok (s : t) (r : Q) :
  backoff_ok s -> backoff_ok (update_rate s r).
Proof. intros H. exact H. Qed.

Lemma trigger_backoff_value (s : t) :
  backoff_factor (trigger_exponential_backoff s) =
  Qmin (max_backoff s) (backoff_factor s * 2).
Proof. reflexivity. Qed.

End Limiter.

(** C8: on a limiter whose backoff factor is positive (the data model keeps
    it at 1 or above), [trigger_exponential_backoff] sets the factor to
    [min(max_backoff, 2 * factor)]; while the factor is below [max_backoff]
    this is a strict increase that stays within [max_backoff] and is counted
    as a backoff event, and once the factor equals [max_backoff] the call
    changes nothing at all. *)
Theorem trigger_exponential_backoff_steps (s : RateLimiter.t) :
  (0 < RateLimiter.backoff_factor s)%Q ->
  ((RateLimiter.backoff_factor s < RateLimiter.max_backoff s)%Q ->
   let s' := RateLimiter.trigger_exponential_backoff s in
   (RateLimiter.backoff_factor s < RateLimiter.backoff_factor s')%Q /\
   (RateLimiter.backoff_factor s' ==
      Qmin (RateLimiter.max_backoff s) (2 * RateLimiter.backoff_factor s))%Q /\
   (RateLimiter.backoff_factor s' <= RateLimiter.max_backoff s)%Q /\
   RateLimiter.backoff_events (RateLimiter.stats s') =
     RateLimiter.backoff_events (RateLimiter.stats s) + 1) /\
  ((RateLimiter.backoff_factor s == RateLimiter.max_backoff s)%Q ->
   RateLimiter.equiv (RateLimiter.trigger_exponential_backoff s) s).
Proof.
  intro Hpos. split.
  - intros Hlt s'.
    assert (Hbf : (RateLimiter.backoff_factor s <
                   RateLimiter.backoff_factor s')%Q).
    { subst s'. rewrite trigger_backoff_value.
      apply Q.min_glb_lt; lra. }
    repeat split.
    + exact Hbf.
    + subst s'. rewrite trigger_backoff_value.
      rewrite (Qmult_comm 2). reflexivity.
    + subst s'. rewrite trigger_backoff_value. apply Q.le_min_l.
    + subst s'.
      unfold RateLimiter.trigger_exponential_backoff, RateLimiter.set_backoff
        in *.
      cbn [RateLimiter.backoff_factor RateLimiter.stats] in *.
      apply Qltb_true in Hbf. rewrite Hbf. reflexivity.
  - intro Heq.
    assert (Hmin : Qmin (RateLimiter.max_backoff s)
                        (RateLimiter.backoff_factor s * 2) =
                   RateLimiter.max_backoff s).
    { apply Qmin_spec_le. lra. }
    unfold RateLimiter.trigger_exponential_backoff, RateLimiter.set_backoff,
      RateLimiter.equiv.
    cbn [RateLimiter.rate RateLimiter.tokens RateLimiter.last_update
         RateLimiter.backoff_factor RateLimiter.max_backoff RateLimiter.stats].
    rewrite Hmin.
    assert (Hno : Qltb (RateLimiter.backoff_factor s)
                       (RateLimiter.max_backoff s) = false).
    { apply Qltb_false. lra. }
    rewrite Hno. repeat split; try reflexivity. symmetry. exact Heq.
Qed.

(** C8 on a fresh limiter: the first backoff doubles the factor 1 to 2. *)
Lemma trigger_exponential_backoff_steps_witness :
  (RateLimiter.backoff_factor (RateLimiter.init 2 0) <
   RateLimiter.backoff_factor
     (RateLimiter.trigger_exponential_backoff (RateLimiter.init 2 0)))%Q.
Proof.
  exact (proj1 (proj1 (trigger_exponential_backoff_steps
                         (RateLimiter.init 2 0) eq_refl) eq_refl)).
Defined.

(** C3 as stated fails: lowering the rate from 4 to 2 with 2 tokens in the
    bucket leaves 2 tokens, where the proportional rescaling would leave 1. *)
Lemma update_rate_decrease_not_rescaled :
  (0 < RateLimiter.rate RateLimiter.limiter_4_2)%Q /\
  (RateLimiter.rate RateLimiter.limiter_4_2 == 4)%Q /\
  (RateLimiter.tokens RateLimiter.limiter_4_2 == 2)%Q /\
  (RateLimiter.tokens (RateLimiter.update_rate RateLimiter.limiter_4_2 2) == 2)%Q /\
  (RateLimiter.rescaled_tokens RateLimiter.limiter_4_2 2 == 1)%Q /\
  ~ (RateLimiter.tokens (RateLimiter.update_rate RateLimiter.limiter_4_2 2) ==
     RateLimiter.rescaled_tokens RateLimiter.limiter_4_2 2)%Q.
Proof.
  repeat split; try (vm_compute; reflexivity).
  intro H. vm_compute in H. discriminate H.
Qed.

(** C3, amended: [update_rate(R_new)] sets the rate to [R_new]; for a rate
    increase the tokens become the proportional rescaling
    [T * (R_new / R_old)] clamped to [R_new]; for any other change (a
    decrease, or the same rate) the tokens are only clamped to [R_new],
    which for a non-negative bucket is never less than the proportional
    rescaling would give.  In both cases the bucket ends within the new
    capacity. *)
Theorem update_rate_tokens (s : RateLimiter.t) (new_rate : Q) :
  (0 < RateLimiter.rate s)%Q -> (0 < new_rate)%Q ->
  let s' := RateLimiter.update_rate s new_rate in
  RateLimiter.rate s' = new_rate /\
  ((RateLimiter.rate s < new_rate)%Q ->
   RateLimiter.tokens s' =
     Qmin new_rate
          (RateLimiter.tokens s * (new_rate / RateLimiter.rate s))%Q) /\
  ((new_rate <= RateLimiter.rate s)%Q ->
   RateLimiter.tokens s' = Qmin new_rate (RateLimiter.tokens s) /\
   ((0 <= RateLimiter.tokens s)%Q ->
    (RateLimiter.rescaled_tokens s new_rate <= RateLimiter.tokens s')%Q)) /\
  (RateLimiter.tokens s' <= new_rate)%Q /\
  ((0 <= RateLimiter.tokens s)%Q -> (0 <= RateLimiter.tokens s')%Q).
Proof.
  intros Hold Hnew s'. subst s'. unfold RateLimiter.update_rate.
  cbn [RateLimiter.rate RateLimiter.tokens].
  assert (Hq : (0 < new_rate / RateLimiter.rate s)%Q).
  { apply Qlt_shift_div_l; lra. }
  split; [reflexivity|]. split; [|split; [|split]].
  - intro Hlt. apply (proj2 (Qltb_true _ _)) in Hlt. rewrite Hlt. reflexivity.
  - intro Hle. pose proof (proj2 (Qltb_false _ _) Hle) as Hb. rewrite Hb.
    split; [reflexivity|]. intro HT.
    unfold RateLimiter.rescaled_tokens.
    apply Q.min_le_compat_l.
    assert (H1 : (new_rate / RateLimiter.rate s <= 1)%Q).
    { apply Qle_shift_div_r; [exact Hold | lra]. }
    revert H1 Hq HT. generalize (new_rate / RateLimiter.rate s)%Q.
    generalize (RateLimiter.tokens s). intros T x H1 Hq HT. nra.
  - destruct (Qltb _ _); apply Q.le_min_l.
  - intro HT. destruct (Qltb _ _); apply Q.min_glb; try lra.
    apply Qmult_le_0_compat; lra.
Qed.

(** C3 amended, on the limiter above: raising the rate from 4 to 8 doubles
    the 2 tokens to 4. *)
Lemma update_rate_tokens_witness :
  RateLimiter.tokens (RateLimiter.update_rate RateLimiter.limiter_4_2 8) =
  Qmin 8 (RateLimiter.tokens RateLimiter.limiter_4_2 *
          (8 / RateLimiter.rate RateLimiter.limiter_4_2))%Q.
Proof.
  exact (proj1 (proj2 (update_rate_tokens RateLimiter.limiter_4_2 8 eq_refl eq_refl))
               eq_refl).
Defined.

(* ------------------------------------------------------------------ *)
(** * String tests *)

Section Strings.
Local Open Scope string_scope.
Local Open Scope nat_scope.

Lemma append_empty_r (s : string) : s ++ "" = s.
Proof. induction s as [|c s IH]; cbn; [|rewrite IH]; reflexivity. Qed.

Lemma append_assoc (a b c : string) : (a ++ b) ++ c = a ++ (b ++ c).
Proof. induction a as [|x a IH]; cbn; [|rewrite IH]; reflexivity. Qed.

Lemma length_append (a b : string) :
  String.length (a ++ b) = String.length a + String.length b.
Proof. induction a as [|x a IH]; cbn; [|rewrite IH]; reflexivity. Qed.

Lemma lower_append (a b : string) :
  Py.lower (a ++ b) = Py.lower a ++ Py.lower b.
Proof. induction a as [|x a IH]; cbn; [|rewrite IH]; reflexivity. Qed.

Lemma startswith_spec (s p : string) :
  Py.startswith s p = true <-> Py.StartsWith s p.
Proof.
  unfold Py.startswith, Py.StartsWith. revert s.
  induction p as [|a p IH]; intro s.
  - destruct s; cbn; split; intros _; try reflexivity; eexists; reflexivity.
  - destruct s as [|b s]; cbn.
    + split; [discriminate | intros [post H]; discriminate H].
    + destruct (ascii_dec a b) as [->|Hab].
      * rewrite IH. split; intros [post H]; exists post.
        -- now rewrite H.
        -- now injection H.
      * split; [discriminate|]. intros [post H]. injection H as H1 H2.
        congruence.
Qed.

Lemma contains_spec (sub s : string) :
  Py.contains sub s = true <-> Py.Contains sub s.
Proof.
  unfold Py.Contains. split.
  - induction s as [|c s IH]; cbn [Py.contains]; intro H;
      apply orb_true_iff in H; destruct H as [H | H].
    + apply (startswith_spec "" sub) in H. destruct H as [post H].
      exists "", post. exact H.
    + discriminate H.
    + apply (startswith_spec (String c s) sub) in H. destruct H as [post H].
      exists "", post. exact H.
    + destruct (IH H) as (pre & post & E).
      exists (String c pre), post. cbn. now rewrite E.
  - intros (pre & post & E). subst s.
    induction pre as [|c pre IH].
    + cbn [append].
      assert (H : String.prefix sub (sub ++ post) = true).
      { apply (startswith_spec (sub ++ post) sub). now exists post. }
      destruct (sub ++ post); cbn [Py.contains]; rewrite H; reflexivity.
    + cbn [append Py.contains]. rewrite IH. apply orb_true_r.
Qed.

Lemma has_char_spec (c : ascii) (s : string) :
  Py.has_char c s = true <-> Py.HasChar c s.
Proof.
  unfold Py.HasChar. split.
  - induction s as [|d s IH]; cbn; [discriminate|]. intro H.
    apply orb_true_iff in H. destruct H as [H | H].
    + apply Ascii.eqb_eq in H. subst d. now exists "", s.
    + destruct (IH H) as (pre & post & E).
      exists (String d pre), post. cbn. now rewrite E.
  - intros (pre & post & E). subst s.
    induction pre as [|d pre IH]; cbn.
    + now rewrite Ascii.eqb_refl.
    + rewrite IH. apply orb_true_r.
Qed.

Lemma any_in_spec (xs : list string) (s : string) :
  Py.any_in xs s = true <-> exists x, In x xs /\ Py.Contains x s.
Proof.
  unfold Py.any_in. rewrite existsb_exists.
  split; intros (x & Hx & H); exists x; split; try assumption;
    now apply contains_spec.
Qed.

Lemma contains_append_r (sub a b : string) :
  Py.Contains sub b -> Py.Contains sub (a ++ b).
Proof.
  intros (pre & post & E). exists (a ++ pre), post.
  now rewrite E, append_assoc.
Qed.

End Strings.

(* ------------------------------------------------------------------ *)
(** * The URL contract *)

Section UrlContract.
Import ThirdPartyParser.
Local Open Scope string_scope.

Lemma validate_play_url_correct (u : string) :
  validate_play_url u = true <-> url_contract u.
Proof.
  unfold validate_play_url, url_contract.
  destruct (String.eqb_spec u "") as [-> | Hne].
  { split; [discriminate | intros [H _]; now elim H]. }
  destruct (Py.startswith u "http://" || Py.startswith u "https://")
    eqn:Hs; cbn [negb].
  2:{ split; [discriminate|]. intros (_ & [H | H] & _);
      apply startswith_spec in H; rewrite H in Hs;
      [|rewrite orb_true_r in Hs]; discriminate. }
  destruct (Py.any_in valid_extensions (Py.lower u) ||
            Py.any_in valid_protocols (Py.lower u)) eqn:Hf; cbn [negb].
  2:{ split; [discriminate|]. intros (_ & _ & _ & _ & ind & Hin & Hc).
      apply orb_false_iff in Hf. destruct Hf as [Hf1 Hf2].
      unfold media_indicators in Hin. apply in_app_or in Hin.
      destruct Hin as [Hin | Hin].
      - assert (Py.any_in valid_extensions (Py.lower u) = true)
          by (apply any_in_spec; eauto). congruence.
      - assert (Py.any_in valid_protocols (Py.lower u) = true)
          by (apply any_in_spec; eauto). congruence. }
  destruct ((Z.of_nat (String.length u) <? 20) ||
            (Z.of_nat (String.length u) >? 2000))%Z eqn:Hl.
  { split; [discriminate|]. intros (_ & _ & Hlen & _).
    apply orb_true_iff in Hl. destruct Hl as [Hl | Hl].
    - apply Z.ltb_lt in Hl. lia.
    - apply Z.gtb_lt in Hl. lia. }
  destruct (existsb (fun c => Py.has_char c u) invalid_chars) eqn:Hc.
  { split; [discriminate|]. intros (_ & _ & _ & Hno & _).
    apply existsb_exists in Hc. destruct Hc as (c & Hin & Hc).
    apply has_char_spec in Hc. elim (Hno c Hin Hc). }
  split; [intros _ | reflexivity].
  split; [exact Hne|]. split; [|split; [|split]].
  - apply orb_true_iff in Hs.
    destruct Hs as [H | H]; apply startswith_spec in H; tauto.
  - apply orb_false_iff in Hl. destruct Hl as [H1 H2].
    apply Z.ltb_ge in H1. rewrite Z.gtb_ltb in H2. apply Z.ltb_ge in H2.
    lia.
  - intros c Hin Hh. apply has_char_spec in Hh.
    assert (existsb (fun c => Py.has_char c u) invalid_chars = true)
      by (apply existsb_exists; eauto).
    congruence.
  - apply orb_true_iff in Hf. unfold media_indicators.
    destruct Hf as [H | H]; apply any_in_spec in H;
      destruct H as (x & Hin & Hx); exists x; split; trivial;
      apply in_or_app; tauto.
Qed.

Lemma validate_short (u : string) :
  (String.length u < 20)%nat -> validate_play_url u = false.
Proof.
  intro H. destruct (validate_play_url u) eqn:E; [|reflexivity].
  apply validate_play_url_correct in E.
  destruct E as (_ & _ & Hlen & _). lia.
Qed.

Lemma validate_invalid_char (u : string) (c : ascii) :
  In c invalid_chars -> Py.HasChar c u -> validate_play_url u = false.
Proof.
  intros Hin H. destruct (validate_play_url u) eqn:E; [|reflexivity].
  apply validate_play_url_correct in E.
  destruct E as (_ & _ & _ & Hno & _). elim (Hno c Hin H).
Qed.

End UrlContract.

(** C6: [validate_play_url] accepts a string exactly when it is non-empty,
    starts with [http://] or [https://], has between 20 and 2000
    characters, holds none of the seven forbidden characters (the angle
    brackets, the double and the single quote, newline, carriage return and
    tab) and its lower-cased form
    holds one of the recognised media indicators ([.m3u8 .mp4 .flv .ts
    /m3u8/ /mp4/ /flv/ /hls/ /dash/]).  So it rejects the empty string,
    [not-a-url], [ftp://x.mp4], every string of 12 characters and every
    string that holds [<], and accepts every 40-character string that starts
    with [https://], ends in [/video.m3u8] and holds no forbidden
    character. *)
Theorem validate_url_contract :
  (forall u : string,
      ThirdPartyParser.validate_play_url u = true <->
      ThirdPartyParser.url_contract u) /\
  ThirdPartyParser.validate_play_url "" = false /\
  ThirdPartyParser.validate_play_url "not-a-url" = false /\
  ThirdPartyParser.validate_play_url "ftp://x.mp4" = false /\
  (forall u : string,
      String.length u = 12%nat ->
      ThirdPartyParser.validate_play_url u = false) /\
  (forall u : string,
      Py.HasChar "<" u -> ThirdPartyParser.validate_play_url u = false) /\
  (forall u : string,
      String.length u = 40%nat ->
      Py.StartsWith u "https://" -> Py.EndsWith u "/video.m3u8" ->
      (forall c, In c ThirdPartyParser.invalid_chars -> ~ Py.HasChar c u) ->
      ThirdPartyParser.validate_play_url u = true).
Proof.
  split; [exact validate_play_url_correct|].
  split; [reflexivity|]. split; [reflexivity|]. split; [reflexivity|].
  split; [|split].
  - intros u H. apply validate_short. lia.
  - intros u H. apply (validate_invalid_char u "<"); [|exact H].
    cbn. tauto.
  - intros u Hlen Hs [pre He] Hno.
    apply validate_play_url_correct. repeat split.
    + intro E. rewrite E in Hlen. discriminate Hlen.
    + right. exact Hs.
    + lia.
    + lia.
    + exact Hno.
    + exists ".m3u8"%string. split; [cbn; tauto|].
      rewrite He, lower_append. apply contains_append_r.
      exists "/video"%string, ""%string. reflexivity.
Qed.

(** C6 on a 40-character address. *)
Lemma validate_url_contract_witness :
  ThirdPartyParser.validate_play_url
    "https://cdn.example.com/path1/video.m3u8" = true.
Proof.
  apply (proj2 (proj2 (proj2 (proj2 (proj2 (proj2 validate_url_contract)))))).
  - reflexivity.
  - exists "cdn.example.com/path1/video.m3u8"%string. reflexivity.
  - exists "https://cdn.example.com/path1"%string. reflexivity.
  - intros c Hin [pre [post E]].
    assert (H : Py.has_char c "https://cdn.example.com/path1/video.m3u8"
                = true).
    { apply has_char_spec. now exists pre, post. }
    cbn in Hin.
    repeat (destruct Hin as [<- | Hin]; [vm_compute in H; discriminate H|]).
    exact Hin.
Defined.

(* ------------------------------------------------------------------ *)
(** * The stable sort *)

Section SortedFacts.
Context {A : Type}.
Variable ltb : A -> A -> bool.

Lemma insert_perm (x : A) (l : list A) :
  Permutation (Py.insert ltb x l) (x :: l).
Proof.
  induction l as [|y l IH]; cbn.
  - reflexivity.
  - destruct (ltb y x).
    + rewrite IH. apply perm_swap.
    + reflexivity.
Qed.

Lemma sorted_perm (l : list A) : Permutation (Py.sorted ltb l) l.
Proof.
  induction l as [|x l IH]; cbn.
  - constructor.
  - rewrite insert_perm. now constructor.
Qed.

(** Elements of one tie class are never moved past each other. *)
Lemma insert_filter (P : A -> bool) (x : A) (l : list A) :
  (forall a b, P a = true -> P b = true -> ltb a b = false) ->
  filter P (Py.insert ltb x l) = filter P (x :: l).
Proof.
  intro Htie. induction l as [|y l IH]; cbn [Py.insert].
  - reflexivity.
  - destruct (ltb y x) eqn:E; [|reflexivity].
    cbn [filter] in *. rewrite IH.
    destruct (P x) eqn:Px, (P y) eqn:Py; try reflexivity.
    rewrite (Htie y x Py Px) in E. discriminate E.
Qed.

Lemma sorted_stable (P : A -> bool) (l : list A) :
  (forall a b, P a = true -> P b = true -> ltb a b = false) ->
  filter P (Py.sorted ltb l) = filter P l.
Proof.
  intro Htie. induction l as [|x l IH]; cbn [Py.sorted].
  - reflexivity.
  - rewrite insert_filter by exact Htie. cbn [filter]. now rewrite IH.
Qed.

(** Below, [ltb b a = false] reads: [b] is not strictly before [a]. *)
Hypothesis ltb_asym : forall a b, ltb a b = true -> ltb b a = false.
Hypothesis le_trans :
  forall a b c, ltb b a = false -> ltb c b = false -> ltb c a = false.

Lemma insert_sorted (x : A) (l : list A) :
  StronglySorted (fun a b => ltb b a = false) l ->
  StronglySorted (fun a b => ltb b a = false) (Py.insert ltb x l).
Proof.
  induction 1 as [|y l Hl IH Hy]; cbn.
  - repeat constructor.
  - destruct (ltb y x) eqn:E.
    + constructor; [exact IH|].
      apply (Permutation_Forall (Permutation_sym (insert_perm x l))).
      constructor; [|exact Hy]. apply ltb_asym. exact E.
    + constructor; [now constructor|].
      constructor; [exact E|].
      apply Forall_impl with (2 := Hy). intros z Hz.
      apply (le_trans x y z); assumption.
Qed.

Lemma sorted_sorted (l : list A) :
  StronglySorted (fun a b => ltb b a = false) (Py.sorted ltb l).
Proof.
  induction l as [|x l IH]; cbn.
  - constructor.
  - apply insert_sorted. exact IH.
Qed.

End SortedFacts.

Lemma StronglySorted_impl {A : Type} (R R' : A -> A -> Prop) (l : list A) :
  (forall a b, R a b -> R' a b) -> StronglySorted R l -> StronglySorted R' l.
Proof.
  intros HR. induction 1 as [|x l Hl IH Hx]; constructor.
  - exact IH.
  - apply Forall_impl with (2 := Hx). intro b. apply HR.
Qed.

(* ------------------------------------------------------------------ *)
(** * Ranking of the relay pool *)

(** Turns the boolean comparisons of rationals among the hypotheses into
    their propositions. *)
Ltac qprops :=
  repeat match goal with
    | H : Qeq_bool _ _ = true |- _ => apply Qeq_bool_iff in H
    | H : Qeq_bool _ _ = false |- _ => apply Qeq_bool_neq in H
    | H : Qltb _ _ = true |- _ => apply Qltb_true in H
    | H : Qltb _ _ = false |- _ => apply Qltb_false in H
    end.

Section Ranking.
Import ThirdPartyParser.

Lemma xltb_false (a b : xfloat) : xltb a b = false <-> xle b a.
Proof.
  destruct a as [x|], b as [y|]; cbn; try tauto.
  - apply Qltb_false.
  - split; [discriminate | tauto].
Qed.

Lemma xeqb_true (a b : xfloat) : xeqb a b = true <-> xeq a b.
Proof.
  destruct a as [x|], b as [y|]; cbn; try tauto;
    try (split; [discriminate | tauto]).
  apply Qeq_bool_iff.
Qed.

Lemma key_ltb_asym (a b : Q * xfloat) :
  key_ltb a b = true -> key_ltb b a = false.
Proof.
  destruct a as [a1 a2], b as [b1 b2]. unfold key_ltb. cbn [fst snd].
  destruct (Qeq_bool a1 b1) eqn:E1, (Qeq_bool b1 a1) eqn:E2; intro H;
    try (destruct a2, b2; cbn in *; try discriminate; try reflexivity);
    qprops;
    try (apply Qltb_false); try lra.
Qed.

Lemma key_le_trans (a b c : Q * xfloat) :
  key_ltb b a = false -> key_ltb c b = false -> key_ltb c a = false.
Proof.
  destruct a as [a1 a2], b as [b1 b2], c as [c1 c2].
  unfold key_ltb. cbn [fst snd].
  destruct (Qeq_bool b1 a1) eqn:E1, (Qeq_bool c1 b1) eqn:E2,
           (Qeq_bool c1 a1) eqn:E3; intros H1 H2;
    try (destruct a2, b2, c2; cbn in *; try discriminate; try reflexivity);
    qprops;
    try (apply Qltb_false); try lra.
Qed.

Lemma key_tie_not_lt (k a b : Q * xfloat) :
  key_eqb a k = true -> key_eqb b k = true -> key_ltb a b = false.
Proof.
  destruct a as [a1 a2], b as [b1 b2], k as [k1 k2].
  unfold key_eqb, key_ltb. cbn [fst snd]. intros Ha Hb.
  apply andb_true_iff in Ha, Hb. destruct Ha as [Ha1 Ha2], Hb as [Hb1 Hb2].
  destruct (Qeq_bool a1 b1) eqn:E.
  - destruct a2, b2, k2; cbn in *; try discriminate; try reflexivity.
    qprops. apply Qltb_false. lra.
  - qprops. lra.
Qed.

Lemma not_key_ltb_ranks_before (p q : ParserInterface) :
  key_ltb (sort_key q) (sort_key p) = false <-> ranks_before p q.
Proof.
  unfold key_ltb, sort_key, ranks_before. cbn [fst snd].
  destruct (Qeq_bool (- get_success_rate q) (- get_success_rate p)) eqn:E;
    qprops.
  - rewrite xltb_false. split.
    + intro H. right. split; [lra | exact H].
    + intros [H | [_ H]]; [lra | exact H].
  - rewrite Qltb_false. split.
    + intro H. left. lra.
    + intros [H | [H _]]; lra.
Qed.

Lemma tiedb_tied (p0 p : ParserInterface) : tiedb p0 p = true <-> tied p p0.
Proof.
  unfold tiedb, tied, key_eqb, sort_key. cbn [fst snd].
  rewrite andb_true_iff, xeqb_true, Qeq_bool_iff.
  split; intros [H1 H2]; split; try exact H2; lra.
Qed.

Lemma available_iff (now : Q) (p : ParserInterface) :
  available now p = true <-> enabled p = true /\ is_in_cooldown p now = false.
Proof.
  unfold available. rewrite andb_true_iff, negb_true_iff. tauto.
Qed.

End Ranking.

(** C5: [get_sorted_parsers] takes no random input; its result is a
    rearrangement of exactly the enabled resources that are not in cooldown,
    is the same at any two instants at which the same resources are
    available, is ordered by success rate descending and, among equal
    rates, by average latency ascending, and the resources of each full tie
    stand in the order they have in [self.parsers]. *)
Theorem get_sorted_parsers_ranking
        (parsers : list ThirdPartyParser.ParserInterface) (now : Q) :
  let out := ThirdPartyParser.get_sorted_parsers parsers now in
  Permutation out (filter (ThirdPartyParser.available now) parsers) /\
  (forall p, In p out <->
             In p parsers /\ ThirdPartyParser.enabled p = true /\
             ThirdPartyParser.is_in_cooldown p now = false) /\
  (forall now' : Q,
      (forall p, In p parsers ->
                 ThirdPartyParser.is_in_cooldown p now' =
                 ThirdPartyParser.is_in_cooldown p now) ->
      ThirdPartyParser.get_sorted_parsers parsers now' = out) /\
  StronglySorted ThirdPartyParser.ranks_before out /\
  (forall p0 : ThirdPartyParser.ParserInterface,
      filter (ThirdPartyParser.tiedb p0) out =
      filter (ThirdPartyParser.tiedb p0)
             (filter (ThirdPartyParser.available now) parsers)) /\
  (forall p0 p, ThirdPartyParser.tiedb p0 p = true <->
                ThirdPartyParser.tied p p0).
Proof.
  intro out. subst out. unfold ThirdPartyParser.get_sorted_parsers.
  split; [apply sorted_perm|]. split; [|split; [|split; [|split]]].
  - intro p. rewrite <- available_iff, <- filter_In.
    split; apply Permutation_in;
      [|apply Permutation_sym]; apply sorted_perm.
  - intros now' H. f_equal. apply filter_ext_in. intros p Hp.
    unfold ThirdPartyParser.available. now rewrite H.
  - apply StronglySorted_impl
      with (R := fun a b =>
                   ThirdPartyParser.key_ltb (ThirdPartyParser.sort_key b)
                                            (ThirdPartyParser.sort_key a)
                   = false).
    + intros a b. apply not_key_ltb_ranks_before.
    + apply sorted_sorted.
      * intros a b. apply key_ltb_asym.
      * intros a b c. apply key_le_trans.
  - intro p0. apply sorted_stable. intros a b Ha Hb.
    apply (key_tie_not_lt (ThirdPartyParser.sort_key p0)); assumption.
  - exact tiedb_tied.
Qed.

(** C5 on the pool of three: the first resource is in cooldown, the second
    has a success, so the ranking is second, third. *)
Lemma get_sorted_parsers_ranking_witness :
  map ThirdPartyParser.name
      (ThirdPartyParser.get_sorted_parsers ThirdPartyParser.pool_abc 0)
  = ["b"; "c"]%string /\
  StronglySorted ThirdPartyParser.ranks_before
    (ThirdPartyParser.get_sorted_parsers ThirdPartyParser.pool_abc 0).
Proof.
  split; [reflexivity|].
  exact (proj1 (proj2 (proj2 (proj2
           (get_sorted_parsers_ranking ThirdPartyParser.pool_abc 0))))).
Defined.

(* ------------------------------------------------------------------ *)
(** * Selection of a proxy *)

Section Selection.
Import ProxyManager.

Lemma pm_key_ltb_asym (a b : Q * Q) :
  key_ltb a b = true -> key_ltb b a = false.
Proof.
  destruct a as [a1 a2], b as [b1 b2]. unfold key_ltb. cbn [fst snd].
  destruct (Qeq_bool a1 b1) eqn:E1, (Qeq_bool b1 a1) eqn:E2; intro H;
    qprops; apply Qltb_false; lra.
Qed.

Lemma pm_key_le_trans (a b c : Q * Q) :
  key_ltb a b = false -> key_ltb b c = false -> key_ltb a c = false.
Proof.
  destruct a as [a1 a2], b as [b1 b2], c as [c1 c2].
  unfold key_ltb. cbn [fst snd].
  destruct (Qeq_bool a1 b1) eqn:E1, (Qeq_bool b1 c1) eqn:E2,
           (Qeq_bool a1 c1) eqn:E3; intros H1 H2;
    qprops; apply Qltb_false; lra.
Qed.

Lemma pm_not_key_ltb_ranks_before (p q : ProxyInfo) :
  key_ltb (sort_key p) (sort_key q) = false <-> ranks_before p q.
Proof.
  unfold key_ltb, sort_key, ranks_before. cbn [fst snd].
  destruct (Qeq_bool (success_rate p) (success_rate q)) eqn:E; qprops;
    rewrite Qltb_false.
  - split.
    + intro H. right. split; [exact E | lra].
    + intros [H | [_ H]]; lra.
  - split.
    + intro H. left. lra.
    + intros [H | [H _]]; [lra | contradiction].
Qed.

Lemma pm_key_tie_not_lt (k a b : Q * Q) :
  key_eqb a k = true -> key_eqb b k = true -> key_ltb a b = false.
Proof.
  destruct a as [a1 a2], b as [b1 b2], k as [k1 k2].
  unfold key_eqb, key_ltb. cbn [fst snd]. intros Ha Hb.
  apply andb_true_iff in Ha, Hb. destruct Ha as [Ha1 Ha2], Hb as [Hb1 Hb2].
  destruct (Qeq_bool a1 b1) eqn:E; qprops; [apply Qltb_false|]; lra.
Qed.

Lemma pm_tiedb_tied (p0 p : ProxyInfo) : tiedb p0 p = true <-> tied p p0.
Proof.
  unfold tiedb, tied, key_eqb, sort_key. cbn [fst snd].
  rewrite andb_true_iff, !Qeq_bool_iff.
  split; intros [H1 H2]; split; try exact H1; lra.
Qed.

Lemma ranked_perm (pm : t) : Permutation (ranked pm) (active_proxies pm).
Proof. apply sorted_perm. Qed.

(** The sort is stable, also with [reverse=True]: the proxies of one full
    tie keep the order they have in the pool. *)
Lemma ranked_stable (pm : t) (p0 : ProxyInfo) :
  filter (tiedb p0) (ranked pm) = filter (tiedb p0) (active_proxies pm).
Proof.
  unfold ranked, Py.sorted_reverse. apply sorted_stable.
  intros a b Ha Hb.
  apply (pm_key_tie_not_lt (sort_key p0)); assumption.
Qed.

Lemma ranked_sorted (pm : t) : StronglySorted ranks_before (ranked pm).
Proof.
  apply StronglySorted_impl
    with (R := fun a b => key_ltb (sort_key a) (sort_key b) = false).
  - intros a b. apply pm_not_key_ltb_ranks_before.
  - unfold ranked, Py.sorted_reverse.
    apply (sorted_sorted (fun a b => key_ltb (sort_key b) (sort_key a))).
    + intros a b. apply pm_key_ltb_asym.
    + intros a b c. apply pm_key_le_trans.
Qed.

Lemma kept_count_eq (m : nat) :
  Z.to_nat (Z.max 1 (Z.of_nat m / 2)) = kept_count m.
Proof.
  unfold kept_count.
  change 2 with (Z.of_nat 2). rewrite <- Nat2Z.inj_div. lia.
Qed.

Lemma top_proxies_eq (pm : t) :
  top_proxies pm =
  firstn (kept_count (List.length (active_proxies pm))) (ranked pm).
Proof.
  unfold top_proxies. rewrite kept_count_eq.
  now rewrite (Permutation_length (ranked_perm pm)).
Qed.

Lemma kept_count_bounds (n : nat) :
  (0 < n -> 1 <= kept_count n <= n)%nat.
Proof.
  unfold kept_count. intro H.
  assert (n / 2 <= n)%nat by (apply Nat.Div0.div_le_upper_bound; lia).
  lia.
Qed.

Lemma top_proxies_length (pm : t) :
  active_proxies pm <> [] ->
  List.length (top_proxies pm) =
  kept_count (List.length (active_proxies pm)).
Proof.
  intro Hne. rewrite top_proxies_eq, length_firstn.
  rewrite (Permutation_length (ranked_perm pm)).
  assert (0 < List.length (active_proxies pm))%nat.
  { destruct (active_proxies pm); [congruence | cbn; lia]. }
  pose proof (kept_count_bounds _ H). lia.
Qed.

Lemma NoDup_map_filter {A B : Type} (f : A -> B) (P : A -> bool)
      (l : list A) :
  NoDup (map f l) -> NoDup (map f (filter P l)).
Proof.
  induction l as [|x l IH]; cbn; intro H; [constructor|].
  inversion H as [|? ? Hx Hl]; subst.
  destruct (P x); cbn; [constructor|]; auto.
  intro Hin. apply Hx. apply in_map_iff in Hin.
  destruct Hin as (y & Hy & Hin). apply filter_In in Hin.
  apply in_map_iff. exists y. tauto.
Qed.

Lemma In_firstn {A : Type} (k : nat) (l : list A) (x : A) :
  In x (firstn k l) -> In x l.
Proof.
  revert k. induction l as [|y l IH]; intros [|k]; cbn; try tauto.
  intros [H | H]; [now left | right; eauto].
Qed.

Lemma NoDup_firstn_keep {A : Type} (k : nat) (l : list A) :
  NoDup l -> NoDup (firstn k l).
Proof.
  revert k. induction l as [|x l IH]; intros [|k] H; cbn;
    try constructor.
  - inversion H; subst. intro Hin. apply In_firstn in Hin. contradiction.
  - inversion H; subst. now apply IH.
Qed.

Lemma top_proxies_nodup (pm : t) : wf pm -> NoDup (map url (top_proxies pm)).
Proof.
  intro Hwf. unfold top_proxies. rewrite <- firstn_map.
  apply NoDup_firstn_keep.
  apply (Permutation_NoDup
           (Permutation_map url (Permutation_sym (ranked_perm pm)))).
  apply NoDup_map_filter. exact Hwf.
Qed.

Lemma get_active_proxy_some (pm : t) (r : nat) (u : string) :
  get_active_proxy pm r = Some u <->
  exists p, nth_error (top_proxies pm) r = Some p /\ url p = u.
Proof.
  unfold get_active_proxy.
  destruct (active_proxies pm) as [|a0 l0] eqn:E.
  - assert (Ht : top_proxies pm = []).
    { unfold top_proxies, ranked, Py.sorted_reverse. rewrite E.
      cbn [Py.sorted]. apply firstn_nil. }
    rewrite Ht. split; [discriminate|].
    intros (p & H & _). destruct r; discriminate H.
  - destruct (nth_error (top_proxies pm) r) as [p|]; cbn.
    + split.
      * intro H. injection H as H. now exists p.
      * intros (q & Hq & Hu). injection Hq as ->. now rewrite Hu.
    + split; [discriminate|]. intros (q & Hq & _). discriminate Hq.
Qed.

End Selection.

(** C2 as stated fails: with three selectable proxies the half rounded up
    is two, but [get_active_proxy] keeps one candidate only, and the proxy
    ranked second is returned for no draw at all. *)
Lemma get_active_proxy_keeps_one_of_three :
  List.length (ProxyManager.active_proxies ProxyManager.pool3) = 3%nat /\
  ProxyManager.kept_count_rounded_up 3 = 2%nat /\
  List.length (ProxyManager.top_proxies ProxyManager.pool3) = 1%nat /\
  In "http://10.0.0.2:8080"%string
     (map ProxyManager.url
          (firstn (ProxyManager.kept_count_rounded_up 3)
                  (ProxyManager.ranked ProxyManager.pool3))) /\
  (forall r : nat,
      ProxyManager.get_active_proxy ProxyManager.pool3 r <>
      Some "http://10.0.0.2:8080"%string).
Proof.
  split; [reflexivity|]. split; [reflexivity|]. split; [reflexivity|].
  split; [vm_compute; tauto|].
  intros [|[|r]]; vm_compute; discriminate.
Qed.

(** C2, amended: for every non-empty set of [n] selectable (ACTIVE)
    proxies, selection ranks them (success rate descending, then response
    time ascending), keeps the first [max(1, n // 2)] of the ranking, that
    is the top half rounded down with a minimum of one candidate, and
    returns [top[r]] for the drawn index [r]: every kept candidate is
    returned for exactly one of the equally likely draws, and nothing else
    is ever returned.  The ranking is stable: the proxies of each full tie
    (equal success rate and equal response time) stand in it in the order
    they have in the pool, so which of them are kept is determined. *)
Theorem get_active_proxy_top_half (pm : ProxyManager.t) :
  ProxyManager.wf pm ->
  ProxyManager.active_proxies pm <> [] ->
  let n := List.length (ProxyManager.active_proxies pm) in
  let k := Nat.max 1 (n / 2) in
  Permutation (ProxyManager.ranked pm) (ProxyManager.active_proxies pm) /\
  StronglySorted ProxyManager.ranks_before (ProxyManager.ranked pm) /\
  ProxyManager.top_proxies pm = firstn k (ProxyManager.ranked pm) /\
  List.length (ProxyManager.top_proxies pm) = k /\
  (1 <= k <= n)%nat /\
  (forall r : nat, (r < k)%nat ->
     exists p, nth_error (ProxyManager.top_proxies pm) r = Some p /\
               ProxyManager.get_active_proxy pm r =
                 Some (ProxyManager.url p)) /\
  (forall (r : nat) (u : string),
     ProxyManager.get_active_proxy pm r = Some u ->
     (r < k)%nat /\
     exists p, In p (ProxyManager.top_proxies pm) /\
               ProxyManager.url p = u) /\
  (forall r1 r2 : nat, (r1 < k)%nat -> (r2 < k)%nat ->
     ProxyManager.get_active_proxy pm r1 =
     ProxyManager.get_active_proxy pm r2 -> r1 = r2) /\
  (forall p0 : ProxyManager.ProxyInfo,
     filter (ProxyManager.tiedb p0) (ProxyManager.ranked pm) =
     filter (ProxyManager.tiedb p0) (ProxyManager.active_proxies pm)) /\
  (forall p0 p, ProxyManager.tiedb p0 p = true <->
                ProxyManager.tied p p0).
Proof.
  intros Hwf Hne n k.
  pose proof (top_proxies_length pm Hne) as Hlen.
  fold n in Hlen. change (ProxyManager.kept_count n) with k in Hlen.
  assert (Hn : (0 < n)%nat).
  { subst n. destruct (ProxyManager.active_proxies pm);
      [congruence | cbn; lia]. }
  assert (Hget : forall r, (r < k)%nat ->
            exists p, nth_error (ProxyManager.top_proxies pm) r = Some p /\
                      ProxyManager.get_active_proxy pm r =
                        Some (ProxyManager.url p)).
  { intros r Hr.
    destruct (nth_error (ProxyManager.top_proxies pm) r) as [p|] eqn:E.
    - exists p. split; [reflexivity|].
      apply get_active_proxy_some. now exists p.
    - apply nth_error_None in E. lia. }
  split; [apply ranked_perm|]. split; [apply ranked_sorted|].
  split; [apply top_proxies_eq|]. split; [exact Hlen|].
  split; [exact (kept_count_bounds n Hn)|].
  split; [exact Hget|]. split; [|split; [|split]].
  - intros r u H. apply get_active_proxy_some in H.
    destruct H as (p & Hp & Hu). split.
    + rewrite <- Hlen. apply nth_error_Some. congruence.
    + exists p. split; [|exact Hu]. eapply nth_error_In. exact Hp.
  - intros r1 r2 H1 H2 Heq.
    destruct (Hget r1 H1) as (p1 & Hp1 & Hg1).
    destruct (Hget r2 H2) as (p2 & Hp2 & Hg2).
    rewrite Hg1, Hg2 in Heq. injection Heq as Heq.
    pose proof (top_proxies_nodup pm Hwf) as Hnd.
    rewrite NoDup_nth_error in Hnd. apply Hnd.
    + rewrite length_map. lia.
    + rewrite !nth_error_map, Hp1, Hp2. cbn. now rewrite Heq.
  - intros p0. apply ranked_stable.
  - exact pm_tiedb_tied.
Qed.

(** C2 amended, on the pool of three fresh proxies: one candidate is kept,
    the first of the ranking. *)
Lemma get_active_proxy_top_half_witness :
  ProxyManager.top_proxies ProxyManager.pool3 =
  firstn 1 (ProxyManager.ranked ProxyManager.pool3).
Proof.
  refine (proj1 (proj2 (proj2
            (get_active_proxy_top_half ProxyManager.pool3 _ _)))).
  - unfold ProxyManager.wf. cbn.
    repeat constructor; cbn; intuition discriminate.
  - discriminate.
Defined.

(* ------------------------------------------------------------------ *)
(** * The ban state *)

Section Ban.
Import ProxyManager.

Lemma mem_update (u v : string) (f : ProxyInfo -> ProxyInfo)
      (ps : list ProxyInfo) :
  (forall p, url (f p) = url p) -> mem u (update v f ps) = mem u ps.
Proof.
  intro Hf. unfold mem, update. induction ps as [|p ps IH]; cbn.
  - reflexivity.
  - rewrite IH. destruct (String.eqb (url p) v); [rewrite Hf|]; reflexivity.
Qed.

Lemma quarantined_update (u v : string) (f : ProxyInfo -> ProxyInfo)
      (ps : list ProxyInfo) :
  (forall p, url (f p) = url p) ->
  (v = u -> forall p, status p = BANNED \/ status p = FAILED ->
                      status (f p) = BANNED \/ status (f p) = FAILED) ->
  quarantined u ps -> quarantined u (update v f ps).
Proof.
  intros Hurl Hst [Hmem Hall]. split.
  - now rewrite mem_update.
  - unfold update. apply Forall_map. apply Forall_impl with (2 := Hall).
    intros p Hp. destruct (String.eqb_spec (url p) v) as [E | E].
    + rewrite Hurl. intro Hu. apply Hst; [congruence | auto].
    + exact Hp.
Qed.

Lemma banned_status (p : ProxyInfo) :
  status (banned p) = BANNED \/ status (banned p) = FAILED.
Proof. now left. Qed.

Lemma failed_status (p : ProxyInfo) :
  status p = BANNED \/ status p = FAILED ->
  status (failed p) = BANNED \/ status (failed p) = FAILED.
Proof.
  intro H. unfold failed. cbn.
  destruct (failure_count p + 1 >=? 3); [now right | exact H].
Qed.

Lemma step_quarantined (u : string) (pm : t) (o : op) :
  releases u o = false ->
  quarantined u (proxies pm) -> quarantined u (proxies (step pm o)).
Proof.
  intros Hrel Hq. destruct o as [v ip | v | v d | v | v | v | v r | now run];
    cbn [step releases] in *.
  - apply quarantined_update; [reflexivity| |exact Hq].
    intros _ p _. apply banned_status.
  - apply quarantined_update; [reflexivity| |exact Hq].
    intros _ p. apply failed_status.
  - destruct d; cbn; [|exact Hq].
    apply quarantined_update; [reflexivity| |exact Hq].
    intros _ p _. apply banned_status.
  - apply quarantined_update; [reflexivity| |exact Hq].
    intro E. subst v. rewrite String.eqb_refl in Hrel. discriminate.
  - unfold add_proxy. destruct (mem v (proxies pm)) eqn:Hv; [exact Hq|].
    destruct Hq as [Hmem Hall]. cbn. split.
    + unfold mem in *. rewrite existsb_app, Hmem. reflexivity.
    + apply Forall_app. split; [exact Hall|].
      constructor; [|constructor]. cbn. intro E. subst v. congruence.
  - destruct Hq as [Hmem Hall]. cbn. split.
    + unfold mem in *. apply existsb_exists in Hmem.
      destruct Hmem as (p & Hin & Hp). apply existsb_exists.
      exists p. split; [|exact Hp]. apply filter_In. split; [exact Hin|].
      apply String.eqb_eq in Hp. rewrite Hp, String.eqb_sym, Hrel.
      reflexivity.
    + rewrite Forall_forall in *. intros p Hin. apply Hall.
      apply filter_In in Hin. tauto.
  - apply quarantined_update; [|
      intro E; subst v; rewrite String.eqb_refl in Hrel; discriminate
      | exact Hq].
    intro p. unfold _check_proxy, check_end. now destruct (ok r).
  - discriminate Hrel.
Qed.

Lemma run_ops_quarantined (u : string) (os : list op) (pm : t) :
  forallb (fun o => negb (releases u o)) os = true ->
  quarantined u (proxies pm) -> quarantined u (proxies (run_ops pm os)).
Proof.
  revert pm. induction os as [|o os IH]; intros pm Hos Hq; cbn in *.
  - exact Hq.
  - apply andb_true_iff in Hos. destruct Hos as [Ho Hos].
    apply negb_true_iff in Ho.
    apply IH; [exact Hos|]. now apply step_quarantined.
Qed.

Lemma url_unique (ps : list ProxyInfo) (p q : ProxyInfo) :
  NoDup (map url ps) -> In p ps -> In q ps -> url p = url q -> p = q.
Proof.
  induction ps as [|x ps IH]; cbn; intros Hnd Hp Hq E; [contradiction|].
  inversion Hnd as [|? ? Hx Hps]; subst.
  destruct Hp as [-> | Hp], Hq as [-> | Hq]; auto.
  - elim Hx. rewrite E. now apply in_map.
  - elim Hx. rewrite <- E. now apply in_map.
Qed.

Lemma banned_quarantined (pm : t) (u : string) :
  wf pm -> status_of pm u = Some BANNED -> quarantined u (proxies pm).
Proof.
  unfold wf, status_of, lookup. intros Hwf Hst.
  destruct (find _ (proxies pm)) as [p0|] eqn:E; [|discriminate].
  cbn in Hst. injection Hst as Hst.
  apply find_some in E. destruct E as [Hin Hu].
  apply String.eqb_eq in Hu. split.
  - apply existsb_exists. exists p0. split; [exact Hin|].
    now apply String.eqb_eq.
  - apply Forall_forall. intros p Hp Hpu.
    assert (p = p0) by (apply (url_unique (proxies pm)); congruence).
    subst p. now left.
Qed.

Lemma quarantined_status (pm : t) (u : string) :
  quarantined u (proxies pm) ->
  status_of pm u = Some BANNED \/ status_of pm u = Some FAILED.
Proof.
  intros [Hmem Hall]. unfold status_of, lookup.
  destruct (find _ (proxies pm)) as [p|] eqn:E.
  - apply find_some in E. destruct E as [Hin Hu].
    apply String.eqb_eq in Hu. rewrite Forall_forall in Hall.
    destruct (Hall p Hin Hu) as [H | H]; cbn; rewrite H; tauto.
  - unfold mem in Hmem. apply existsb_exists in Hmem.
    destruct Hmem as (p & Hin & Hp).
    pose proof (find_none _ _ E p Hin) as Hn. cbn in Hn. congruence.
Qed.

Lemma quarantined_not_selected (pm : t) (u : string) (r : nat) :
  quarantined u (proxies pm) -> get_active_proxy pm r <> Some u.
Proof.
  intros [_ Hall] H. apply get_active_proxy_some in H.
  destruct H as (p & Hp & Hu). apply nth_error_In in Hp.
  unfold top_proxies in Hp. apply In_firstn in Hp.
  apply (Permutation_in _ (ranked_perm pm)) in Hp.
  unfold active_proxies in Hp. apply filter_In in Hp.
  destruct Hp as [Hin Hact]. rewrite Forall_forall in Hall.
  destruct (Hall p Hin Hu) as [E | E]; rewrite E in Hact; discriminate.
Qed.

End Ban.

(** C1 as stated fails: the periodic health check probes a BANNED proxy
    like any other, and both a successful probe and a first failed probe
    leave it ACTIVE, so that it is selected again without any manual
    reset. *)
Lemma probe_reactivates_banned_proxy :
  let u := "http://10.0.0.1:8080"%string in
  let after_ok :=
    ProxyManager._check_all_proxies ProxyManager.pool_banned 1000
      (fun _ => ProxyManager.probe_ok 1000) in
  let after_failure :=
    ProxyManager._check_all_proxies ProxyManager.pool_banned 1000
      (fun _ => ProxyManager.probe_failed 1000) in
  ProxyManager.status_of ProxyManager.pool_banned u =
    Some ProxyManager.BANNED /\
  ProxyManager.status_of after_ok u = Some ProxyManager.ACTIVE /\
  ProxyManager.get_active_proxy after_ok 0 = Some u /\
  ProxyManager.status_of after_failure u = Some ProxyManager.ACTIVE /\
  ProxyManager.get_active_proxy after_failure 0 = Some u.
Proof.
  repeat split; vm_compute; reflexivity.
Qed.

(** C1, amended: while a proxy is BANNED, no operation other than its
    manual reset, its removal and the health-check probe takes it out of
    the states BANNED and FAILED: after any sequence of ban marks, failure
    marks, ban detections, additions, and resets, removals and probes of
    other proxies, it is BANNED or FAILED and no draw of the selection
    returns it.  The manual reset makes it ACTIVE.  The probe does not skip
    a BANNED proxy: it makes it ACTIVE on a successful request and on a
    failed one that leaves fewer than 3 counted failures, and FAILED
    otherwise. *)
Theorem banned_until_reset_or_probe
        (pm : ProxyManager.t) (u : string) (os : list ProxyManager.op) :
  ProxyManager.wf pm ->
  ProxyManager.status_of pm u = Some ProxyManager.BANNED ->
  forallb (fun o => negb (ProxyManager.releases u o)) os = true ->
  let pm' := ProxyManager.run_ops pm os in
  (ProxyManager.status_of pm' u = Some ProxyManager.BANNED \/
   ProxyManager.status_of pm' u = Some ProxyManager.FAILED) /\
  (forall r : nat, ProxyManager.get_active_proxy pm' r <> Some u) /\
  ProxyManager.status_of (ProxyManager.reset_proxy pm u) u =
    Some ProxyManager.ACTIVE /\
  (forall (p : ProxyManager.ProxyInfo) (r : ProxyManager.ProbeRun),
      ProxyManager.status p = ProxyManager.BANNED ->
      ProxyManager.status (ProxyManager._check_proxy p r) =
        if ProxyManager.ok r then ProxyManager.ACTIVE
        else if ProxyManager.failure_count p + 1 >=? 3
             then ProxyManager.FAILED else ProxyManager.ACTIVE).
Proof.
  intros Hwf Hst Hos pm'.
  pose proof (banned_quarantined pm u Hwf Hst) as Hq.
  pose proof (run_ops_quarantined u os pm Hos Hq) as Hq'.
  split; [exact (quarantined_status _ _ Hq')|].
  split; [intro r; exact (quarantined_not_selected _ _ r Hq')|].
  split.
  - unfold ProxyManager.status_of, ProxyManager.lookup in *.
    unfold ProxyManager.reset_proxy, ProxyManager.update. cbn.
    destruct (find _ (ProxyManager.proxies pm)) as [p0|] eqn:E;
      [|discriminate].
    clear -E. induction (ProxyManager.proxies pm) as [|p ps IH];
      [discriminate|]. cbn in *.
    destruct (String.eqb (ProxyManager.url p) u) eqn:Eu.
    + cbn. rewrite Eu. reflexivity.
    + rewrite Eu. apply IH. exact E.
  - intros p r _. unfold ProxyManager._check_proxy, ProxyManager.check_end.
    destruct (ProxyManager.ok r); reflexivity.
Qed.

(** C1 amended, on the pool with one banned proxy: a failure mark and a
    second ban detection later it is still out of selection. *)
Lemma banned_until_reset_or_probe_witness :
  ProxyManager.get_active_proxy
    (ProxyManager.run_ops ProxyManager.pool_banned
       [ProxyManager.MarkFailed "http://10.0.0.1:8080";
        ProxyManager.HandleIpBan "http://10.0.0.1:8080" true;
        ProxyManager.AddProxy "http://10.0.0.1:8080"])
    0 <> Some "http://10.0.0.1:8080"%string.
Proof.
  refine (proj1 (proj2
            (banned_until_reset_or_probe ProxyManager.pool_banned
               "http://10.0.0.1:8080" _ _ _ _)) 0%nat).
  - unfold ProxyManager.wf. cbn. repeat constructor. cbn. tauto.
  - reflexivity.
  - reflexivity.
Defined.

(* ------------------------------------------------------------------ *)
(** * The failure counter of a proxy *)

Section FailureCount.
Import ProxyManager.

Lemma history_snoc (u : string) (es : list event) (e : event) :
  history u (es ++ [e]) = apply_event (history u es) e.
Proof. unfold history. now rewrite fold_left_app. Qed.

Lemma failures_since_snoc (stop : event -> bool) (es : list event)
      (e : event) :
  failures_since stop (es ++ [e]) =
  if stop e then 0
  else (if is_failure e then 1 else 0) + failures_since stop es.
Proof.
  unfold failures_since. rewrite rev_unit. cbn [take_until].
  destruct (stop e); [reflexivity|]. cbn [filter].
  destruct (is_failure e); cbn [List.length]; lia.
Qed.

Lemma successes_snoc (es : list event) (e : event) :
  successes (es ++ [e]) =
  successes es + (if is_probe_success e then 1 else 0).
Proof.
  unfold successes. rewrite filter_app, length_app. cbn [filter].
  destruct (is_probe_success e); cbn [List.length]; lia.
Qed.

Lemma history_counts (u : string) (es : list event) :
  failure_count (history u es) = failures_since is_success_or_reset es /\
  success_count (history u es) = successes es.
Proof.
  induction es as [|e es [IHf IHs]] using rev_ind.
  - split; reflexivity.
  - rewrite history_snoc, failures_since_snoc, successes_snoc.
    destruct e as [r | | |]; cbn [apply_event is_success_or_reset
                                   is_failure is_probe_success].
    + unfold _check_proxy, check_end, check_begin.
      destruct (ok r); cbn [failure_count success_count negb];
        split; lia.
    + unfold failed. cbn [failure_count success_count]. split; lia.
    + unfold banned. cbn [failure_count success_count]. split; lia.
    + unfold reset. cbn [failure_count success_count]. split; lia.
Qed.

End FailureCount.

(** C10 as stated fails: after a successful probe, one failure and a
    manual reset, [failure_count] is 0 although one failure has been
    recorded since the last successful probe, and [success_rate] is 1
    where the ratio over that failure would be one half. *)
Lemma reset_clears_failures_since_success :
  let p := ProxyManager.history "http://10.0.0.1:8080"
             ProxyManager.history_with_reset in
  ProxyManager.failure_count p = 0 /\
  ProxyManager.failures_since ProxyManager.is_probe_success
    ProxyManager.history_with_reset = 1 /\
  ProxyManager.success_count p = 1 /\
  (ProxyManager.success_rate p == 1)%Q /\
  (ProxyManager.rate_over 1 1 == 1 # 2)%Q /\
  ~ (ProxyManager.success_rate p ==
     ProxyManager.rate_over
       (ProxyManager.success_count p)
       (ProxyManager.failures_since ProxyManager.is_probe_success
          ProxyManager.history_with_reset))%Q.
Proof.
  repeat split; try (vm_compute; reflexivity).
  intro H. vm_compute in H. discriminate H.
Qed.

(** C10, amended: a successful health-check probe sets the proxy's
    [failure_count] to 0, and so does a manual reset; at all times
    [failure_count] is the number of failures (failed probes and failure
    marks) recorded since the last successful probe or manual reset, not a
    lifetime total, [success_count] is the number of successful probes, and
    [success_rate] is [success_count] divided by the sum of [success_count]
    and that number of failures (0 when the sum is 0). *)
Theorem failure_count_since_success_or_reset
        (u : string) (es : list ProxyManager.event) :
  let p := ProxyManager.history u es in
  let n := ProxyManager.failures_since ProxyManager.is_success_or_reset es in
  ProxyManager.failure_count p = n /\
  ProxyManager.success_count p = ProxyManager.successes es /\
  ProxyManager.success_rate p =
    ProxyManager.rate_over (ProxyManager.successes es) n /\
  (forall (q : ProxyManager.ProxyInfo) (r : ProxyManager.ProbeRun),
      ProxyManager.ok r = true ->
      ProxyManager.failure_count (ProxyManager._check_proxy q r) = 0 /\
      ProxyManager.success_count (ProxyManager._check_proxy q r) =
        ProxyManager.success_count q + 1) /\
  (forall q : ProxyManager.ProxyInfo,
      ProxyManager.failure_count (ProxyManager.reset q) = 0).
Proof.
  intros p n. subst p n.
  destruct (history_counts u es) as [Hf Hs].
  split; [exact Hf|]. split; [exact Hs|]. split; [|split].
  - unfold ProxyManager.success_rate, ProxyManager.rate_over.
    now rewrite Hf, Hs.
  - intros q r Hr. unfold ProxyManager._check_proxy, ProxyManager.check_end.
    rewrite Hr. split; reflexivity.
  - reflexivity.
Qed.

(** C10 amended, on a probe that succeeds after two failures. *)
Lemma failure_count_since_success_or_reset_witness :
  ProxyManager.failure_count
    (ProxyManager._check_proxy
       (ProxyManager.failed
          (ProxyManager.failed (ProxyManager.new_proxy "http://10.0.0.1:8080")))
       (ProxyManager.probe_ok 1000)) = 0.
Proof.
  exact (proj1 (proj1 (proj2 (proj2 (proj2
           (failure_count_since_success_or_reset "" [])))) _
           (ProxyManager.probe_ok 1000) eq_refl)).
Defined.

(* ------------------------------------------------------------------ *)
(** * The embedding on the scenarios of the repository's tests *)

(** [test_proxy_failure_handling]: one failure mark keeps the proxy ACTIVE
    with [failure_count] 1, three make it FAILED with [failure_count] 3. *)
Example mark_failed_once_and_thrice :
  let p0 := ProxyManager.new_proxy "http://10.0.0.1:8080" in
  let p1 := ProxyManager.failed p0 in
  let p3 := ProxyManager.failed (ProxyManager.failed p1) in
  ProxyManager.failure_count p1 = 1 /\
  ProxyManager.status p1 = ProxyManager.ACTIVE /\
  ProxyManager.failure_count p3 = 3 /\
  ProxyManager.status p3 = ProxyManager.FAILED.
Proof. repeat split. Qed.

(** [test_proxy_ban_detection]: right after the ban mark the only proxy of
    the pool is not selected. *)
Example banned_proxy_not_selected (r : nat) :
  ProxyManager.get_active_proxy ProxyManager.pool_banned r = None.
Proof. reflexivity. Qed.

(** Three failed probes in a row take a proxy from ACTIVE to FAILED, and
    one successful probe takes it back to ACTIVE. *)
Example three_failed_probes_then_success :
  let run := ProxyManager.probe_failed 1000 in
  let p3 :=
    ProxyManager._check_proxy
      (ProxyManager._check_proxy
         (ProxyManager._check_proxy
            (ProxyManager.new_proxy "http://10.0.0.1:8080") run) run) run in
  ProxyManager.status p3 = ProxyManager.FAILED /\
  ProxyManager.status
    (ProxyManager._check_proxy p3 (ProxyManager.probe_ok 2000)) =
  ProxyManager.ACTIVE.
Proof. split; reflexivity. Qed.

(** [test_http_client_properties]: 500 and 429 are retried on the first
    attempt when retries are allowed, 200 and 404 never, and nothing is
    retried once the attempts are used up. *)
Example should_retry_cases :
  let config := HTTPClient.mkConfig 3 in
  HTTPClient._should_retry config 500 0 = true /\
  HTTPClient._should_retry config 429 0 = true /\
  HTTPClient._should_retry config 200 0 = false /\
  HTTPClient._should_retry config 404 0 = false /\
  HTTPClient._should_retry config 500 3 = false.
Proof. repeat split. Qed.

(** The cooldown durations of the fifth to the twelfth consecutive
    failure. *)
Example cooldown_schedule :
  map ThirdPartyParser.cooldown_time [5; 6; 7; 8; 9; 10; 11; 12] =
  [60; 120; 240; 480; 960; 1920; 3600; 3600].
Proof. reflexivity. Qed.

(* ------------------------------------------------------------------ *)
(** * The token bucket *)

Section Bucket.
Import RateLimiter.
Local Open Scope Q_scope.

Lemma blocks_false (s : t) (now : Q) :
  blocks s now = false ->
  1 <= Qmin (rate s) (tokens s + (now - last_update s) * rate s).
Proof.
  unfold blocks. rewrite negb_false_iff. apply Qle_bool_iff.
Qed.

Lemma blocks_true (s : t) (now : Q) :
  blocks s now = true ->
  Qmin (rate s) (tokens s + (now - last_update s) * rate s) < 1.
Proof.
  unfold blocks. rewrite negb_true_iff. intro H.
  apply Qnot_le_lt. intro Hle. apply Qle_bool_iff in Hle. congruence.
Qed.

Lemma acquire_unblocked (s : t) (now now' : Q) :
  blocks s now = false ->
  tokens (acquire s now now') =
    Qmin (rate s) (tokens s + (now - last_update s) * rate s) - 1 /\
  last_update (acquire s now now') = now /\
  blocked_requests (stats (acquire s now now')) =
    blocked_requests (stats s).
Proof.
  unfold blocks, acquire. rewrite negb_false_iff. intro H. rewrite H.
  repeat split.
Qed.

Lemma acquire_blocked (s : t) (now now' : Q) :
  blocks s now = true ->
  tokens (acquire s now now') =
    Qmin (rate s)
         (Qmin (rate s) (tokens s + (now - last_update s) * rate s) +
          (now' - now) * rate s) - 1 /\
  last_update (acquire s now now') = now' /\
  blocked_requests (stats (acquire s now now')) =
    (blocked_requests (stats s) + 1)%Z /\
  backoff_factor (acquire s now now') = backoff_factor s.
Proof.
  unfold blocks, acquire. rewrite negb_true_iff. intro H. rewrite H.
  repeat split.
Qed.

(** After a long enough sleep the refill has brought the bucket to one
    token at least. *)
Lemma sleep_refills (s : t) (now now' : Q) :
  0 < rate s -> 1 <= backoff_factor s ->
  blocks s now = true -> wait_time s now <= now' - now ->
  1 <= Qmin (rate s) (tokens s + (now - last_update s) * rate s) +
       (now' - now) * rate s.
Proof.
  intros Hr Hb Hbl Hw. apply blocks_true in Hbl.
  unfold wait_time in Hw. cbv zeta in Hw.
  revert Hbl Hw.
  generalize (Qmin (rate s) (tokens s + (now - last_update s) * rate s)).
  intros t1 Ht1 Hw.
  assert (Hd : (1 - t1) / rate s * rate s == 1 - t1).
  { field. intro E. rewrite E in Hr. now apply Qlt_irrefl in Hr. }
  assert (Hdpos : 0 < (1 - t1) / rate s).
  { apply Qlt_shift_div_l; lra. }
  revert Hd Hdpos Hw. generalize ((1 - t1) / rate s). intros d Hd Hdpos Hw.
  nra.
Qed.

Lemma step_stats (s : t) (o : op) :
  (0 <= blocked_requests (stats s) <= total_requests (stats s))%Z ->
  (0 <= blocked_requests (stats (step s o)) <=
   total_requests (stats (step s o)))%Z.
Proof.
  intro H. destruct o as [now now' | f | | | r |]; cbn [step].
  - unfold acquire. destruct (Qle_bool 1 _); cbn; lia.
  - unfold set_backoff. cbn [stats]. destruct (Qltb _ _); cbn; lia.
  - unfold trigger_exponential_backoff, set_backoff. cbn [stats].
    destruct (Qltb _ _); cbn; lia.
  - unfold reset_backoff. destruct (Qltb _ _); cbn; lia.
  - cbn. lia.
  - cbn. lia.
Qed.

Lemma set_backoff_ok (s : t) (f : Q) :
  1 <= f -> backoff_ok s -> backoff_ok (set_backoff s f).
Proof.
  intros Hf [H1 H2]. unfold set_backoff, backoff_ok.
  cbn [backoff_factor max_backoff]. split.
  - apply Q.min_glb; [lra | nra].
  - apply Q.le_min_l.
Qed.

Lemma step_backoff_ok (s : t) (o : op) :
  raises o -> backoff_ok s ->
  backoff_ok (step s o) /\ max_backoff (step s o) = max_backoff s.
Proof.
  intros Ho H. destruct o as [now now' | f | | | r |]; cbn [step raises] in *.
  - split; [now apply acquire_backoff_ok|].
    unfold acquire. now destruct (Qle_bool 1 _).
  - split; [now apply set_backoff_ok | reflexivity].
  - split; [now apply trigger_backoff_ok | reflexivity].
  - split; [now apply reset_backoff_ok|].
    unfold reset_backoff. now destruct (Qltb _ _).
  - split; [exact H | reflexivity].
  - split; [exact H | reflexivity].
Qed.

Lemma min_double_scale (m b k : Q) :
  0 <= m -> 0 <= b -> 1 <= k ->
  Qmin m (Qmin m (b * 2) * k) == Qmin m (b * (2 * k)).
Proof.
  intros Hm Hb Hk.
  destruct (Q.min_spec m (b * 2)) as [[H1 E1] | [H1 E1]]; rewrite E1.
  - rewrite (Q.min_l m (m * k)) by nra.
    rewrite Q.min_l by nra. reflexivity.
  - apply Q.min_compat; [reflexivity | ring].
Qed.

Lemma inject_pow2_succ (n : nat) :
  inject_Z (2 ^ Z.of_nat (S n)) == 2 * inject_Z (2 ^ Z.of_nat n).
Proof.
  rewrite Nat2Z.inj_succ, Z.pow_succ_r by lia.
  rewrite inject_Z_mult. reflexivity.
Qed.

Lemma inject_pow2_ge_1 (n : nat) : 1 <= inject_Z (2 ^ Z.of_nat n).
Proof.
  change 1 with (inject_Z 1). rewrite <- Zle_Qle.
  assert (0 < 2 ^ Z.of_nat n)%Z by (apply Z.pow_pos_nonneg; lia). lia.
Qed.

Lemma triggers_max_backoff (n : nat) (s : t) :
  max_backoff (triggers n s) = max_backoff s.
Proof.
  revert s. induction n as [|n IH]; intro s; cbn; [reflexivity|].
  now rewrite IH.
Qed.

Lemma triggers_value (n : nat) (s : t) :
  backoff_ok s ->
  backoff_factor (triggers n s) ==
  Qmin (max_backoff s) (backoff_factor s * inject_Z (2 ^ Z.of_nat n)).
Proof.
  revert s. induction n as [|n IH]; intros s Hok.
  - destruct Hok as [H1 H2]. cbn [triggers].
    change (inject_Z (2 ^ Z.of_nat 0)) with 1.
    rewrite Q.min_r by lra. ring.
  - cbn [triggers]. rewrite IH by now apply trigger_backoff_ok.
    rewrite trigger_backoff_value. destruct Hok as [H1 H2].
    change (max_backoff (trigger_exponential_backoff s))
      with (max_backoff s).
    rewrite min_double_scale;
      [|lra | lra | apply inject_pow2_ge_1].
    apply Q.min_compat; [reflexivity|].
    rewrite inject_pow2_succ. reflexivity.
Qed.

End Bucket.

(** X1: an [acquire] whose sleep lasted at least the requested time leaves
    between [min(rate, 1) - 1] and [rate - 1] tokens.  With a rate of one
    request per second or more the bucket is never overdrawn; with a rate
    below one every call blocks and leaves exactly [rate - 1] tokens. *)
Theorem acquire_tokens_bounds (s : RateLimiter.t) (now now' : Q) :
  (0 < RateLimiter.rate s)%Q ->
  (1 <= RateLimiter.backoff_factor s)%Q ->
  RateLimiter.slept_enough s now now' ->
  let s' := RateLimiter.acquire s now now' in
  (Qmin (RateLimiter.rate s) 1 - 1 <= RateLimiter.tokens s')%Q /\
  (RateLimiter.tokens s' <= RateLimiter.rate s - 1)%Q /\
  ((1 <= RateLimiter.rate s)%Q -> (0 <= RateLimiter.tokens s')%Q) /\
  ((RateLimiter.rate s < 1)%Q ->
   RateLimiter.blocks s now = true /\
   (RateLimiter.tokens s' == RateLimiter.rate s - 1)%Q).
Proof.
  intros Hr Hb Hs s'. subst s'.
  assert (Hlow : (Qmin (RateLimiter.rate s) 1 - 1 <=
                  RateLimiter.tokens (RateLimiter.acquire s now now'))%Q).
  { destruct (RateLimiter.blocks s now) eqn:E.
    - destruct (acquire_blocked s now now' E) as (Ht & _). rewrite Ht.
      pose proof (sleep_refills s now now' Hr Hb E (Hs E)) as H1.
      apply Qplus_le_l with (z := 1%Q). ring_simplify.
      apply Q.min_glb.
      + apply Q.le_min_l.
      + eapply Qle_trans; [apply Q.le_min_r | exact H1].
    - destruct (acquire_unblocked s now now' E) as (Ht & _). rewrite Ht.
      apply blocks_false in E.
      pose proof (Q.le_min_r (RateLimiter.rate s) 1). lra. }
  assert (Hup : (RateLimiter.tokens (RateLimiter.acquire s now now') <=
                 RateLimiter.rate s - 1)%Q).
  { destruct (RateLimiter.blocks s now) eqn:E.
    - destruct (acquire_blocked s now now' E) as (Ht & _). rewrite Ht.
      pose proof (Q.le_min_l (RateLimiter.rate s)
                    (Qmin (RateLimiter.rate s)
                       (RateLimiter.tokens s +
                        (now - RateLimiter.last_update s) *
                        RateLimiter.rate s) +
                     (now' - now) * RateLimiter.rate s)). lra.
    - destruct (acquire_unblocked s now now' E) as (Ht & _). rewrite Ht.
      pose proof (Q.le_min_l (RateLimiter.rate s)
                    (RateLimiter.tokens s +
                     (now - RateLimiter.last_update s) *
                     RateLimiter.rate s)). lra. }
  split; [exact Hlow|]. split; [exact Hup|]. split.
  - intro H1. rewrite (Q.min_r (RateLimiter.rate s) 1) in Hlow by exact H1.
    lra.
  - intro H1. split.
    + destruct (RateLimiter.blocks s now) eqn:E; [reflexivity|].
      apply blocks_false in E.
      pose proof (Q.le_min_l (RateLimiter.rate s)
                    (RateLimiter.tokens s +
                     (now - RateLimiter.last_update s) *
                     RateLimiter.rate s)). lra.
    + rewrite (Q.min_l (RateLimiter.rate s) 1) in Hlow by lra. lra.
Qed.

(** X1 on a limiter of half a request per second: the first call blocks,
    sleeps the second it asks for, and leaves minus half a token. *)
Lemma acquire_tokens_bounds_witness :
  (RateLimiter.tokens
     (RateLimiter.acquire (RateLimiter.init (1 # 2) 0) 0 1) <=
   (1 # 2) - 1)%Q.
Proof.
  refine (proj1 (proj2 (acquire_tokens_bounds
                          (RateLimiter.init (1 # 2) 0) 0 1 _ _ _))).
  - reflexivity.
  - discriminate.
  - intros _. discriminate.
Defined.

(** X2: an [acquire] whose sleep lasted at least the requested time returns
    no earlier than [(1 - tokens) / rate] seconds after the previous update
    of the bucket; with an empty bucket that is a gap of [1 / rate] at
    least between two requests. *)
Theorem acquire_gap (s : RateLimiter.t) (now now' : Q) :
  (0 < RateLimiter.rate s)%Q ->
  (1 <= RateLimiter.backoff_factor s)%Q ->
  RateLimiter.slept_enough s now now' ->
  let s' := RateLimiter.acquire s now now' in
  ((1 - RateLimiter.tokens s) / RateLimiter.rate s <=
   RateLimiter.last_update s' - RateLimiter.last_update s)%Q /\
  ((RateLimiter.tokens s <= 0)%Q ->
   (1 / RateLimiter.rate s <=
    RateLimiter.last_update s' - RateLimiter.last_update s)%Q).
Proof.
  intros Hr Hb Hs s'. subst s'.
  assert (Hgap : ((1 - RateLimiter.tokens s) / RateLimiter.rate s <=
                  RateLimiter.last_update (RateLimiter.acquire s now now') -
                  RateLimiter.last_update s)%Q).
  { apply Qle_shift_div_r; [exact Hr|].
    destruct (RateLimiter.blocks s now) eqn:E.
    - destruct (acquire_blocked s now now' E) as (_ & Hl & _). rewrite Hl.
      pose proof (sleep_refills s now now' Hr Hb E (Hs E)) as H1.
      pose proof (Q.le_min_r (RateLimiter.rate s)
                    (RateLimiter.tokens s +
                     (now - RateLimiter.last_update s) *
                     RateLimiter.rate s)) as H2.
      lra.
    - destruct (acquire_unblocked s now now' E) as (_ & Hl & _). rewrite Hl.
      apply blocks_false in E.
      pose proof (Q.le_min_r (RateLimiter.rate s)
                    (RateLimiter.tokens s +
                     (now - RateLimiter.last_update s) *
                     RateLimiter.rate s)) as H2.
      lra. }
  split; [exact Hgap|]. intro Ht.
  eapply Qle_trans; [|exact Hgap].
  apply Qle_shift_div_l; [exact Hr|].
  assert (E : (1 / RateLimiter.rate s * RateLimiter.rate s == 1)%Q).
  { field. intro E. rewrite E in Hr. now apply Qlt_irrefl in Hr. }
  rewrite E. lra.
Qed.

(** X2 on a limiter of two requests per second whose bucket was emptied at
    the instant 0: the third call returns at 1/2. *)
Lemma acquire_gap_witness :
  (1 / 2 <=
   RateLimiter.last_update
     (RateLimiter.acquire
        (RateLimiter.acquire
           (RateLimiter.acquire (RateLimiter.init 2 0) 0 0) 0 0)
        0 (1 # 2)) - 0)%Q.
Proof.
  refine (proj2 (acquire_gap
                   (RateLimiter.acquire
                      (RateLimiter.acquire (RateLimiter.init 2 0) 0 0) 0 0)
                   0 (1 # 2) _ _ _) _).
  - reflexivity.
  - discriminate.
  - intros _. discriminate.
  - discriminate.
Defined.

(** X3: in every state reached from a new limiter the blocked requests
    are a part of the total requests, so the [block_rate] reported by
    [get_stats] lies between 0 and 1. *)
Theorem block_rate_bounds (requests_per_second now : Q)
        (os : list RateLimiter.op) :
  let s := RateLimiter.run (RateLimiter.init requests_per_second now) os in
  (0 <= RateLimiter.blocked_requests (RateLimiter.stats s) <=
   RateLimiter.total_requests (RateLimiter.stats s)) /\
  (0 <= RateLimiter.block_rate (RateLimiter.get_stats s))%Q /\
  (RateLimiter.block_rate (RateLimiter.get_stats s) <= 1)%Q.
Proof.
  intro s. subst s.
  assert (H : 0 <= RateLimiter.blocked_requests
                     (RateLimiter.stats
                        (RateLimiter.run
                           (RateLimiter.init requests_per_second now) os)) <=
              RateLimiter.total_requests
                (RateLimiter.stats
                   (RateLimiter.run
                      (RateLimiter.init requests_per_second now) os))).
  { unfold RateLimiter.run.
    assert (H0 : 0 <= RateLimiter.blocked_requests
                        (RateLimiter.stats
                           (RateLimiter.init requests_per_second now)) <=
                 RateLimiter.total_requests
                   (RateLimiter.stats
                      (RateLimiter.init requests_per_second now)))
      by (cbn; lia).
    revert H0. generalize (RateLimiter.init requests_per_second now).
    induction os as [|o os IH]; intros s0 H0; cbn [fold_left].
    - exact H0.
    - apply IH. now apply step_stats. }
  split; [exact H|].
  unfold RateLimiter.get_stats. cbn [RateLimiter.block_rate].
  revert H.
  generalize (RateLimiter.stats
                (RateLimiter.run
                   (RateLimiter.init requests_per_second now) os)).
  intros st [Hb Ht].
  destruct (Z.gtb_spec (RateLimiter.total_requests st) 0) as [Hpos | Hz].
  - assert (Hq : (0 < inject_Z (RateLimiter.total_requests st))%Q).
    { change 0%Q with (inject_Z 0). now rewrite <- Zlt_Qlt. }
    split.
    + apply Qle_shift_div_l; [exact Hq|]. rewrite Qmult_0_l.
      change 0%Q with (inject_Z 0). now rewrite <- Zle_Qle.
    + apply Qle_shift_div_r; [exact Hq|]. rewrite Qmult_1_l.
      now rewrite <- Zle_Qle.
  - split; discriminate.
Qed.

(** X4: in every state reached from a new limiter through calls that do
    not ask [set_backoff] for a factor below 1, the backoff factor lies
    between 1 and the maximum of 60. *)
Theorem backoff_factor_bounds (requests_per_second now : Q)
        (os : list RateLimiter.op) :
  Forall RateLimiter.raises os ->
  let s := RateLimiter.run (RateLimiter.init requests_per_second now) os in
  (1 <= RateLimiter.backoff_factor s)%Q /\
  (RateLimiter.backoff_factor s <= 60)%Q /\
  RateLimiter.max_backoff s = 60%Q.
Proof.
  intros Hos s. subst s. unfold RateLimiter.run.
  assert (H0 : RateLimiter.backoff_ok
                 (RateLimiter.init requests_per_second now) /\
               RateLimiter.max_backoff
                 (RateLimiter.init requests_per_second now) = 60%Q)
    by (split; [apply init_backoff_ok | reflexivity]).
  revert H0. generalize (RateLimiter.init requests_per_second now).
  induction Hos as [|o os Ho Hos IH]; intros s0 [Hok Hm]; cbn [fold_left].
  - destruct Hok as [H1 H2]. rewrite Hm in H2. auto.
  - destruct (step_backoff_ok s0 o Ho Hok) as [Hok' Hm'].
    apply IH. split; [exact Hok' | congruence].
Qed.

(** X4 on three calls: an [acquire], a backoff by 100 and an [acquire]. *)
Lemma backoff_factor_bounds_witness :
  (RateLimiter.backoff_factor
     (RateLimiter.run (RateLimiter.init 2 0)
        [RateLimiter.Acquire 0 0; RateLimiter.SetBackoff 100;
         RateLimiter.Acquire 1 1]) <= 60)%Q.
Proof.
  refine (proj1 (proj2 (backoff_factor_bounds 2 0 _ _))).
  repeat constructor. discriminate.
Defined.

(** X5: [n] exponential backoffs in a row multiply the factor by [2^n], up
    to the maximum: the factor becomes [min(max_backoff, factor * 2^n)],
    and a [reset_backoff] after them brings it back to 1. *)
Theorem triggers_closed_form (n : nat) (s : RateLimiter.t) :
  RateLimiter.backoff_ok s ->
  (RateLimiter.backoff_factor (RateLimiter.triggers n s) ==
   Qmin (RateLimiter.max_backoff s)
        (RateLimiter.backoff_factor s * inject_Z (2 ^ Z.of_nat n)))%Q /\
  ((RateLimiter.max_backoff s <=
    RateLimiter.backoff_factor s * inject_Z (2 ^ Z.of_nat n))%Q ->
   (RateLimiter.backoff_factor (RateLimiter.triggers n s) ==
    RateLimiter.max_backoff s)%Q) /\
  (RateLimiter.backoff_factor
     (RateLimiter.reset_backoff (RateLimiter.triggers n s)) == 1)%Q.
Proof.
  intro Hok. pose proof (triggers_value n s Hok) as Hv.
  split; [exact Hv|]. split.
  - intro Hsat. rewrite Hv. now apply Q.min_l.
  - unfold RateLimiter.reset_backoff.
    destruct (Qltb 1 (RateLimiter.backoff_factor (RateLimiter.triggers n s)))
      eqn:E.
    + reflexivity.
    + apply Qltb_false in E.
      assert (H1 : (1 <= RateLimiter.backoff_factor
                            (RateLimiter.triggers n s))%Q).
      { rewrite Hv. destruct Hok as [H1 H2].
        pose proof (inject_pow2_ge_1 n).
        apply Q.min_glb; [lra | nra]. }
      lra.
Qed.

(** X5 on a new limiter: six backoffs reach the maximum of 60. *)
Lemma triggers_closed_form_witness :
  (RateLimiter.backoff_factor
     (RateLimiter.triggers 6 (RateLimiter.init 2 0)) == 60)%Q.
Proof.
  refine (proj1 (proj2 (triggers_closed_form 6 (RateLimiter.init 2 0) _)) _).
  - split; discriminate.
  - discriminate.
Defined.

(* ------------------------------------------------------------------ *)
(** * The adaptive limiter *)

Section Adaptive.
Import AdaptiveRateLimiter.
Local Open Scope Q_scope.

Lemma check_adjustment_ok (a : t) :
  0 <= min_rate a -> min_rate a <= RateLimiter.rate (base a) ->
  RateLimiter.rate (base a) <= max_rate a ->
  RateLimiter.tokens (base a) <= RateLimiter.rate (base a) ->
  (0 <= success_count a)%Z -> (0 <= failure_count a)%Z ->
  (success_count a + failure_count a <= adjustment_threshold)%Z ->
  ok (_check_adjustment a) /\
  min_rate (_check_adjustment a) = min_rate a /\
  max_rate (_check_adjustment a) = max_rate a.
Proof.
  intros H0 H1 H2 H3 H4 H5 H6. unfold _check_adjustment.
  destruct (Z.geb_spec (success_count a + failure_count a)
                       adjustment_threshold) as [Hge | Hlt].
  2:{ split; [|split; reflexivity]. unfold ok. repeat split; auto. }
  split; [|split; reflexivity].
  assert (Hup : forall r, RateLimiter.tokens
                            (RateLimiter.update_rate (base a) r) <= r).
  { intro r. unfold RateLimiter.update_rate. cbn [RateLimiter.tokens].
    destruct (Qltb _ _); apply Q.le_min_l. }
  unfold ok, adjustment_threshold.
  cbn [base min_rate max_rate success_count failure_count].
  destruct (Qltb (9 # 10) _).
  - destruct (Qeq_bool _ _); cbn [negb].
    + repeat split; auto; lia.
    + cbn [RateLimiter.update_rate RateLimiter.rate].
      repeat split; auto; try lia.
      * apply Q.min_glb; lra.
      * apply Q.le_min_l.
  - destruct (Qltb _ (7 # 10)).
    + destruct (Qeq_bool _ _); cbn [negb].
      * repeat split; auto; lia.
      * cbn [RateLimiter.update_rate RateLimiter.rate].
        repeat split; auto; try lia.
        -- apply Q.le_max_l.
        -- apply Q.max_lub; lra.
    + repeat split; auto; lia.
Qed.

Lemma observe_ok (a : t) (b : bool) :
  ok a ->
  ok (observe a b) /\ min_rate (observe a b) = min_rate a /\
  max_rate (observe a b) = max_rate a.
Proof.
  intros (H0 & H1 & H2 & H3 & H4 & H5 & H6).
  destruct b; cbn [observe]; unfold record_success, record_failure;
    match goal with
    | |- ok (_check_adjustment ?x) /\ _ =>
        pose proof (check_adjustment_ok x) as H
    end;
    cbn [base min_rate max_rate success_count failure_count] in H;
    apply H; auto; unfold adjustment_threshold in *; lia.
Qed.

Lemma observe_below_threshold (a : t) (b : bool) :
  (success_count a + failure_count a + 1 < adjustment_threshold)%Z ->
  observe a b =
  mkARL (base a) (min_rate a) (max_rate a)
        (success_count a + (if b then 1 else 0))%Z
        (failure_count a + (if b then 0 else 1))%Z.
Proof.
  intro H. destruct b; cbn [observe];
    unfold record_success, record_failure, _check_adjustment;
    cbn [base min_rate max_rate success_count failure_count].
  - destruct (Z.geb_spec (success_count a + 1 + failure_count a)
                         adjustment_threshold); [lia|].
    f_equal; lia.
  - destruct (Z.geb_spec (success_count a + (failure_count a + 1))
                         adjustment_threshold); [lia|].
    f_equal; lia.
Qed.

Lemma observe_all_below_threshold (obs : list bool) (a : t) :
  (success_count a + failure_count a + Z.of_nat (List.length obs)
   < adjustment_threshold)%Z ->
  observe_all a obs =
  mkARL (base a) (min_rate a) (max_rate a)
        (success_count a +
         Z.of_nat (List.length (filter (fun b => b) obs)))%Z
        (failure_count a + Z.of_nat (List.length (filter negb obs)))%Z.
Proof.
  revert a. induction obs as [|b obs IH]; intros a H.
  - cbn. destruct a; cbn. f_equal; lia.
  - cbn [observe_all fold_left] in *. fold (observe_all (observe a b) obs).
    cbn [List.length] in H.
    rewrite observe_below_threshold by lia.
    rewrite IH;
      cbn [base min_rate max_rate success_count failure_count].
    + destruct b; cbn [filter negb List.length]; f_equal; lia.
    + destruct b; lia.
Qed.

Lemma check_adjustment_full (b : RateLimiter.t) (mn mx : Q) (k : nat) :
  (k <= 10)%nat ->
  let a' := _check_adjustment
              (mkARL b mn mx (Z.of_nat k) (10 - Z.of_nat k)) in
  RateLimiter.rate (base a') == decided_rate (mkARL b mn mx 0 0) k /\
  success_count a' = 0%Z /\ failure_count a' = 0%Z.
Proof.
  intros Hk a'. subst a'. unfold _check_adjustment, decided_rate.
  cbn [base min_rate max_rate success_count failure_count].
  replace (Z.of_nat k + (10 - Z.of_nat k))%Z with 10%Z by lia.
  change (10 >=? adjustment_threshold)%Z with true. cbv iota.
  cbn [base success_count failure_count].
  split; [|split; reflexivity].
  do 11 (destruct k as [|k];
         [cbn -[Qmin Qmax Qmult RateLimiter.update_rate Qeq_bool];
          match goal with
          | |- context [Qeq_bool ?x ?y] =>
              destruct (Qeq_bool x y) eqn:E; cbn [negb];
              [apply Qeq_bool_iff in E; symmetry; exact E | reflexivity]
          | |- _ => reflexivity
          end |]).
  lia.
Qed.

End Adaptive.

(** X6: an adaptive limiter built with [0 <= min_rate <= initial_rate <=
    max_rate] keeps, whatever successes and failures are recorded, its rate
    between [min_rate] and [max_rate], its bucket within the rate, and
    fewer than 10 observations in its window counters. *)
Theorem adaptive_rate_within_bounds
        (initial_rate min_r max_r now : Q) (obs : list bool) :
  (0 <= min_r)%Q -> (min_r <= initial_rate)%Q -> (initial_rate <= max_r)%Q ->
  let a := AdaptiveRateLimiter.observe_all
             (AdaptiveRateLimiter.init initial_rate min_r max_r now) obs in
  (min_r <= RateLimiter.rate (AdaptiveRateLimiter.base a))%Q /\
  (RateLimiter.rate (AdaptiveRateLimiter.base a) <= max_r)%Q /\
  (RateLimiter.tokens (AdaptiveRateLimiter.base a) <=
   RateLimiter.rate (AdaptiveRateLimiter.base a))%Q /\
  0 <= AdaptiveRateLimiter.success_count a /\
  0 <= AdaptiveRateLimiter.failure_count a /\
  AdaptiveRateLimiter.success_count a +
  AdaptiveRateLimiter.failure_count a < 10.
Proof.
  intros H0 H1 H2 a. subst a.
  assert (Hinit : AdaptiveRateLimiter.ok
                    (AdaptiveRateLimiter.init initial_rate min_r max_r now) /\
                  AdaptiveRateLimiter.min_rate
                    (AdaptiveRateLimiter.init initial_rate min_r max_r now)
                  = min_r /\
                  AdaptiveRateLimiter.max_rate
                    (AdaptiveRateLimiter.init initial_rate min_r max_r now)
                  = max_r).
  { unfold AdaptiveRateLimiter.ok. cbn. repeat split; auto; try lia.
    apply Qle_refl. }
  revert Hinit. unfold AdaptiveRateLimiter.observe_all.
  generalize (AdaptiveRateLimiter.init initial_rate min_r max_r now).
  induction obs as [|b obs IH]; intros a (Hok & Hmin & Hmax);
    cbn [fold_left].
  - destruct Hok as (_ & A1 & A2 & A3 & A4 & A5 & A6).
    rewrite Hmin in A1. rewrite Hmax in A2.
    unfold AdaptiveRateLimiter.adjustment_threshold in A6. auto 10.
  - destruct (observe_ok a b Hok) as (Hok' & Hmin' & Hmax').
    apply IH. split; [exact Hok' | split; congruence].
Qed.

(** X6 on a limiter between 1/10 and 10 requests per second: after twenty
    failures the rate is still 1/10 at least. *)
Lemma adaptive_rate_within_bounds_witness :
  ((1 # 10) <=
   RateLimiter.rate
     (AdaptiveRateLimiter.base
        (AdaptiveRateLimiter.observe_all
           (AdaptiveRateLimiter.init (1 # 5) (1 # 10) 10 0)
           (repeat false 20))))%Q.
Proof.
  refine (proj1 (adaptive_rate_within_bounds (1 # 5) (1 # 10) 10 0
                   (repeat false 20) _ _ _)); discriminate.
Defined.

(** X7: a limiter whose rate is not 0 decides once per window of 10
    observations, and only by the number [k] of successes in the window,
    not by their order: with 10 successes the rate becomes
    [min(max_rate, 1.2 * rate)], with 6 or fewer
    [max(min_rate, 0.8 * rate)], with 7 to 9 it stays; the counters start
    again at 0, and before the tenth observation nothing changes.  The
    rate 0 is left out: there [update_rate] divides by the old rate when
    the decided rate is positive, the call raises [ZeroDivisionError] and
    the counters are not reset. *)
Theorem adaptive_window (a : AdaptiveRateLimiter.t) (obs : list bool) :
  ~ (RateLimiter.rate (AdaptiveRateLimiter.base a) == 0)%Q ->
  AdaptiveRateLimiter.success_count a = 0 ->
  AdaptiveRateLimiter.failure_count a = 0 ->
  List.length obs = 10%nat ->
  let k := List.length (filter (fun b => b) obs) in
  let a' := AdaptiveRateLimiter.observe_all a obs in
  (RateLimiter.rate (AdaptiveRateLimiter.base a') ==
   AdaptiveRateLimiter.decided_rate a k)%Q /\
  AdaptiveRateLimiter.success_count a' = 0 /\
  AdaptiveRateLimiter.failure_count a' = 0 /\
  (forall n : nat, (n < 10)%nat ->
     AdaptiveRateLimiter.base
       (AdaptiveRateLimiter.observe_all a (firstn n obs)) =
     AdaptiveRateLimiter.base a).
Proof.
  intros _ Hs Hf Hlen k a'.
  assert (Hprefix : forall n : nat, (n < 10)%nat ->
            AdaptiveRateLimiter.observe_all a (firstn n obs) =
            AdaptiveRateLimiter.mkARL
              (AdaptiveRateLimiter.base a)
              (AdaptiveRateLimiter.min_rate a)
              (AdaptiveRateLimiter.max_rate a)
              (Z.of_nat (List.length
                           (filter (fun b => b) (firstn n obs))))
              (Z.of_nat (List.length (filter negb (firstn n obs))))).
  { intros n Hn. rewrite observe_all_below_threshold.
    - now rewrite Hs, Hf.
    - rewrite Hs, Hf, length_firstn.
      unfold AdaptiveRateLimiter.adjustment_threshold. lia. }
  split; [|split; [|split]]; try (intros n Hn; now rewrite Hprefix).
  all: subst a' k.
  all: destruct (exists_last (l := obs)) as (obs' & b & E);
    [intro E; rewrite E in Hlen; discriminate|].
  all: assert (Hlen' : List.length obs' = 9%nat)
    by (rewrite E, length_app in Hlen; cbn in Hlen; lia).
  all: assert (H9 : firstn 9 obs = obs')
    by (rewrite E, <- Hlen', firstn_app, Nat.sub_diag, firstn_all;
        cbn; apply app_nil_r).
  all: pose proof (Hprefix 9%nat ltac:(lia)) as Hp; rewrite H9 in Hp.
  all: assert (Hcount :
         (List.length (filter (fun b => b) obs') +
          List.length (filter negb obs') = 9)%nat)
    by (rewrite <- Hlen'; clear; induction obs' as [|[] l IH]; cbn; lia).
  all: rewrite E; unfold AdaptiveRateLimiter.observe_all;
    rewrite fold_left_app; cbn [fold_left];
    fold (AdaptiveRateLimiter.observe_all a obs'); rewrite Hp;
    rewrite ?filter_app, ?length_app.
  all: set (k' := List.length (filter (fun b => b) obs')) in *.
  all: set (f' := List.length (filter negb obs')) in *.
  all: assert (Hstep :
         AdaptiveRateLimiter.observe
           (AdaptiveRateLimiter.mkARL
              (AdaptiveRateLimiter.base a) (AdaptiveRateLimiter.min_rate a)
              (AdaptiveRateLimiter.max_rate a) (Z.of_nat k') (Z.of_nat f')) b
         = AdaptiveRateLimiter._check_adjustment
             (AdaptiveRateLimiter.mkARL
                (AdaptiveRateLimiter.base a) (AdaptiveRateLimiter.min_rate a)
                (AdaptiveRateLimiter.max_rate a)
                (Z.of_nat (k' + List.length (filter (fun b => b) [b])))
                (10 - Z.of_nat
                        (k' + List.length (filter (fun b => b) [b])))))
    by (destruct b; cbn [AdaptiveRateLimiter.observe filter List.length];
        unfold AdaptiveRateLimiter.record_success,
          AdaptiveRateLimiter.record_failure;
        cbn [AdaptiveRateLimiter.base AdaptiveRateLimiter.min_rate
             AdaptiveRateLimiter.max_rate AdaptiveRateLimiter.success_count
             AdaptiveRateLimiter.failure_count];
        do 2 f_equal; lia).
  all: rewrite Hstep.
  all: assert (Hk : (k' + List.length (filter (fun b => b) [b]) <= 10)%nat)
    by (destruct b; cbn; lia).
  all: destruct (check_adjustment_full
                   (AdaptiveRateLimiter.base a)
                   (AdaptiveRateLimiter.min_rate a)
                   (AdaptiveRateLimiter.max_rate a) _ Hk) as (R1 & R2 & R3).
  - exact R1.
  - exact R2.
  - exact R3.
Qed.

(** X7 on the limiter at 2 requests per second: ten successes raise the
    rate to 2.4. *)
Lemma adaptive_window_witness :
  (RateLimiter.rate
     (AdaptiveRateLimiter.base
        (AdaptiveRateLimiter.observe_all
           (AdaptiveRateLimiter.init 2 (1 # 10) 10 0) (repeat true 10))) ==
   24 # 10)%Q.
Proof.
  refine (Qeq_trans _ _ _
            (proj1 (adaptive_window
                      (AdaptiveRateLimiter.init 2 (1 # 10) 10 0)
                      (repeat true 10) _ eq_refl eq_refl eq_refl)) _).
  - discriminate.
  - reflexivity.
Defined.

(* ------------------------------------------------------------------ *)
(** * The proxy pool as a dictionary *)

Section PoolFacts.
Import ProxyManager.

Lemma map_url_update (u : string) (f : ProxyInfo -> ProxyInfo)
      (ps : list ProxyInfo) :
  (forall p, url (f p) = url p) -> map url (update u f ps) = map url ps.
Proof.
  intro Hf. unfold update. rewrite map_map. apply map_ext.
  intro p. destruct (String.eqb (url p) u); [apply Hf | reflexivity].
Qed.

Lemma mem_in (u : string) (ps : list ProxyInfo) :
  mem u ps = true <-> In u (map url ps).
Proof.
  unfold mem. rewrite existsb_exists, in_map_iff.
  split; intros (p & H1 & H2).
  - apply String.eqb_eq in H2. now exists p.
  - exists p. split; [exact H2 | now apply String.eqb_eq].
Qed.

Lemma mem_not_in (u : string) (ps : list ProxyInfo) :
  mem u ps = false <-> ~ In u (map url ps).
Proof.
  rewrite <- mem_in. destruct (mem u ps); split; congruence.
Qed.

Lemma lookup_some (u : string) (ps : list ProxyInfo) (p : ProxyInfo) :
  lookup u ps = Some p -> In p ps /\ url p = u.
Proof.
  unfold lookup. intro H. apply find_some in H.
  destruct H as [H1 H2]. now apply String.eqb_eq in H2.
Qed.

Lemma lookup_none (u : string) (ps : list ProxyInfo) :
  lookup u ps = None <-> mem u ps = false.
Proof.
  unfold lookup, mem. induction ps as [|p ps IH]; cbn; [tauto|].
  destruct (String.eqb (url p) u); cbn; [split; discriminate | exact IH].
Qed.

Lemma lookup_update (u v : string) (f : ProxyInfo -> ProxyInfo)
      (ps : list ProxyInfo) :
  (forall p, url (f p) = url p) ->
  lookup u (update v f ps) =
  if String.eqb v u then option_map f (lookup u ps) else lookup u ps.
Proof.
  intro Hf. unfold lookup, update.
  induction ps as [|p ps IH]; cbn.
  - now destruct (String.eqb v u).
  - destruct (String.eqb_spec (url p) v) as [E | E].
    + rewrite Hf. destruct (String.eqb_spec (url p) u) as [E' | E'].
      * subst. rewrite String.eqb_refl. reflexivity.
      * exact IH.
    + destruct (String.eqb_spec (url p) u) as [E' | E'].
      * destruct (String.eqb_spec v u); [congruence | reflexivity].
      * exact IH.
Qed.

Lemma lookup_app (u : string) (ps qs : list ProxyInfo) :
  lookup u (ps ++ qs) =
  match lookup u ps with
  | Some p => Some p
  | None => lookup u qs
  end.
Proof.
  unfold lookup. induction ps as [|p ps IH]; cbn; [reflexivity|].
  destruct (String.eqb (url p) u); [reflexivity | exact IH].
Qed.

Lemma lookup_remove (u v : string) (ps : list ProxyInfo) :
  lookup u (filter (fun p => negb (String.eqb (url p) v)) ps) =
  if String.eqb v u then None else lookup u ps.
Proof.
  unfold lookup. induction ps as [|p ps IH]; cbn.
  - now destruct (String.eqb v u).
  - destruct (String.eqb_spec (url p) v) as [E | E]; cbn.
    + rewrite IH. destruct (String.eqb_spec v u) as [E' | E'];
        [reflexivity|].
      destruct (String.eqb_spec (url p) u); [congruence | reflexivity].
    + destruct (String.eqb_spec (url p) u) as [E' | E'].
      * destruct (String.eqb_spec v u); [congruence | reflexivity].
      * exact IH.
Qed.

Lemma check_proxy_url (p : ProxyInfo) (r : ProbeRun) :
  url (_check_proxy p r) = url p.
Proof. unfold _check_proxy, check_end. now destruct (ok r). Qed.

Lemma wf_step (pm : t) (o : op) : wf pm -> wf (step pm o).
Proof.
  unfold wf. intro H.
  destruct o as [v ip | v | v d | v | v | v | v r | now run]; cbn [step].
  - cbn. now rewrite map_url_update.
  - cbn. now rewrite map_url_update.
  - destruct d; cbn; [now rewrite map_url_update | exact H].
  - cbn. now rewrite map_url_update.
  - unfold add_proxy. destruct (mem v (proxies pm)) eqn:E; [exact H|].
    cbn. rewrite map_app. cbn.
    apply NoDup_app_remove_l with (l := []). cbn.
    apply Permutation_NoDup with (l := v :: map url (proxies pm)).
    + apply Permutation_cons_append.
    + constructor; [now apply mem_not_in | exact H].
  - cbn. now apply NoDup_map_filter.
  - cbn. rewrite map_url_update; [exact H|].
    intro p. apply check_proxy_url.
  - cbn. rewrite map_map.
    erewrite map_ext; [exact H|]. intro p. cbn.
    destruct (Qltb _ _); [apply check_proxy_url | reflexivity].
Qed.

Lemma wf_run_ops (os : list op) (pm : t) : wf pm -> wf (run_ops pm os).
Proof.
  revert pm. induction os as [|o os IH]; intros pm H; cbn; [exact H|].
  apply IH. now apply wf_step.
Qed.

Lemma count_status_fold (ps : list ProxyInfo) (st : ProxyStats) :
  let r := fold_left count_status ps st in
  stats_total r = stats_total st /\
  stats_active r =
    stats_active st +
    Z.of_nat (List.length
                (filter (fun p => status_eqb (status p) ACTIVE) ps)) /\
  stats_failed r =
    stats_failed st +
    Z.of_nat (List.length
                (filter (fun p => status_eqb (status p) FAILED) ps)) /\
  stats_banned r =
    stats_banned st +
    Z.of_nat (List.length
                (filter (fun p => status_eqb (status p) BANNED) ps)) /\
  stats_checking r =
    stats_checking st +
    Z.of_nat (List.length
                (filter (fun p => status_eqb (status p) CHECKING) ps)) /\
  stats_active r + stats_failed r + stats_banned r + stats_checking r =
    stats_active st + stats_failed st + stats_banned st +
    stats_checking st + Z.of_nat (List.length ps).
Proof.
  revert st. induction ps as [|p ps IH]; intro st; cbn [fold_left].
  - cbn. repeat split; lia.
  - specialize (IH (count_status st p)). cbv zeta in *.
    destruct IH as (I0 & I1 & I2 & I3 & I4 & I5).
    split; [rewrite I0 | split; [rewrite I1 | split; [rewrite I2 |
      split; [rewrite I3 | split; [rewrite I4 | rewrite I5]]]]];
      clear; unfold count_status; cbn [filter];
      destruct (status p);
      cbn [status_eqb List.length stats_total stats_active stats_failed
           stats_banned stats_checking];
      lia.
Qed.

End PoolFacts.

(** X8: the counts of [get_proxy_stats] partition the pool: active, failed,
    banned and checking add up to the total, which is the number of
    proxies; the active count is the number of selectable proxies, and it
    is 0 exactly when selection returns nothing. *)
Theorem proxy_stats_partition (pm : ProxyManager.t) :
  let st := ProxyManager.get_proxy_stats pm in
  ProxyManager.stats_total st =
    Z.of_nat (List.length (ProxyManager.proxies pm)) /\
  ProxyManager.stats_active st + ProxyManager.stats_failed st +
  ProxyManager.stats_banned st + ProxyManager.stats_checking st =
    ProxyManager.stats_total st /\
  ProxyManager.stats_active st =
    Z.of_nat (List.length (ProxyManager.active_proxies pm)) /\
  0 <= ProxyManager.stats_failed st /\
  0 <= ProxyManager.stats_banned st /\
  0 <= ProxyManager.stats_checking st /\
  (ProxyManager.stats_active st = 0 <->
   forall r : nat, ProxyManager.get_active_proxy pm r = None).
Proof.
  intro st. subst st. unfold ProxyManager.get_proxy_stats.
  destruct (count_status_fold (ProxyManager.proxies pm)
              (ProxyManager.mkPStats
                 (Z.of_nat (List.length (ProxyManager.proxies pm)))
                 0 0 0 0))
    as (I0 & I1 & I2 & I3 & I4 & I5).
  cbn [ProxyManager.stats_total ProxyManager.stats_active
       ProxyManager.stats_failed ProxyManager.stats_banned
       ProxyManager.stats_checking] in *.
  rewrite I0. split; [reflexivity|]. split; [lia|].
  split; [rewrite I1; reflexivity|].
  split; [lia|]. split; [lia|]. split; [lia|].
  rewrite I1. fold (ProxyManager.active_proxies pm). split.
  - intros H r. unfold ProxyManager.get_active_proxy.
    destruct (ProxyManager.active_proxies pm); [reflexivity|].
    cbn in H. lia.
  - intro H. destruct (ProxyManager.active_proxies pm) as [|p l] eqn:E;
      [reflexivity|].
    exfalso.
    assert (Hne : ProxyManager.active_proxies pm <> []) by congruence.
    pose proof (top_proxies_length pm Hne) as Hl.
    assert (Hn : (0 < List.length (ProxyManager.active_proxies pm))%nat)
      by (rewrite E; cbn; lia).
    pose proof (kept_count_bounds _ Hn) as Hk.
    specialize (H 0%nat).
    destruct (nth_error (ProxyManager.top_proxies pm) 0) as [q|] eqn:Eq.
    + assert (ProxyManager.get_active_proxy pm 0 =
              Some (ProxyManager.url q))
        by (apply get_active_proxy_some; now exists q).
      congruence.
    + apply nth_error_None in Eq. lia.
Qed.

Section PoolInit.
Import ProxyManager.

Lemma lookup_dict_set_fresh (u : string) (ps : list ProxyInfo) :
  Forall (fun p => p = new_proxy (url p)) ps ->
  dict_set u ps = if mem u ps then ps else ps ++ [new_proxy u].
Proof.
  intro Hall. unfold dict_set. destruct (mem u ps); [|reflexivity].
  unfold update. transitivity (map (fun p : ProxyInfo => p) ps);
    [|apply map_id].
  apply map_ext_in. intros p Hp.
  destruct (String.eqb_spec (url p) u) as [E | E]; [|reflexivity].
  rewrite Forall_forall in Hall. subst u. symmetry. now apply Hall.
Qed.

Lemma init_fold (urls : list string) (ps : list ProxyInfo) :
  Forall (fun p => p = new_proxy (url p)) ps ->
  NoDup (map url ps) ->
  let qs := fold_left (fun d u => dict_set u d) urls ps in
  Forall (fun p => p = new_proxy (url p)) qs /\
  NoDup (map url qs) /\
  (forall u, In u (map url qs) <-> In u (map url ps) \/ In u urls).
Proof.
  revert ps. induction urls as [|v urls IH]; intros ps Hall Hnd;
    cbn [fold_left].
  - cbn. repeat split; auto. tauto.
  - rewrite lookup_dict_set_fresh by exact Hall.
    destruct (mem v ps) eqn:E.
    + destruct (IH ps Hall Hnd) as (H1 & H2 & H3).
      split; [exact H1|]. split; [exact H2|].
      intro u. rewrite H3. apply mem_in in E. cbn.
      split; [tauto|]. intros [H | [<- | H]]; tauto.
    + assert (Hall' : Forall (fun p => p = new_proxy (url p))
                             (ps ++ [new_proxy v])).
      { apply Forall_app. split; [exact Hall|]. now constructor. }
      assert (Hnd' : NoDup (map url (ps ++ [new_proxy v]))).
      { rewrite map_app. cbn.
        apply Permutation_NoDup with (l := v :: map url ps).
        - apply Permutation_cons_append.
        - constructor; [now apply mem_not_in | exact Hnd]. }
      destruct (IH _ Hall' Hnd') as (H1 & H2 & H3).
      split; [exact H1|]. split; [exact H2|].
      intro u. rewrite H3, map_app, in_app_iff. cbn. tauto.
Qed.

End PoolInit.

(** X9: [ProxyManager(proxies)] holds one record per distinct URL of the
    list, each one a fresh ACTIVE [ProxyInfo] with zero counters, and no
    record for any other URL; its statistics count every one of them as
    active. *)
Theorem init_pool (urls : list string) (interval : Z) :
  let pm := ProxyManager.init urls interval in
  ProxyManager.wf pm /\
  (forall u, In u urls ->
     ProxyManager.lookup u (ProxyManager.proxies pm) =
     Some (ProxyManager.new_proxy u)) /\
  (forall u, ~ In u urls ->
     ProxyManager.lookup u (ProxyManager.proxies pm) = None) /\
  List.length (ProxyManager.proxies pm) =
    List.length (nodup string_dec urls) /\
  ProxyManager.stats_active (ProxyManager.get_proxy_stats pm) =
    Z.of_nat (List.length (nodup string_dec urls)) /\
  ProxyManager.banned_ips pm = [].
Proof.
  intro pm. subst pm. unfold ProxyManager.init.
  destruct (init_fold urls [] (Forall_nil _) (NoDup_nil _))
    as (Hall & Hnd & Hin).
  cbv zeta in *. cbn [ProxyManager.proxies ProxyManager.banned_ips].
  set (qs := fold_left (fun d u => ProxyManager.dict_set u d) urls []) in *.
  assert (Hlen : List.length qs = List.length (nodup string_dec urls)).
  { rewrite <- (length_map ProxyManager.url qs).
    apply Permutation_length. apply NoDup_Permutation.
    - exact Hnd.
    - apply NoDup_nodup.
    - intro u. rewrite Hin, nodup_In. cbn. tauto. }
  split; [exact Hnd|]. split; [|split; [|split; [exact Hlen|split]]].
  - intros u Hu.
    destruct (ProxyManager.lookup u qs) as [p|] eqn:E.
    + apply lookup_some in E. destruct E as [Hp Hpu].
      rewrite Forall_forall in Hall. rewrite (Hall p Hp). now rewrite Hpu.
    + apply lookup_none, mem_not_in in E. elim E. apply Hin. now right.
  - intros u Hu. apply lookup_none, mem_not_in. rewrite Hin. cbn. tauto.
  - destruct (proxy_stats_partition
                (ProxyManager.mkPM qs interval [])) as (_ & _ & Ha & _).
    cbv zeta in Ha. rewrite Ha. rewrite <- Hlen. f_equal. f_equal.
    unfold ProxyManager.active_proxies. cbn [ProxyManager.proxies].
    rewrite Forall_forall in Hall.
    clear -Hall. induction qs as [|p qs IH]; [reflexivity|].
    cbn [filter].
    assert (Hp : ProxyManager.status p = ProxyManager.ACTIVE)
      by (rewrite (Hall p (or_introl eq_refl)); reflexivity).
    rewrite Hp. cbn. f_equal. apply IH. intros q Hq. apply Hall. now right.
  - reflexivity.
Qed.

(** X10: [add_proxy] on a URL already in the pool changes nothing, so a
    banned proxy stays banned; on a new URL it stores a fresh ACTIVE
    record.  [remove_proxy] drops the record, and adding the URL again
    afterwards gives a fresh ACTIVE record whatever the proxy's state was.
    Neither touches the record of any other URL, and the keys stay
    distinct. *)
Theorem add_remove_lookup (pm : ProxyManager.t) (u : string) :
  ProxyManager.wf pm ->
  (ProxyManager.mem u (ProxyManager.proxies pm) = true ->
   ProxyManager.add_proxy pm u = pm) /\
  (ProxyManager.mem u (ProxyManager.proxies pm) = false ->
   ProxyManager.lookup u
     (ProxyManager.proxies (ProxyManager.add_proxy pm u)) =
   Some (ProxyManager.new_proxy u)) /\
  ProxyManager.lookup u
    (ProxyManager.proxies (ProxyManager.remove_proxy pm u)) = None /\
  ProxyManager.lookup u
    (ProxyManager.proxies
       (ProxyManager.add_proxy (ProxyManager.remove_proxy pm u) u)) =
  Some (ProxyManager.new_proxy u) /\
  (forall v, v <> u ->
     ProxyManager.lookup v
       (ProxyManager.proxies (ProxyManager.add_proxy pm u)) =
     ProxyManager.lookup v (ProxyManager.proxies pm) /\
     ProxyManager.lookup v
       (ProxyManager.proxies (ProxyManager.remove_proxy pm u)) =
     ProxyManager.lookup v (ProxyManager.proxies pm)) /\
  ProxyManager.wf (ProxyManager.add_proxy pm u) /\
  ProxyManager.wf (ProxyManager.remove_proxy pm u).
Proof.
  intro Hwf.
  assert (Hadd : forall pm0,
            ProxyManager.mem u (ProxyManager.proxies pm0) = false ->
            ProxyManager.lookup u
              (ProxyManager.proxies (ProxyManager.add_proxy pm0 u)) =
            Some (ProxyManager.new_proxy u)).
  { intros pm0 H. unfold ProxyManager.add_proxy. rewrite H.
    unfold ProxyManager.set_proxies. cbn [ProxyManager.proxies].
    rewrite lookup_app. apply lookup_none in H. rewrite H.
    unfold ProxyManager.lookup. cbn. now rewrite String.eqb_refl. }
  assert (Hrem : ProxyManager.lookup u
                   (ProxyManager.proxies (ProxyManager.remove_proxy pm u))
                 = None).
  { unfold ProxyManager.remove_proxy, ProxyManager.set_proxies.
    cbn [ProxyManager.proxies].
    rewrite lookup_remove. now rewrite String.eqb_refl. }
  split; [|split; [|split; [|split; [|split; [|split]]]]].
  - intro H. unfold ProxyManager.add_proxy. now rewrite H.
  - apply Hadd.
  - exact Hrem.
  - apply Hadd. now apply lookup_none.
  - intros v Hv. split.
    + unfold ProxyManager.add_proxy.
      destruct (ProxyManager.mem u (ProxyManager.proxies pm));
        [reflexivity|].
      unfold ProxyManager.set_proxies. cbn [ProxyManager.proxies].
      rewrite lookup_app.
      destruct (ProxyManager.lookup v (ProxyManager.proxies pm));
        [reflexivity|].
      unfold ProxyManager.lookup. cbn.
      destruct (String.eqb_spec u v); [congruence | reflexivity].
    + unfold ProxyManager.remove_proxy, ProxyManager.set_proxies.
      cbn [ProxyManager.proxies]. rewrite lookup_remove.
      destruct (String.eqb_spec u v); [congruence | reflexivity].
  - exact (wf_step pm (ProxyManager.AddProxy u) Hwf).
  - exact (wf_step pm (ProxyManager.RemoveProxy u) Hwf).
Qed.

(** X10 on the pool with one banned proxy: removed and added again, the
    proxy is a fresh ACTIVE record. *)
Lemma add_remove_lookup_witness :
  ProxyManager.lookup "http://10.0.0.1:8080"
    (ProxyManager.proxies
       (ProxyManager.add_proxy
          (ProxyManager.remove_proxy ProxyManager.pool_banned
                                     "http://10.0.0.1:8080")
          "http://10.0.0.1:8080")) =
  Some (ProxyManager.new_proxy "http://10.0.0.1:8080").
Proof.
  refine (proj1 (proj2 (proj2 (proj2
            (add_remove_lookup ProxyManager.pool_banned
                               "http://10.0.0.1:8080" _))))).
  unfold ProxyManager.wf. cbn. repeat constructor. cbn. tauto.
Defined.

Section BanDetection.
Import ProxyManager.

Lemma status_of_banned (pm : t) (u : string) (ip : option string) :
  mem u (proxies pm) = true ->
  status_of (mark_proxy_banned pm u ip) u = Some BANNED.
Proof.
  intro H. unfold status_of, mark_proxy_banned. cbn [proxies].
  rewrite lookup_update by reflexivity. rewrite String.eqb_refl.
  destruct (lookup u (proxies pm)) eqn:E; [reflexivity|].
  apply lookup_none in E. congruence.
Qed.

End BanDetection.

(** X11: [detect_ip_ban] answers [true] for the status codes 403, 429 and
    503 whatever the body, and for any body whose lower-cased form holds
    one of the block-page phrases; with an empty body it answers [true]
    for those three codes only.  When it answers [true],
    [handle_ip_ban_detection] leaves a proxy of the pool BANNED and out of
    selection; when it answers [false] the pool is unchanged. *)
Theorem ban_detection (pm : ProxyManager.t) (u text : string) (code : Z) :
  ProxyManager.wf pm ->
  ProxyManager.mem u (ProxyManager.proxies pm) = true ->
  let pm' := ProxyManager.handle_ip_ban pm u text code in
  (code = 403 \/ code = 429 \/ code = 503 ->
   ProxyManager.detect_ip_ban text code = true) /\
  ((exists ind, In ind ProxyManager.ban_indicators /\
                Py.Contains ind (Py.lower text)) ->
   ProxyManager.detect_ip_ban text code = true) /\
  (ProxyManager.detect_ip_ban EmptyString code = true <->
   code = 403 \/ code = 429 \/ code = 503) /\
  (ProxyManager.detect_ip_ban text code = true ->
   ProxyManager.status_of pm' u = Some ProxyManager.BANNED /\
   forall r : nat, ProxyManager.get_active_proxy pm' r <> Some u) /\
  (ProxyManager.detect_ip_ban text code = false -> pm' = pm).
Proof.
  intros Hwf Hmem pm'. subst pm'.
  assert (Hcode : forall c, existsb (Z.eqb c) [403; 429; 503] = true <->
                            c = 403 \/ c = 429 \/ c = 503).
  { intro c. cbn. rewrite !orb_true_iff, !Z.eqb_eq. intuition discriminate. }
  split; [|split; [|split; [|split]]].
  - intro H. unfold ProxyManager.detect_ip_ban.
    apply Hcode in H. now rewrite H.
  - intros (ind & Hin & Hc). unfold ProxyManager.detect_ip_ban.
    destruct (existsb (Z.eqb code) [403; 429; 503]); [reflexivity|].
    destruct (String.eqb_spec text EmptyString) as [E | E]; cbn [negb].
    + subst text. cbn in Hc. destruct Hc as (pre & post & Hc).
      exfalso. cbn in Hin.
      destruct pre; cbn in Hc;
        repeat (destruct Hin as [<- | Hin]; [discriminate Hc|]);
        exact Hin.
    + apply any_in_spec. now exists ind.
  - unfold ProxyManager.detect_ip_ban. rewrite String.eqb_refl. cbn [negb].
    rewrite <- Hcode.
    destruct (existsb (Z.eqb code) [403; 429; 503]); split; congruence.
  - intro Hd. unfold ProxyManager.handle_ip_ban. rewrite Hd.
    cbn [ProxyManager.handle_ip_ban_detection].
    pose proof (status_of_banned pm u None Hmem) as Hst.
    split; [exact Hst|]. intro r.
    apply quarantined_not_selected. apply banned_quarantined; [|exact Hst].
    exact (wf_step pm (ProxyManager.MarkBanned u None) Hwf).
  - intro Hd. unfold ProxyManager.handle_ip_ban. now rewrite Hd.
Qed.

(** X11 on the pool of three: an answer 200 with a captcha page through
    the first proxy takes that proxy out of selection. *)
Lemma ban_detection_witness :
  ProxyManager.get_active_proxy
    (ProxyManager.handle_ip_ban ProxyManager.pool3 "http://10.0.0.1:8080"
       "<html>Please solve the CAPTCHA</html>" 200) 0 <>
  Some "http://10.0.0.1:8080"%string.
Proof.
  refine (proj2 (proj1 (proj2 (proj2 (proj2
            (ban_detection ProxyManager.pool3 "http://10.0.0.1:8080"
               "<html>Please solve the CAPTCHA</html>" 200 _ _))))
            eq_refl) 0%nat).
  - unfold ProxyManager.wf. cbn.
    repeat constructor; cbn; intuition discriminate.
  - reflexivity.
Defined.

Section BestProxy.
Import ProxyManager.

Lemma py_argmax_spec {A : Type} (f : A -> Q) (rest : list A) (p0 : A) :
  In (py_argmax f p0 rest) (p0 :: rest) /\
  (forall q, In q (p0 :: rest) -> (f q <= f (py_argmax f p0 rest))%Q).
Proof.
  unfold py_argmax. revert p0.
  induction rest as [|x rest IH]; intro p0; cbn [fold_left].
  - split; [now left|]. intros q [<- | []]. apply Qle_refl.
  - destruct (Qltb (f p0) (f x)) eqn:E.
    + destruct (IH x) as [H1 H2]. split.
      * right. exact H1.
      * intros q [<- | Hq]; [|now apply H2].
        apply Qltb_true in E.
        eapply Qle_trans; [apply Qlt_le_weak; exact E|].
        apply H2. now left.
    + destruct (IH p0) as [H1 H2]. split.
      * destruct H1 as [H1 | H1]; [now left | right; now right].
      * intros q [<- | [<- | Hq]].
        -- apply H2. now left.
        -- apply Qltb_false in E.
           eapply Qle_trans; [exact E|]. apply H2. now left.
        -- apply H2. now right.
Qed.

End BestProxy.

(** X12: [get_best_proxy] returns nothing exactly when no proxy is ACTIVE;
    otherwise it returns the URL of an ACTIVE proxy whose score
    [0.7 * success_rate + 0.3 * (1 - response_time / max_response_time)]
    is the largest among the ACTIVE proxies; a proxy that is BANNED, FAILED
    or being checked is never returned. *)
Theorem get_best_proxy_spec (pm : ProxyManager.t) :
  (ProxyManager.get_best_proxy pm = None <->
   ProxyManager.active_proxies pm = []) /\
  (forall u, ProxyManager.get_best_proxy pm = Some u ->
     exists p, In p (ProxyManager.proxies pm) /\
               ProxyManager.status p = ProxyManager.ACTIVE /\
               ProxyManager.url p = u /\
               forall q, In q (ProxyManager.proxies pm) ->
                 ProxyManager.status q = ProxyManager.ACTIVE ->
                 (ProxyManager.score_in pm q <=
                  ProxyManager.score_in pm p)%Q).
Proof.
  unfold ProxyManager.get_best_proxy, ProxyManager.score_in.
  assert (Hact : forall p, In p (ProxyManager.active_proxies pm) <->
                   In p (ProxyManager.proxies pm) /\
                   ProxyManager.status p = ProxyManager.ACTIVE).
  { intro p. unfold ProxyManager.active_proxies. rewrite filter_In.
    destruct (ProxyManager.status p); cbn; intuition discriminate. }
  destruct (ProxyManager.active_proxies pm) as [|p0 rest] eqn:E.
  - split; [tauto | discriminate].
  - split; [split; discriminate|].
    intros u H. injection H as H.
    destruct (py_argmax_spec
                (ProxyManager.score
                   (ProxyManager.max_response_time p0 rest)) rest p0)
      as [H1 H2].
    exists (ProxyManager.py_argmax
              (ProxyManager.score
                 (ProxyManager.max_response_time p0 rest)) p0 rest).
    apply Hact in H1. destruct H1 as [H1a H1b].
    repeat split; auto.
    intros q Hq Hs. apply H2. apply Hact. now split.
Qed.

(** X12 on the pool with one banned proxy: nothing is returned. *)
Lemma get_best_proxy_spec_witness :
  ProxyManager.get_best_proxy ProxyManager.pool_banned = None.
Proof.
  exact (proj2 (proj1 (get_best_proxy_spec ProxyManager.pool_banned))
               eq_refl).
Defined.

Section ProbeRuns.
Import ProxyManager.

Lemma failed_probes_count (rs : list ProbeRun) (p : ProxyInfo) :
  Forall (fun r => ok r = false) rs ->
  failure_count (fold_left _check_proxy rs p) =
    failure_count p + Z.of_nat (List.length rs) /\
  success_count (fold_left _check_proxy rs p) = success_count p /\
  (rs <> [] ->
   status (fold_left _check_proxy rs p) =
   if failure_count p + Z.of_nat (List.length rs) >=? 3
   then FAILED else ACTIVE).
Proof.
  intro H. revert p. induction H as [|r rs Hr Hrs IH]; intro p.
  - cbn. repeat split; try lia. congruence.
  - cbn [fold_left List.length].
    destruct (IH (_check_proxy p r)) as (I1 & I2 & I3).
    assert (Hf : failure_count (_check_proxy p r) = failure_count p + 1).
    { unfold _check_proxy, check_end. rewrite Hr. reflexivity. }
    assert (Hs : success_count (_check_proxy p r) = success_count p).
    { unfold _check_proxy, check_end. rewrite Hr. reflexivity. }
    assert (Hst : status (_check_proxy p r) =
                  if failure_count p + 1 >=? 3 then FAILED else ACTIVE).
    { unfold _check_proxy, check_end. rewrite Hr. reflexivity. }
    rewrite I1, I2, Hf, Hs. split; [lia|]. split; [reflexivity|].
    intros _. destruct rs as [|r' rs'].
    + cbn [fold_left List.length]. rewrite Hst. reflexivity.
    + rewrite I3 by discriminate. rewrite Hf.
      replace (failure_count p + 1 + Z.of_nat (List.length (r' :: rs')))
        with (failure_count p + Z.of_nat (S (List.length (r' :: rs'))))
        by lia.
      reflexivity.
Qed.

End ProbeRuns.

(** X13: after a run of failed probes the status of a proxy depends on
    its failure count alone, whatever it was before: FAILED once the count
    has reached 3, ACTIVE below.  So a proxy without counted failures is
    ACTIVE after one or two failed probes and FAILED from the third on, and
    one successful probe then makes it ACTIVE again with a count of 0. *)
Theorem failed_probes_then_success
        (p : ProxyManager.ProxyInfo) (rs : list ProxyManager.ProbeRun)
        (r : ProxyManager.ProbeRun) :
  Forall (fun r => ProxyManager.ok r = false) rs -> rs <> [] ->
  ProxyManager.ok r = true ->
  let p' := fold_left ProxyManager._check_proxy rs p in
  ProxyManager.failure_count p' =
    ProxyManager.failure_count p + Z.of_nat (List.length rs) /\
  ProxyManager.status p' =
    (if ProxyManager.failure_count p' >=? 3
     then ProxyManager.FAILED else ProxyManager.ACTIVE) /\
  (ProxyManager.failure_count p = 0 ->
   (ProxyManager.status p' = ProxyManager.FAILED <->
    (3 <= List.length rs)%nat)) /\
  ProxyManager.status (ProxyManager._check_proxy p' r) =
    ProxyManager.ACTIVE /\
  ProxyManager.failure_count (ProxyManager._check_proxy p' r) = 0.
Proof.
  intros Hrs Hne Hr p'. subst p'.
  destruct (failed_probes_count rs p Hrs) as (H1 & _ & H3).
  specialize (H3 Hne). rewrite H1, H3.
  split; [reflexivity|]. split; [reflexivity|]. split; [|split].
  - intro H0. rewrite H0.
    destruct (Z.geb_spec (0 + Z.of_nat (List.length rs)) 3);
      split; try discriminate; try reflexivity; lia.
  - unfold ProxyManager._check_proxy, ProxyManager.check_end.
    now rewrite Hr.
  - unfold ProxyManager._check_proxy, ProxyManager.check_end.
    now rewrite Hr.
Qed.

(** X13 on a banned proxy: three failed probes make it FAILED. *)
Lemma failed_probes_then_success_witness :
  ProxyManager.status
    (fold_left ProxyManager._check_proxy
       (repeat (ProxyManager.probe_failed 1000) 3)
       (ProxyManager.banned
          (ProxyManager.new_proxy "http://10.0.0.1:8080"))) =
  ProxyManager.FAILED.
Proof.
  refine (proj2 (proj1 (proj2 (proj2
            (failed_probes_then_success
               (ProxyManager.banned
                  (ProxyManager.new_proxy "http://10.0.0.1:8080"))
               (repeat (ProxyManager.probe_failed 1000) 3)
               (ProxyManager.probe_ok 2000) _ _ eq_refl))) eq_refl) _).
  - repeat constructor.
  - discriminate.
  - cbn. lia.
Defined.

(** X14: a health-check pass at the instant [now] probes exactly the
    proxies whose last check is more than [check_interval] old and leaves
    the others as they are; it keeps the URLs and their order, leaves every
    probed proxy ACTIVE or FAILED with [last_check] set by the probe, and,
    the interval being non-negative and the probes reading the clock no
    earlier than [now], leaves no proxy due: a second pass at the same
    instant changes nothing. *)
Theorem check_all_proxies_pass
        (pm : ProxyManager.t) (now : Q)
        (run : string -> ProxyManager.ProbeRun) :
  0 <= ProxyManager.check_interval pm ->
  (forall u, (now <= ProxyManager.t_check (run u))%Q) ->
  let pm' := ProxyManager._check_all_proxies pm now run in
  map ProxyManager.url (ProxyManager.proxies pm') =
    map ProxyManager.url (ProxyManager.proxies pm) /\
  (forall p, In p (ProxyManager.proxies pm) ->
     ProxyManager.due pm now p = false ->
     In p (ProxyManager.proxies pm')) /\
  (forall p, In p (ProxyManager.proxies pm) ->
     ProxyManager.due pm now p = true ->
     exists p', In p' (ProxyManager.proxies pm') /\
       ProxyManager.url p' = ProxyManager.url p /\
       ProxyManager.last_check p' =
         ProxyManager.t_check (run (ProxyManager.url p)) /\
       (ProxyManager.status p' = ProxyManager.ACTIVE \/
        ProxyManager.status p' = ProxyManager.FAILED)) /\
  (forall p', In p' (ProxyManager.proxies pm') ->
     ProxyManager.due pm' now p' = false) /\
  (forall run', ProxyManager._check_all_proxies pm' now run' = pm').
Proof.
  intros Hint Hrun pm'.
  assert (Hnotdue : forall p', In p' (ProxyManager.proxies pm') ->
                      ProxyManager.due pm' now p' = false).
  { intros p' Hp. subst pm'. cbn in Hp. apply in_map_iff in Hp.
    destruct Hp as (p & Hp & Hin). unfold ProxyManager.due.
    cbn [ProxyManager._check_all_proxies ProxyManager.set_proxies
         ProxyManager.check_interval].
    destruct (Qltb (inject_Z (ProxyManager.check_interval pm))
                   (now - ProxyManager.last_check p)) eqn:E.
    - subst p'. apply Qltb_false.
      assert (Hl : ProxyManager.last_check
                     (ProxyManager._check_proxy p
                        (run (ProxyManager.url p))) =
                   ProxyManager.t_check (run (ProxyManager.url p))).
      { unfold ProxyManager._check_proxy, ProxyManager.check_end.
        now destruct (ProxyManager.ok _). }
      rewrite Hl. specialize (Hrun (ProxyManager.url p)).
      assert (0 <= inject_Z (ProxyManager.check_interval pm))%Q.
      { change 0%Q with (inject_Z 0). now rewrite <- Zle_Qle. }
      lra.
    - subst p'. exact E. }
  split; [|split; [|split; [|split]]].
  - subst pm'. cbn. rewrite map_map. apply map_ext. intro p.
    destruct (Qltb _ _); [apply check_proxy_url | reflexivity].
  - intros p Hp Hd. subst pm'. cbn. apply in_map_iff. exists p.
    unfold ProxyManager.due in Hd. rewrite Hd. now split.
  - intros p Hp Hd. subst pm'.
    exists (ProxyManager._check_proxy p (run (ProxyManager.url p))).
    split.
    + cbn. apply in_map_iff. exists p.
      unfold ProxyManager.due in Hd. rewrite Hd. now split.
    + split; [apply check_proxy_url|].
      unfold ProxyManager._check_proxy, ProxyManager.check_end.
      destruct (ProxyManager.ok _); cbn; [tauto|].
      destruct (_ >=? 3); tauto.
  - exact Hnotdue.
  - intro run'. unfold ProxyManager._check_all_proxies at 1.
    unfold ProxyManager.set_proxies.
    replace (map _ (ProxyManager.proxies pm')) with
      (ProxyManager.proxies pm').
    + now destruct pm'.
    + rewrite <- (map_id (ProxyManager.proxies pm')) at 1.
      apply map_ext_in. intros p' Hp. specialize (Hnotdue p' Hp).
      unfold ProxyManager.due in Hnotdue. now rewrite Hnotdue.
Qed.

(** X14 on the pool with one banned proxy, checked at the instant 1000. *)
Lemma check_all_proxies_pass_witness :
  let pm' := ProxyManager._check_all_proxies ProxyManager.pool_banned 1000
               (fun _ => ProxyManager.probe_ok 1000) in
  ProxyManager._check_all_proxies pm' 1000
    (fun _ => ProxyManager.probe_failed 1000) = pm'.
Proof.
  refine (proj2 (proj2 (proj2 (proj2
            (check_all_proxies_pass ProxyManager.pool_banned 1000
               (fun _ => ProxyManager.probe_ok 1000) _ _)))) _).
  - discriminate.
  - intros _. discriminate.
Defined.

(* ------------------------------------------------------------------ *)
(** * The relay pool's registry *)

Section Registry.
Import ThirdPartyParser.

Lemma get_parser_by_name_some (ps : list ParserInterface) (n : string)
      (p : ParserInterface) :
  get_parser_by_name ps n = Some p -> In p ps /\ name p = n.
Proof.
  unfold get_parser_by_name. intro H. apply find_some in H.
  destruct H as [H1 H2]. now apply String.eqb_eq in H2.
Qed.

Lemma get_parser_by_name_none (ps : list ParserInterface) (n : string) :
  get_parser_by_name ps n = None <-> ~ In n (map name ps).
Proof.
  unfold get_parser_by_name. induction ps as [|p ps IH]; cbn; [tauto|].
  destruct (String.eqb_spec (name p) n) as [E | E].
  - split; [discriminate | tauto].
  - rewrite IH. tauto.
Qed.

Lemma names_update_first (n : string)
      (f : ParserInterface -> ParserInterface) (ps : list ParserInterface) :
  (forall p, name (f p) = name p) ->
  map name (update_first n f ps) = map name ps.
Proof.
  intro Hf. induction ps as [|p ps IH]; cbn; [reflexivity|].
  destruct (String.eqb (name p) n); cbn; [now rewrite Hf | now rewrite IH].
Qed.

Lemma Forall_update_first (P : ParserInterface -> Prop) (n : string)
      (f : ParserInterface -> ParserInterface) (ps : list ParserInterface) :
  (forall p, P p -> P (f p)) -> Forall P ps ->
  Forall P (update_first n f ps).
Proof.
  intros Hf H. induction H as [|p ps Hp Hps IH]; cbn; [constructor|].
  destruct (String.eqb (name p) n); constructor; auto.
Qed.

Lemma In_remove_first (n : string) (ps : list ParserInterface)
      (p : ParserInterface) :
  In p (remove_first n ps) -> In p ps.
Proof.
  induction ps as [|q ps IH]; cbn; [tauto|].
  destruct (String.eqb (name q) n); cbn; [tauto|].
  intros [H | H]; [now left | right; auto].
Qed.

Lemma names_remove_first (n : string) (ps : list ParserInterface) :
  NoDup (map name ps) ->
  NoDup (map name (remove_first n ps)) /\
  ~ In n (map name (remove_first n ps)) /\
  (forall m, m <> n ->
     get_parser_by_name (remove_first n ps) m = get_parser_by_name ps m).
Proof.
  unfold get_parser_by_name.
  induction ps as [|q ps IH]; cbn; intro H.
  - repeat split; [constructor | tauto].
  - inversion H as [|? ? Hq Hps]; subst.
    destruct (IH Hps) as (I1 & I2 & I3).
    destruct (String.eqb_spec (name q) n) as [E | E]; cbn.
    + subst n. split; [exact Hps|]. split; [exact Hq|].
      intros m Hm. destruct (String.eqb_spec (name q) m);
        [congruence | reflexivity].
    + split.
      * constructor; [|exact I1]. intro Hin. apply Hq.
        apply in_map_iff in Hin. destruct Hin as (p & Hp & Hin).
        apply in_map_iff. exists p. split; [exact Hp|].
        now apply In_remove_first in Hin.
      * split; [tauto|]. intros m Hm.
        destruct (String.eqb (name q) m); [reflexivity | now apply I3].
Qed.

Lemma get_update_first (n m : string)
      (f : ParserInterface -> ParserInterface) (ps : list ParserInterface) :
  (forall p, name (f p) = name p) ->
  get_parser_by_name (update_first n f ps) m =
  if String.eqb n m then option_map f (get_parser_by_name ps m)
  else get_parser_by_name ps m.
Proof.
  intro Hf. unfold get_parser_by_name.
  induction ps as [|p ps IH]; cbn.
  - now destruct (String.eqb n m).
  - destruct (String.eqb_spec (name p) n) as [E | E]; cbn.
    + rewrite Hf. subst n.
      destruct (String.eqb_spec (name p) m); reflexivity.
    + destruct (String.eqb_spec (name p) m) as [E' | E'].
      * destruct (String.eqb_spec n m); [congruence | reflexivity].
      * exact IH.
Qed.

Lemma validate_config_true (n t r : string) (en : option bool) :
  _validate_parser_config (mkCfg (Some n) (Some t) (Some r) en) = true <->
  Py.Contains "{url}" t /\ (r = "json"%string \/ r = "html"%string).
Proof.
  unfold _validate_parser_config.
  cbn [cfg_name cfg_url_template cfg_response_type get_default].
  rewrite <- contains_spec.
  destruct (Py.contains "{url}" t); cbn [negb].
  - cbn [existsb]. rewrite orb_false_r.
    destruct (String.eqb_spec r "json") as [E1 | E1];
      destruct (String.eqb_spec r "html") as [E2 | E2]; cbn;
      intuition congruence.
  - intuition discriminate.
Qed.

Lemma validate_config_fields (d : ParserConfig) :
  _validate_parser_config d = true ->
  exists n t,
    cfg_name d = Some n /\ cfg_url_template d = Some t /\
    Py.Contains "{url}" t /\
    (get_default (cfg_response_type d) "html"%string = "json"%string \/
     get_default (cfg_response_type d) "html"%string = "html"%string).
Proof.
  destruct d as [[n|] [t|] r en]; unfold _validate_parser_config;
    cbn [cfg_name cfg_url_template cfg_response_type];
    try discriminate.
  intro H. exists n, t. split; [reflexivity|]. split; [reflexivity|].
  apply (validate_config_true n t (get_default r "html"%string) en).
  unfold _validate_parser_config.
  cbn [cfg_name cfg_url_template cfg_response_type get_default].
  exact H.
Qed.

Lemma is_str_true (s : string) (v : JValue) :
  is_str s v = true <-> v = JString s.
Proof.
  destruct v; cbn; try (split; [discriminate | congruence]).
  rewrite String.eqb_eq. split; congruence.
Qed.

Lemma has_key_spec (items : list (string * JValue)) (key : string) :
  existsb (fun kv => String.eqb (fst kv) key) items = true <->
  In key (map fst items).
Proof.
  rewrite existsb_exists, in_map_iff. split.
  - intros (kv & Hin & E). apply String.eqb_eq in E. now exists kv.
  - intros (kv & E & Hin). exists kv. split; [exact Hin|].
    now apply String.eqb_eq.
Qed.

Lemma has_str_spec (items : list JValue) (s : string) :
  existsb (is_str s) items = true <-> In (JString s) items.
Proof.
  rewrite existsb_exists. split.
  - intros (v & Hin & E). apply is_str_true in E. now subst v.
  - intro Hin. exists (JString s). split; [exact Hin|].
    now apply is_str_true.
Qed.

Lemma py_in_placeholder (v : JValue) :
  py_in "{url}" v = Some true <-> holds_placeholder v.
Proof.
  destruct v as [| b | q | s | items | items];
    cbn [py_in holds_placeholder];
    try (split; [discriminate | contradiction]).
  - rewrite <- contains_spec. split; congruence.
  - rewrite <- has_str_spec. split; congruence.
  - rewrite <- has_key_spec. split; congruence.
Qed.

Lemma response_type_accepted (o : option JValue) :
  negb (existsb (fun s => is_str s (get_default o (JString "html")))
                ["json"; "html"]%string) = false <->
  o = None \/ o = Some (JString "json") \/ o = Some (JString "html").
Proof.
  rewrite negb_false_iff. cbn [existsb]. rewrite orb_false_r, orb_true_iff.
  rewrite !is_str_true.
  destruct o as [v|]; cbn [get_default].
  - split.
    + intros [-> | ->]; auto.
    + intros [H | [H | H]]; [discriminate | |]; injection H as ->; auto.
  - split; [auto|]. intros _. now right.
Qed.

Lemma validate_any_accepted (v : JValue) :
  _validate_parser_config_any v = Some true <-> accepted_entry v.
Proof.
  unfold _validate_parser_config_any, accepted_entry. split.
  - destruct (py_in "name" v) as [[|]|] eqn:N; try discriminate.
    destruct (py_in "url_template" v) as [[|]|] eqn:U; try discriminate.
    destruct (subscript v "url_template") as [t|] eqn:S; try discriminate.
    destruct (py_in "{url}" t) as [[|]|] eqn:P; try discriminate.
    destruct v as [| b | q | s | l | items]; try discriminate.
    cbn [py_in subscript] in N, S.
    destruct (negb _) eqn:R; [discriminate|]. intros _.
    exists items, t. split; [reflexivity|].
    split; [apply has_key_spec; congruence|].
    split; [exact S|].
    split; [now apply py_in_placeholder|].
    now apply response_type_accepted.
  - intros (items & t & -> & Hn & Ht & Hp & Hr).
    cbn [py_in subscript].
    apply has_key_spec in Hn. rewrite Hn.
    assert (Hu : existsb (fun kv => String.eqb (fst kv) "url_template")
                         items = true).
    { unfold dict_lookup in Ht.
      destruct (find _ items) as [kv|] eqn:F; [|discriminate].
      apply find_some in F. apply existsb_exists. now exists kv. }
    rewrite Hu, Ht.
    apply py_in_placeholder in Hp. rewrite Hp.
    apply response_type_accepted in Hr. now rewrite Hr.
Qed.

Lemma validate_any_typed (d : ParserConfig) :
  _validate_parser_config_any (entry_of d) =
  Some (_validate_parser_config d).
Proof.
  destruct d as [[n|] [t|] [r|] [en|]]; try reflexivity;
    unfold _validate_parser_config_any, _validate_parser_config, entry_of;
    cbn; destruct (Py.contains "{url}" t); cbn; try reflexivity;
    destruct (String.eqb r "json"), (String.eqb r "html"); reflexivity.
Qed.

Lemma registry_update_first (n : string)
      (f : ParserInterface -> ParserInterface) (ps : list ParserInterface) :
  (forall p, name (f p) = name p) ->
  (forall p, well_formed p -> well_formed (f p)) ->
  (forall p, counted p -> counted (f p)) ->
  registry_ok ps -> registry_ok (update_first n f ps).
Proof.
  intros H1 H2 H3 (A & B & C). split; [|split].
  - now rewrite names_update_first.
  - now apply Forall_update_first.
  - now apply Forall_update_first.
Qed.

Lemma registry_append (p : ParserInterface) (ps : list ParserInterface) :
  ~ In (name p) (map name ps) -> well_formed p -> counted p ->
  registry_ok ps -> registry_ok (ps ++ [p]).
Proof.
  intros Hn Hw Hc (A & B & C). split; [|split].
  - rewrite map_app. cbn.
    apply Permutation_NoDup with (l := name p :: map name ps).
    + apply Permutation_cons_append.
    + now constructor.
  - apply Forall_app. split; [exact B | now constructor].
  - apply Forall_app. split; [exact C | now constructor].
Qed.

Lemma registry_load_one (ps : list ParserInterface) (d : ParserConfig) :
  registry_ok ps -> registry_ok (load_custom_parser ps d).
Proof.
  intro H. unfold load_custom_parser.
  destruct (_validate_parser_config d) eqn:V; [|exact H].
  destruct (validate_config_fields d V) as (n & t & E1 & E2 & Ht & Hr).
  rewrite E1, E2.
  destruct (get_parser_by_name ps n) as [p0|] eqn:G.
  - apply registry_update_first; auto.
    intros q _. split; assumption.
  - apply registry_append; cbn; auto.
    + now apply get_parser_by_name_none.
    + split; assumption.
    + unfold counted. cbn. lia.
Qed.

Lemma registry_step (ps : list ParserInterface) (o : op) :
  registry_ok ps -> registry_ok (step ps o).
Proof.
  intro H. destruct o as [n t r | n | n | n | n rt now | n now now' | | cs];
    cbn [step].
  - unfold add_parser.
    destruct (_validate_parser_config _) eqn:V; cbn [negb fst]; [|exact H].
    destruct (get_parser_by_name ps n) as [p0|] eqn:G; cbn [fst];
      [exact H|].
    apply validate_config_true in V.
    apply registry_append; cbn; auto.
    + now apply get_parser_by_name_none.
    + unfold counted. cbn. lia.
  - unfold remove_parser.
    destruct (get_parser_by_name ps n) as [p0|]; cbn [fst]; [|exact H].
    destruct H as (A & B & C). split; [|split].
    + now apply names_remove_first.
    + rewrite Forall_forall in *. intros p Hp. apply B.
      now apply In_remove_first in Hp.
    + rewrite Forall_forall in *. intros p Hp. apply C.
      now apply In_remove_first in Hp.
  - unfold enable_parser.
    destruct (get_parser_by_name ps n) as [p0|]; cbn [fst]; [|exact H].
    apply registry_update_first; auto.
  - unfold disable_parser.
    destruct (get_parser_by_name ps n) as [p0|]; cbn [fst]; [|exact H].
    apply registry_update_first; auto.
  - apply registry_update_first; auto.
    intros p (C1 & C2 & C3). unfold counted. cbn. lia.
  - apply registry_update_first; auto.
    intros p (C1 & C2 & C3). unfold counted. cbn. lia.
  - destruct H as (A & B & C). unfold reset_stats. split; [|split].
    + rewrite map_map. exact A.
    + apply Forall_map. apply Forall_impl with (2 := B). auto.
    + apply Forall_map. apply Forall_forall. intros p _.
      unfold counted. cbn. lia.
  - unfold _load_custom_parsers. revert ps H.
    induction cs as [|d cs IH]; intros ps H; cbn [fold_left]; [exact H|].
    apply IH. now apply registry_load_one.
Qed.

Lemma registry_default : registry_ok (_init_parsers []).
Proof.
  split; [|split].
  - cbn. repeat constructor; cbn; intuition discriminate.
  - unfold _init_parsers, _load_custom_parsers. cbn [fold_left].
    apply Forall_map. apply Forall_forall. intros d Hd.
    assert (Hv : _validate_parser_config
                   (mkCfg (Some (fst (fst d))) (Some (snd (fst d)))
                          (Some (snd d)) None) = true).
    { cbn in Hd.
      repeat (destruct Hd as [<- | Hd]; [vm_compute; reflexivity|]).
      contradiction. }
    apply validate_config_true in Hv. exact Hv.
  - unfold _init_parsers, _load_custom_parsers. cbn [fold_left].
    apply Forall_map. apply Forall_forall. intros d _.
    unfold counted. cbn. lia.
Qed.

Lemma registry_reachable (cs : list ParserConfig) (os : list op) :
  registry_ok (run (_init_parsers cs) os).
Proof.
  assert (H0 : registry_ok (_init_parsers cs)).
  { change (_init_parsers cs)
      with (step (_init_parsers []) (LoadCustom cs)).
    apply registry_step. apply registry_default. }
  revert H0. unfold run. generalize (_init_parsers cs).
  induction os as [|o os IH]; intros ps H; cbn [fold_left]; [exact H|].
  apply IH. now apply registry_step.
Qed.

Lemma success_rate_bounds (p : ParserInterface) :
  counted p -> (0 <= get_success_rate p)%Q /\ (get_success_rate p <= 1)%Q.
Proof.
  intros (H1 & H2 & _). unfold get_success_rate.
  destruct (Z.gtb_spec (success_count p + failure_count p) 0) as [Hp | Hz].
  - assert (Hq : (0 < inject_Z (success_count p + failure_count p))%Q).
    { change 0%Q with (inject_Z 0). now rewrite <- Zlt_Qlt. }
    split.
    + apply Qle_shift_div_l; [exact Hq|]. rewrite Qmult_0_l.
      change 0%Q with (inject_Z 0). now rewrite <- Zle_Qle.
    + apply Qle_shift_div_r; [exact Hq|]. rewrite Qmult_1_l.
      rewrite <- Zle_Qle. lia.
  - split; discriminate.
Qed.

End Registry.

Lemma find_append {A : Type} (f : A -> bool) (l l' : list A) :
  find f (l ++ l') =
  match find f l with
  | Some x => Some x
  | None => find f l'
  end.
Proof.
  induction l as [|x l IH]; cbn; [reflexivity|].
  destruct (f x); [reflexivity | exact IH].
Qed.

(** X15: [add_parser] succeeds exactly when the template holds the
    placeholder [{url}], the response type is [json] or [html], and no
    parser has the name yet; it then appends a fresh enabled parser, which
    [get_parser_by_name] finds, and otherwise leaves the list as it is. *)
Theorem add_parser_spec
        (ps : list ThirdPartyParser.ParserInterface) (n t r : string) :
  let res := ThirdPartyParser.add_parser ps n t r in
  (snd res = true <->
   Py.Contains "{url}" t /\ (r = "json"%string \/ r = "html"%string) /\
   ~ In n (map ThirdPartyParser.name ps)) /\
  (snd res = true ->
   fst res = ps ++ [ThirdPartyParser.new_parser n t r] /\
   ThirdPartyParser.get_parser_by_name (fst res) n =
     Some (ThirdPartyParser.new_parser n t r)) /\
  (snd res = false -> fst res = ps).
Proof.
  intro res. subst res. unfold ThirdPartyParser.add_parser.
  pose proof (validate_config_true n t r None) as Hv.
  pose proof (get_parser_by_name_none ps n) as Hg.
  destruct (ThirdPartyParser._validate_parser_config _); cbn [negb].
  - destruct (ThirdPartyParser.get_parser_by_name ps n) as [p0|] eqn:G;
      cbn [fst snd].
    + split; [|split; [discriminate | reflexivity]].
      split; [discriminate|]. intros (_ & _ & H).
      apply Hg in H. discriminate H.
    + split; [|split; [|discriminate]].
      * split; [intros _ | reflexivity].
        destruct (proj1 Hv eq_refl) as [H1 H2].
        repeat split; auto. now apply Hg.
      * intros _. split; [reflexivity|].
        unfold ThirdPartyParser.get_parser_by_name in *.
        rewrite find_append, G. cbn. now rewrite String.eqb_refl.
  - cbn [fst snd]. split; [|split; [discriminate | reflexivity]].
    split; [discriminate|]. intros (H1 & H2 & _).
    assert (false = true) by (apply Hv; now split). discriminate.
Qed.

(** X16: in every state of the registry reached from the default parsers
    (and the custom ones of a configuration file) the names are pairwise
    distinct, so [get_parser_by_name] finds every registered parser under
    its own name. *)
Theorem registry_names_unique
        (cs : list ThirdPartyParser.ParserConfig)
        (os : list ThirdPartyParser.op) :
  let ps := ThirdPartyParser.run (ThirdPartyParser._init_parsers cs) os in
  NoDup (map ThirdPartyParser.name ps) /\
  (forall p, In p ps ->
     ThirdPartyParser.get_parser_by_name ps (ThirdPartyParser.name p) =
     Some p).
Proof.
  intro ps. destruct (registry_reachable cs os) as (Hnd & _ & _).
  fold ps in Hnd. split; [exact Hnd|].
  clearbody ps. clear -Hnd. unfold ThirdPartyParser.get_parser_by_name.
  induction ps as [|q ps IH]; intros p Hp; [contradiction|].
  cbn in *. inversion Hnd as [|? ? Hq Hps]; subst.
  destruct Hp as [-> | Hp].
  - now rewrite String.eqb_refl.
  - destruct (String.eqb_spec (ThirdPartyParser.name q)
                              (ThirdPartyParser.name p)) as [E | E].
    + elim Hq. rewrite E. now apply in_map.
    + now apply IH.
Qed.

(** X17: in every state of the registry reached from the default parsers
    by the calls of the manager and by loading configuration entries whose
    fields are strings (a boolean for [enabled]), every URL template holds
    the placeholder [{url}] and every response type is [json] or [html].
    The guarantee rests on those types, which [_validate_parser_config]
    does not check: on such entries it decides as stated, but of the
    values that [json.load] can give it accepts exactly the objects with
    the keys [name] and [url_template], no response type other than the
    strings [json] and [html], and a template in which the membership
    test for the placeholder succeeds, be it a string that contains it, a
    list with the placeholder as an element or an object with the
    placeholder as a key; so an entry whose template is the list of the
    placeholder passes the validation. *)
Theorem registry_well_formed
        (cs : list ThirdPartyParser.ParserConfig)
        (os : list ThirdPartyParser.op) :
  Forall ThirdPartyParser.well_formed
         (ThirdPartyParser.run (ThirdPartyParser._init_parsers cs) os) /\
  (forall d : ThirdPartyParser.ParserConfig,
     ThirdPartyParser._validate_parser_config_any
       (ThirdPartyParser.entry_of d) =
     Some (ThirdPartyParser._validate_parser_config d)) /\
  (forall v : ThirdPartyParser.JValue,
     ThirdPartyParser._validate_parser_config_any v = Some true <->
     ThirdPartyParser.accepted_entry v) /\
  ThirdPartyParser._validate_parser_config_any
    ThirdPartyParser.entry_with_list_template = Some true.
Proof.
  split; [exact (proj1 (proj2 (registry_reachable cs os)))|].
  split; [exact validate_any_typed|].
  split; [exact validate_any_accepted | reflexivity].
Qed.

(** X18: in every state of the registry reached from the default parsers
    the counters of every parser are non-negative and its success rate
    lies between 0 and 1. *)
Theorem registry_success_rate_bounds
        (cs : list ThirdPartyParser.ParserConfig)
        (os : list ThirdPartyParser.op) :
  Forall (fun p =>
            0 <= ThirdPartyParser.success_count p /\
            0 <= ThirdPartyParser.failure_count p /\
            0 <= ThirdPartyParser.consecutive_failures p /\
            (0 <= ThirdPartyParser.get_success_rate p)%Q /\
            (ThirdPartyParser.get_success_rate p <= 1)%Q)
         (ThirdPartyParser.run (ThirdPartyParser._init_parsers cs) os).
Proof.
  destruct (registry_reachable cs os) as (_ & _ & Hc).
  apply Forall_impl with (2 := Hc). intros p Hp.
  destruct (success_rate_bounds p Hp) as [H1 H2].
  destruct Hp as (C1 & C2 & C3). auto 10.
Qed.

(* ------------------------------------------------------------------ *)
(** * Sorting and filtering *)

Section SortedFilter.
Context {A : Type}.
Variable ltb : A -> A -> bool.

Lemma insert_front (x : A) (l : list A) :
  (forall z, In z l -> ltb z x = false) -> Py.insert ltb x l = x :: l.
Proof.
  destruct l as [|y l]; cbn; [reflexivity|].
  intro H. now rewrite (H y (or_introl eq_refl)).
Qed.

Lemma sorted_all_tied (l : list A) :
  (forall a b, In a l -> In b l -> ltb a b = false) -> Py.sorted ltb l = l.
Proof.
  induction l as [|x l IH]; intro H; cbn; [reflexivity|].
  rewrite IH.
  - apply insert_front. intros z Hz. apply H; [now right | now left].
  - intros a b Ha Hb. apply H; now right.
Qed.

Hypothesis ltb_asym : forall a b, ltb a b = true -> ltb b a = false.
Hypothesis le_trans :
  forall a b c, ltb b a = false -> ltb c b = false -> ltb c a = false.

Lemma insert_filter_comm (P : A -> bool) (x : A) (s : list A) :
  StronglySorted (fun a b => ltb b a = false) s ->
  filter P (Py.insert ltb x s) =
  if P x then Py.insert ltb x (filter P s) else filter P s.
Proof.
  induction 1 as [|y s Hs IH Hy]; cbn [Py.insert filter].
  - now destruct (P x).
  - destruct (ltb y x) eqn:E; cbn [filter].
    + rewrite IH. destruct (P x), (P y); try reflexivity.
      cbn [Py.insert]. now rewrite E.
    + destruct (P x); [|reflexivity].
      symmetry. apply insert_front.
      intros z Hz.
      assert (Hin : In z (y :: s)).
      { change (filter P (y :: s)) with
          (if P y then y :: filter P s else filter P s) in Hz.
        destruct (P y).
        - destruct Hz as [-> | Hz]; [now left|].
          right. apply filter_In in Hz. tauto.
        - right. apply filter_In in Hz. tauto. }
      destruct Hin as [<- | Hin]; [exact E|].
      rewrite Forall_forall in Hy. apply (le_trans x y z E). now apply Hy.
Qed.

Lemma sorted_filter_comm (P : A -> bool) (l : list A) :
  filter P (Py.sorted ltb l) = Py.sorted ltb (filter P l).
Proof.
  induction l as [|x l IH]; cbn [Py.sorted filter]; [reflexivity|].
  rewrite insert_filter_comm by (apply sorted_sorted; assumption).
  destruct (P x); cbn [Py.sorted]; now rewrite IH.
Qed.

End SortedFilter.

Section RegistryRanking.
Import ThirdPartyParser.

Lemma get_sorted_filter (P : ParserInterface -> bool)
      (ps : list ParserInterface) (now : Q) :
  filter P (get_sorted_parsers ps now) =
  Py.sorted (fun p q => key_ltb (sort_key p) (sort_key q))
            (filter P (filter (available now) ps)).
Proof.
  unfold get_sorted_parsers. apply sorted_filter_comm.
  - intros a b. apply key_ltb_asym.
  - intros a b c. apply key_le_trans.
Qed.

Lemma filter_all {A : Type} (P : A -> bool) (l : list A) :
  (forall x, In x l -> P x = true) -> filter P l = l.
Proof.
  induction l as [|x l IH]; intro H; cbn; [reflexivity|].
  rewrite (H x (or_introl eq_refl)). f_equal. apply IH.
  intros y Hy. apply H. now right.
Qed.

Lemma disable_available (ps : list ParserInterface) (n : string) (now : Q) :
  NoDup (map name ps) ->
  filter (available now) (update_first n (set_enabled false) ps) =
  filter (fun p => negb (String.eqb (name p) n))
         (filter (available now) ps).
Proof.
  induction ps as [|p ps IH]; intro Hnd; cbn [update_first filter map];
    [reflexivity|].
  cbn [map] in Hnd. inversion Hnd as [|? ? Hp Hps]; subst.
  destruct (String.eqb_spec (name p) n) as [E | E].
  - cbn [filter]. unfold available at 1. cbn [enabled set_enabled andb].
    assert (Hrest : filter (fun q => negb (String.eqb (name q) n))
                           (filter (available now) ps) =
                    filter (available now) ps).
    { apply filter_all. intros q Hq. apply filter_In in Hq.
      destruct Hq as [Hq _]. apply negb_true_iff.
      apply String.eqb_neq. intro Eq. apply Hp. rewrite E, <- Eq.
      now apply in_map. }
    destruct (available now p); cbn [filter].
    + apply String.eqb_eq in E. rewrite E. cbn [negb]. now rewrite Hrest.
    + now rewrite Hrest.
  - cbn [filter]. destruct (available now p); cbn [filter].
    + apply String.eqb_neq in E. rewrite E. cbn [negb].
      f_equal. now apply IH.
    + now apply IH.
Qed.

Lemma update_first_absent (n : string)
      (f : ParserInterface -> ParserInterface) (ps : list ParserInterface) :
  get_parser_by_name ps n = None -> update_first n f ps = ps.
Proof.
  unfold get_parser_by_name. induction ps as [|p ps IH]; cbn;
    [reflexivity|].
  destruct (String.eqb (name p) n); [discriminate|].
  intro H. f_equal. now apply IH.
Qed.

Lemma update_first_twice (n : string)
      (f g : ParserInterface -> ParserInterface)
      (ps : list ParserInterface) :
  (forall p, name (g p) = name p) ->
  update_first n f (update_first n g ps) =
  update_first n (fun p => f (g p)) ps.
Proof.
  intro Hg. induction ps as [|p ps IH]; cbn; [reflexivity|].
  destruct (String.eqb (name p) n) eqn:E; cbn.
  - now rewrite Hg, E.
  - rewrite E. f_equal. exact IH.
Qed.

Lemma update_first_same (n : string)
      (f : ParserInterface -> ParserInterface)
      (ps : list ParserInterface) (p0 : ParserInterface) :
  get_parser_by_name ps n = Some p0 -> f p0 = p0 ->
  update_first n f ps = ps.
Proof.
  unfold get_parser_by_name. induction ps as [|p ps IH]; cbn;
    [discriminate|].
  destruct (String.eqb (name p) n).
  - intros H Hf. injection H as ->. now rewrite Hf.
  - intros H Hf. f_equal. now apply IH.
Qed.

End RegistryRanking.

(** X19: with distinct names, [remove_parser] answers [true] exactly when
    a parser has the name; afterwards no parser has it, the list is one
    shorter and every other name is found as before; for an unknown name
    the list is unchanged. *)
Theorem remove_parser_spec
        (ps : list ThirdPartyParser.ParserInterface) (n : string) :
  NoDup (map ThirdPartyParser.name ps) ->
  let res := ThirdPartyParser.remove_parser ps n in
  (snd res = true <-> In n (map ThirdPartyParser.name ps)) /\
  ThirdPartyParser.get_parser_by_name (fst res) n = None /\
  (forall m, m <> n ->
     ThirdPartyParser.get_parser_by_name (fst res) m =
     ThirdPartyParser.get_parser_by_name ps m) /\
  (snd res = true -> S (List.length (fst res)) = List.length ps) /\
  (snd res = false -> fst res = ps).
Proof.
  intros Hnd res. subst res. unfold ThirdPartyParser.remove_parser.
  pose proof (get_parser_by_name_none ps n) as Hg.
  destruct (names_remove_first n ps Hnd) as (_ & R2 & R3).
  destruct (ThirdPartyParser.get_parser_by_name ps n) as [p0|] eqn:G;
    cbn [fst snd].
  - split; [|split; [|split; [|split]]].
    + split; [intros _ | reflexivity].
      apply get_parser_by_name_some in G. destruct G as [G1 G2].
      rewrite <- G2. now apply in_map.
    + now apply get_parser_by_name_none.
    + exact R3.
    + intros _. clear -G. unfold ThirdPartyParser.get_parser_by_name in G.
      induction ps as [|p ps IH]; [discriminate|]. cbn in *.
      destruct (String.eqb (ThirdPartyParser.name p) n); [reflexivity|].
      cbn. f_equal. now apply IH.
    + discriminate.
  - split; [|split; [|split; [|split]]]; auto; try discriminate.
    split; [discriminate|]. intro H. exfalso. now apply (proj1 Hg).
Qed.

(** X19 on the default parsers. *)
Lemma remove_parser_spec_witness :
  ThirdPartyParser.get_parser_by_name
    (fst (ThirdPartyParser.remove_parser
            (ThirdPartyParser._init_parsers []) "jx.m3u8.tv"))
    "jx.m3u8.tv" = None.
Proof.
  refine (proj1 (proj2 (remove_parser_spec
                          (ThirdPartyParser._init_parsers [])
                          "jx.m3u8.tv" _))).
  exact (proj1 registry_default).
Defined.

(** X20: with distinct names, [disable_parser] takes exactly the named
    parser out of the ranking and leaves the order of the others as it
    was; [enable_parser] after it gives back the list as it was when the
    parser was enabled before. *)
Theorem disable_parser_ranking
        (ps : list ThirdPartyParser.ParserInterface) (n : string) (now : Q) :
  NoDup (map ThirdPartyParser.name ps) ->
  let ps' := fst (ThirdPartyParser.disable_parser ps n) in
  ThirdPartyParser.get_sorted_parsers ps' now =
    filter (fun p => negb (String.eqb (ThirdPartyParser.name p) n))
           (ThirdPartyParser.get_sorted_parsers ps now) /\
  (forall p, In p (ThirdPartyParser.get_sorted_parsers ps' now) ->
             ThirdPartyParser.name p <> n) /\
  (forall p0, ThirdPartyParser.get_parser_by_name ps n = Some p0 ->
     ThirdPartyParser.enabled p0 = true ->
     fst (ThirdPartyParser.enable_parser ps' n) = ps).
Proof.
  intros Hnd ps'.
  assert (Hps' : ps' = ThirdPartyParser.update_first n
                         (ThirdPartyParser.set_enabled false) ps).
  { subst ps'. unfold ThirdPartyParser.disable_parser.
    destruct (ThirdPartyParser.get_parser_by_name ps n) eqn:G;
      cbn [fst]; [reflexivity|].
    symmetry. now apply update_first_absent. }
  assert (Hrank : ThirdPartyParser.get_sorted_parsers ps' now =
            filter (fun p => negb (String.eqb (ThirdPartyParser.name p) n))
                   (ThirdPartyParser.get_sorted_parsers ps now)).
  { rewrite get_sorted_filter, Hps'.
    unfold ThirdPartyParser.get_sorted_parsers.
    now rewrite disable_available. }
  split; [exact Hrank|]. split.
  - intros p Hp. rewrite Hrank in Hp. apply filter_In in Hp.
    destruct Hp as [_ Hp]. apply negb_true_iff in Hp.
    now apply String.eqb_neq in Hp.
  - intros p0 G Hen. rewrite Hps'.
    unfold ThirdPartyParser.enable_parser.
    rewrite get_update_first by reflexivity.
    rewrite String.eqb_refl, G. cbn [option_map fst].
    rewrite update_first_twice by reflexivity.
    apply (update_first_same n _ ps p0 G).
    destruct p0; cbn in *. now rewrite Hen.
Qed.

(** X20 on the default parsers at the instant 0. *)
Lemma disable_parser_ranking_witness :
  ThirdPartyParser.get_sorted_parsers
    (fst (ThirdPartyParser.disable_parser
            (ThirdPartyParser._init_parsers []) "jx.m3u8.tv")) 0 =
  filter (fun p => negb (String.eqb (ThirdPartyParser.name p) "jx.m3u8.tv"))
         (ThirdPartyParser.get_sorted_parsers
            (ThirdPartyParser._init_parsers []) 0).
Proof.
  refine (proj1 (disable_parser_ranking
                   (ThirdPartyParser._init_parsers [])
                   "jx.m3u8.tv" 0 _)).
  exact (proj1 registry_default).
Defined.

(** X21: [reset_stats] keeps names, templates and the enabled flags, and
    puts every parser back to the default success rate 1/2 and out of
    cooldown; right after it the ranking is the list of the enabled
    parsers in their registration order. *)
Theorem reset_stats_ranking
        (ps : list ThirdPartyParser.ParserInterface) (now : Q) :
  let ps' := ThirdPartyParser.reset_stats ps in
  map ThirdPartyParser.name ps' = map ThirdPartyParser.name ps /\
  map ThirdPartyParser.enabled ps' = map ThirdPartyParser.enabled ps /\
  Forall (fun p =>
            ThirdPartyParser.get_success_rate p = (1 # 2)%Q /\
            ThirdPartyParser.is_in_cooldown p now = false /\
            ThirdPartyParser.consecutive_failures p = 0) ps' /\
  ThirdPartyParser.get_sorted_parsers ps' now =
    filter ThirdPartyParser.enabled ps'.
Proof.
  intro ps'. subst ps'. unfold ThirdPartyParser.reset_stats.
  split; [now rewrite map_map|]. split; [now rewrite map_map|]. split.
  - apply Forall_map. apply Forall_forall. intros p _. repeat split.
  - unfold ThirdPartyParser.get_sorted_parsers.
    assert (Hf : filter (ThirdPartyParser.available now)
                        (map ThirdPartyParser.reset_parser ps) =
                 filter ThirdPartyParser.enabled
                        (map ThirdPartyParser.reset_parser ps)).
    { apply filter_ext_in. intros p Hp. apply in_map_iff in Hp.
      destruct Hp as (q & <- & _). unfold ThirdPartyParser.available.
      cbn. apply andb_true_r. }
    rewrite Hf. apply sorted_all_tied.
    intros a b Ha Hb. apply filter_In in Ha, Hb.
    destruct Ha as [Ha _], Hb as [Hb _]. apply in_map_iff in Ha, Hb.
    destruct Ha as (a' & <- & _), Hb as (b' & <- & _). reflexivity.
Qed.

(** X22: the counts reported by [get_stats] are ordered: the available
    parsers are among the enabled ones, which are among all parsers; and
    [get_strategy_count] is the number of enabled parsers. *)
Theorem parser_stats_ordered
        (ps : list ThirdPartyParser.ParserInterface) (now : Q) :
  0 <= ThirdPartyParser.available_parsers ps now /\
  ThirdPartyParser.available_parsers ps now <=
    ThirdPartyParser.enabled_parsers ps /\
  ThirdPartyParser.enabled_parsers ps <=
    ThirdPartyParser.total_parsers ps /\
  ThirdPartyParser.get_strategy_count ps =
    ThirdPartyParser.enabled_parsers ps /\
  (ThirdPartyParser.available_parsers ps now = 0 <->
   ThirdPartyParser.get_sorted_parsers ps now = []).
Proof.
  unfold ThirdPartyParser.available_parsers,
    ThirdPartyParser.enabled_parsers, ThirdPartyParser.total_parsers,
    ThirdPartyParser.get_strategy_count.
  assert (H1 : List.length (ThirdPartyParser.get_sorted_parsers ps now) =
               List.length (filter (ThirdPartyParser.available now) ps)).
  { apply Permutation_length. apply sorted_perm. }
  assert (H2 : (List.length (filter (ThirdPartyParser.available now) ps) <=
                List.length (filter ThirdPartyParser.enabled ps))%nat).
  { clear. induction ps as [|p ps IH]; cbn; [lia|].
    unfold ThirdPartyParser.available at 1.
    destruct (ThirdPartyParser.enabled p); cbn.
    - destruct (negb _); cbn; lia.
    - exact IH. }
  pose proof (filter_length_le ThirdPartyParser.enabled ps) as H3.
  repeat split; try lia.
  - intro H.
    destruct (ThirdPartyParser.get_sorted_parsers ps now);
      [reflexivity | cbn in H; lia].
  - intro H. rewrite H. reflexivity.
Qed.

Section VideoUrl.
Import ThirdPartyParser.

Lemma is_video_url_true (u : string) :
  _is_video_url u = true ->
  u <> EmptyString /\ Py.StartsWith u "http" /\
  (exists ind, In ind video_indicators /\ Py.Contains ind (Py.lower u)) /\
  (forall e, In e exclude -> ~ Py.Contains e (Py.lower u)).
Proof.
  unfold _is_video_url.
  destruct (String.eqb_spec u EmptyString) as [E | E]; cbn [orb];
    [discriminate|].
  destruct (Py.startswith u "http") eqn:S; cbn [negb]; [|discriminate].
  intro H. apply andb_true_iff in H. destruct H as [H1 H2].
  apply negb_true_iff in H2.
  split; [exact E|]. split; [now apply startswith_spec|]. split.
  - now apply any_in_spec.
  - intros e He Hc.
    assert (Py.any_in exclude (Py.lower u) = true)
      by (apply any_in_spec; eauto).
    congruence.
Qed.

End VideoUrl.

(** X23: a URL that [_is_video_url] accepts (as the extraction of [parse]
    returns it) holds a media indicator that [validate_play_url] knows, and
    none of the excluded words; so [validate_play_url] accepts it exactly
    when it starts with [http://] or [https://], has between 20 and 2000
    characters and holds none of the seven forbidden characters. *)
Theorem video_url_validation (u : string) :
  ThirdPartyParser._is_video_url u = true ->
  (forall e, In e ThirdPartyParser.exclude ->
             ~ Py.Contains e (Py.lower u)) /\
  (ThirdPartyParser.validate_play_url u = true <->
   (Py.StartsWith u "http://" \/ Py.StartsWith u "https://") /\
   (20 <= String.length u <= 2000)%nat /\
   (forall c, In c ThirdPartyParser.invalid_chars -> ~ Py.HasChar c u)).
Proof.
  intro H. apply is_video_url_true in H.
  destruct H as (Hne & _ & (ind & Hin & Hc) & Hex).
  split; [exact Hex|].
  rewrite validate_play_url_correct. unfold ThirdPartyParser.url_contract.
  split.
  - intros (_ & H1 & H2 & H3 & _). auto.
  - intros (H1 & H2 & H3). repeat split; auto; try lia.
    exists ind. split; [|exact Hc].
    unfold ThirdPartyParser.media_indicators.
    cbn in Hin. cbn.
    repeat (destruct Hin as [<- | Hin]; [tauto|]). contradiction.
Qed.

(** X23 on a playlist address. *)
Lemma video_url_validation_witness :
  ThirdPartyParser.validate_play_url "https://cdn.example.com/a/index.m3u8"
  = true <->
  (Py.StartsWith "https://cdn.example.com/a/index.m3u8" "http://" \/
   Py.StartsWith "https://cdn.example.com/a/index.m3u8" "https://") /\
  (20 <= String.length "https://cdn.example.com/a/index.m3u8" <= 2000)%nat /\
  (forall c, In c ThirdPartyParser.invalid_chars ->
             ~ Py.HasChar c "https://cdn.example.com/a/index.m3u8").
Proof.
  exact (proj2 (video_url_validation
                  "https://cdn.example.com/a/index.m3u8" eq_refl)).
Defined.

(** X24: once the threshold of consecutive failures is reached, a failure
    recorded at the instant [now'] puts the resource in cooldown exactly
    until [now' + cooldown_time]: it is in cooldown at every instant before
    that and at none from then on; in particular one hour after its last
    failure a resource is never in cooldown, and an enabled one is
    available again. *)
Theorem cooldown_window
        (p : ThirdPartyParser.ParserInterface) (now now' t : Q) :
  ThirdPartyParser.MAX_CONSECUTIVE_FAILURES <=
    ThirdPartyParser.consecutive_failures p + 1 ->
  let p' := ThirdPartyParser._record_failure p now now' in
  let d := ThirdPartyParser.cooldown_time
             (ThirdPartyParser.consecutive_failures p + 1) in
  (ThirdPartyParser.is_in_cooldown p' t = true <->
   (t < now' + inject_Z d)%Q) /\
  ((now' + 3600 <= t)%Q ->
   ThirdPartyParser.is_in_cooldown p' t = false /\
   ThirdPartyParser.available t p' = ThirdPartyParser.enabled p).
Proof.
  intros Hcf p' d. subst p' d.
  assert (Hc : ThirdPartyParser.cooldown_until
                 (ThirdPartyParser._record_failure p now now') =
               Some (now' + inject_Z
                       (ThirdPartyParser.cooldown_time
                          (ThirdPartyParser.consecutive_failures p + 1)))%Q).
  { unfold ThirdPartyParser._record_failure.
    cbn [ThirdPartyParser.cooldown_until].
    destruct (Z.geb_spec (ThirdPartyParser.consecutive_failures p + 1)
                         ThirdPartyParser.MAX_CONSECUTIVE_FAILURES);
      [reflexivity | lia]. }
  assert (Hiff : ThirdPartyParser.is_in_cooldown
                   (ThirdPartyParser._record_failure p now now') t = true <->
                 (t < now' + inject_Z
                        (ThirdPartyParser.cooldown_time
                           (ThirdPartyParser.consecutive_failures p + 1)))%Q).
  { unfold ThirdPartyParser.is_in_cooldown. rewrite Hc. apply Qltb_true. }
  split; [exact Hiff|]. intro Ht.
  assert (Hout : ThirdPartyParser.is_in_cooldown
                   (ThirdPartyParser._record_failure p now now') t = false).
  { apply not_true_is_false. intro E. apply Hiff in E.
    pose proof (cooldown_time_le_max
                  (ThirdPartyParser.consecutive_failures p + 1)) as Hm.
    unfold ThirdPartyParser.COOLDOWN_MAX in Hm.
    rewrite Zle_Qle in Hm. change (inject_Z 3600) with 3600%Q in Hm. lra. }
  split; [exact Hout|].
  unfold ThirdPartyParser.available. rewrite Hout. cbn. apply andb_true_r.
Qed.

(** X24 on a resource after its fifth failure at the instant 100. *)
Lemma cooldown_window_witness :
  ThirdPartyParser.is_in_cooldown
    (ThirdPartyParser.record_failures 5 (fun _ => (100, 100)%Q)
       (ThirdPartyParser.new_parser "a" "https://a/?url={url}" "html"))
    3700 = false.
Proof.
  refine (proj1 (proj2 (cooldown_window
                           (ThirdPartyParser.record_failures 4
                              (fun _ => (100, 100)%Q)
                              (ThirdPartyParser.new_parser
                                 "a" "https://a/?url={url}" "html"))
                           100 100 3700 _) _)).
  - discriminate.
  - discriminate.
Defined.

(* ------------------------------------------------------------------ *)
(** * Resolution through the relay pool *)

Section Parse.
Import ThirdPartyParser.

Lemma update_first_map (n : string)
      (f : ParserInterface -> ParserInterface) (ps : list ParserInterface) :
  NoDup (map name ps) ->
  update_first n f ps =
  map (fun p => if String.eqb (name p) n then f p else p) ps.
Proof.
  induction ps as [|p ps IH]; cbn; intro H; [reflexivity|].
  inversion H as [|? ? Hp Hps]; subst.
  destruct (String.eqb_spec (name p) n) as [E | E].
  - f_equal. rewrite <- (map_id ps) at 1. apply map_ext_in.
    intros q Hq. destruct (String.eqb_spec (name q) n) as [E' | E'];
      [|reflexivity].
    elim Hp. rewrite E, <- E'. now apply in_map.
  - f_equal. now apply IH.
Qed.

Lemma accepted_valid (a : Attempt) (u : string) :
  accepted a = Some u -> validate_play_url u = true /\ play_url a = Some u.
Proof.
  unfold accepted. destruct (play_url a) as [v|]; [|discriminate].
  destruct (negb (String.eqb v EmptyString)); cbn [andb]; [|discriminate].
  destruct (validate_play_url v) eqn:E; [|discriminate].
  intro H. injection H as <-. now split.
Qed.

Lemma parse_loop_spec (attempt : string -> Attempt) (order : list string)
      (ps : list ParserInterface) :
  NoDup order -> NoDup (map name ps) ->
  let res := parse_loop attempt order ps in
  (snd res = None /\
   (forall n, In n order -> accepted (attempt n) = None) /\
   fst res = map (after_parse attempt order None) ps) \/
  (exists pre n post u,
      order = pre ++ n :: post /\
      (forall m, In m pre -> accepted (attempt m) = None) /\
      accepted (attempt n) = Some u /\
      snd res = Some u /\
      fst res = map (after_parse attempt pre (Some n)) ps).
Proof.
  revert ps. induction order as [|n rest IH]; intros ps Hord Hnd;
    cbn [parse_loop].
  - left. cbn. repeat split; [tauto|].
    rewrite <- (map_id ps) at 1. apply map_ext. intro p. reflexivity.
  - inversion Hord as [|? ? Hn Hrest]; subst.
    destruct (accepted (attempt n)) as [u|] eqn:A.
    + right. exists [], n, rest, u. cbn [app fst snd].
      repeat split; auto; [intros m []|].
      rewrite update_first_map by exact Hnd. apply map_ext.
      intro p. reflexivity.
    + assert (Hnd' : NoDup (map name
                              (update_first n (failed (attempt n)) ps)))
        by (rewrite names_update_first; [exact Hnd | reflexivity]).
      assert (Hmap : forall losers winner,
                ~ In n losers -> winner <> Some n ->
                map (after_parse attempt losers winner)
                    (update_first n (failed (attempt n)) ps) =
                map (after_parse attempt (n :: losers) winner) ps).
      { intros losers winner Hl Hw.
        rewrite update_first_map by exact Hnd. rewrite map_map.
        apply map_ext. intro p. unfold after_parse. cbn [existsb].
        destruct (String.eqb_spec (name p) n) as [E | E]; cbn [orb].
        - assert (Hname : name (failed (attempt n) p) = n) by exact E.
          rewrite Hname.
          assert (Hex : existsb (String.eqb n) losers = false).
          { destruct (existsb (String.eqb n) losers) eqn:X;
              [|reflexivity].
            apply existsb_exists in X. destruct X as (m & Hm & Em).
            apply String.eqb_eq in Em. subst m. contradiction. }
          rewrite Hex. rewrite E.
          destruct winner as [w|]; [|reflexivity].
          destruct (String.eqb_spec n w); [congruence | reflexivity].
        - reflexivity. }
      destruct (IH _ Hrest Hnd') as
        [(R1 & R2 & R3) | (pre & m & post & u & R1 & R2 & R3 & R4 & R5)].
      * left. split; [exact R1|]. split.
        -- intros k [<- | Hk]; [exact A | now apply R2].
        -- rewrite R3. apply Hmap; [exact Hn | discriminate].
      * right. exists (n :: pre), m, post, u.
        split; [cbn; now rewrite R1|]. split.
        -- intros k [<- | Hk]; [exact A | now apply R2].
        -- split; [exact R3|]. split; [exact R4|].
           rewrite R5. apply Hmap.
           ++ intro Hin. apply Hn. rewrite R1. apply in_or_app. now left.
           ++ intro E. injection E as ->. apply Hn. rewrite R1.
              apply in_or_app. right. now left.
Qed.

Lemma ranked_names_nodup (ps : list ParserInterface) (now : Q) :
  NoDup (map name ps) -> NoDup (map name (get_sorted_parsers ps now)).
Proof.
  intro H. unfold get_sorted_parsers.
  apply (Permutation_NoDup
           (Permutation_map name (Permutation_sym (sorted_perm _ _)))).
  now apply NoDup_map_filter.
Qed.

End Parse.

(** X25: with distinct names, [parse] tries the ranked parsers in order
    and stops at the first whose extracted URL passes
    [validate_play_url]: it returns that URL, records one failure for
    every parser tried before it and one success for it, and touches no
    other parser; when no attempt is accepted it returns nothing and
    records one failure for every ranked parser.  A URL that fails the
    validation is never returned. *)
Theorem parse_spec
        (ps : list ThirdPartyParser.ParserInterface) (now : Q)
        (attempt : string -> ThirdPartyParser.Attempt) :
  NoDup (map ThirdPartyParser.name ps) ->
  let order := map ThirdPartyParser.name
                   (ThirdPartyParser.get_sorted_parsers ps now) in
  let res := ThirdPartyParser.parse ps now attempt in
  (forall u, snd res = Some u ->
             ThirdPartyParser.validate_play_url u = true) /\
  ((snd res = None /\
    (forall n, In n order ->
               ThirdPartyParser.accepted (attempt n) = None) /\
    fst res = map (ThirdPartyParser.after_parse attempt order None) ps) \/
   (exists pre n post u,
       order = pre ++ n :: post /\
       (forall m, In m pre ->
                  ThirdPartyParser.accepted (attempt m) = None) /\
       ThirdPartyParser.accepted (attempt n) = Some u /\
       snd res = Some u /\
       fst res =
         map (ThirdPartyParser.after_parse attempt pre (Some n)) ps)).
Proof.
  intros Hnd order res. subst res order.
  pose proof (parse_loop_spec attempt
                (map ThirdPartyParser.name
                     (ThirdPartyParser.get_sorted_parsers ps now)) ps
                (ranked_names_nodup ps now Hnd) Hnd) as H.
  cbv zeta in H. unfold ThirdPartyParser.parse. split; [|exact H].
  intros u Hu.
  destruct H as [(R1 & _) | (pre & n & post & v & _ & _ & R3 & R4 & _)].
  - rewrite R1 in Hu. discriminate Hu.
  - rewrite R4 in Hu. injection Hu as <-.
    now apply accepted_valid in R3.
Qed.

(** X25 on the default parsers when no relay answers: nothing is
    returned. *)
Lemma parse_spec_witness :
  let ps := ThirdPartyParser._init_parsers [] in
  let attempt := fun _ : string => ThirdPartyParser.mkAttempt None 1 0 0 in
  let order := map ThirdPartyParser.name
                   (ThirdPartyParser.get_sorted_parsers ps 0) in
  let res := ThirdPartyParser.parse ps 0 attempt in
  (snd res = None /\
   (forall n, In n order ->
              ThirdPartyParser.accepted (attempt n) = None) /\
   fst res = map (ThirdPartyParser.after_parse attempt order None) ps) \/
  (exists pre n post u,
      order = pre ++ n :: post /\
      (forall m, In m pre ->
                 ThirdPartyParser.accepted (attempt m) = None) /\
      ThirdPartyParser.accepted (attempt n) = Some u /\
      snd res = Some u /\
      fst res =
        map (ThirdPartyParser.after_parse attempt pre (Some n)) ps).
Proof.
  exact (proj2 (parse_spec (ThirdPartyParser._init_parsers []) 0
                  (fun _ => ThirdPartyParser.mkAttempt None 1 0 0)
                  (proj1 registry_default))).
Defined.

(* ------------------------------------------------------------------ *)
(** * Delays of the HTTP client *)

Section Delays.
Import HTTPRequests.
Local Open Scope Q_scope.

Lemma base_delay_bounds (s : Z) : 1 <= base_delay s /\ base_delay s <= 2.
Proof.
  unfold base_delay. destruct (s =? 429)%Z; [split; discriminate|].
  destruct ((500 <=? s)%Z && (s <? 600)%Z); split; discriminate.
Qed.

Lemma inject_pow2_mono (a b : nat) :
  (a <= b)%nat -> inject_Z (2 ^ Z.of_nat a) <= inject_Z (2 ^ Z.of_nat b).
Proof.
  intro H. rewrite <- Zle_Qle. apply Z.pow_le_mono_r; lia.
Qed.

Lemma float_of_pow2_some (attempt : nat) :
  (attempt < 1024)%nat ->
  float_of_pow2 attempt = Some (inject_Z (2 ^ Z.of_nat attempt)).
Proof.
  intro H. unfold float_of_pow2.
  destruct (Nat.leb_spec 1024 attempt) as [L | L]; [|reflexivity].
  exfalso. exact (Nat.lt_irrefl _ (Nat.lt_le_trans _ _ _ H L)).
Qed.

Lemma float_of_pow2_none (attempt : nat) :
  (1024 <= attempt)%nat -> float_of_pow2 attempt = None.
Proof.
  intro H. unfold float_of_pow2.
  destruct (Nat.leb_spec 1024 attempt) as [L | L]; [reflexivity|].
  exfalso. exact (Nat.lt_irrefl _ (Nat.lt_le_trans _ _ _ L H)).
Qed.

Lemma float_of_pow2_value (attempt : nat) (power : Q) :
  float_of_pow2 attempt = Some power ->
  power = inject_Z (2 ^ Z.of_nat attempt).
Proof.
  unfold float_of_pow2. destruct (1024 <=? attempt)%nat; [discriminate|].
  intro H. now injection H as <-.
Qed.

Lemma backoff_raises_iff (attempt status_code : Z) :
  (0 <= attempt)%Z ->
  backoff_raises attempt status_code = true <-> (1024 <= attempt)%Z.
Proof.
  intro H0. unfold backoff_raises, _calculate_backoff_delay.
  assert (E : Z.to_nat 1024 = 1024%nat)
    by (apply Nat.eqb_eq; vm_compute; reflexivity).
  destruct (Z_le_gt_dec 1024 attempt) as [L | L].
  - rewrite float_of_pow2_none; [tauto|].
    rewrite <- E. apply Z2Nat.inj_le; [discriminate | exact H0 | exact L].
  - rewrite float_of_pow2_some.
    + split; [discriminate|]. intro H. exfalso.
      apply (Z.lt_irrefl attempt).
      apply Z.lt_le_trans with (2 := H). apply Z.gt_lt. exact L.
    + rewrite <- E. apply Z2Nat.inj_lt;
        [exact H0 | discriminate | apply Z.gt_lt; exact L].
Qed.

End Delays.

(** X26: for an attempt number below 1024 and a jitter between 0 and 1
    the backoff delay is [min(base * 2^attempt + jitter, 60)] with a base
    of 1, 1.5 or 2: it is at least one second and at most 60, never
    shrinks from one attempt to a later one, and is exactly 60 from the
    attempt number 6 on whatever the status code.  From the attempt number
    1024 on no delay is returned: the integer [2 ** attempt] cannot be
    converted to a float and the call raises [OverflowError], whatever the
    status code and the jitter. *)
Theorem backoff_delay_bounds (attempt : nat) (status_code : Z) (jitter : Q) :
  (0 <= jitter)%Q -> (jitter <= 1)%Q ->
  ((attempt < 1024)%nat ->
   exists d : Q,
     HTTPRequests._calculate_backoff_delay attempt status_code jitter =
       Some d /\
     (1 <= d)%Q /\ (d <= 60)%Q /\
     ((6 <= attempt)%nat -> (d == 60)%Q) /\
     (forall (attempt' : nat) (d' : Q), (attempt <= attempt')%nat ->
        HTTPRequests._calculate_backoff_delay attempt' status_code jitter =
          Some d' ->
        (d <= d')%Q)) /\
  ((1024 <= attempt)%nat ->
   forall (s : Z) (j : Q),
     HTTPRequests._calculate_backoff_delay attempt s j = None).
Proof.
  intros Hj0 Hj1. unfold HTTPRequests._calculate_backoff_delay.
  split.
  - intro Hlt. rewrite (float_of_pow2_some attempt Hlt).
    eexists. split; [reflexivity|].
    destruct (base_delay_bounds status_code) as [Hb1 Hb2].
    pose proof (inject_pow2_ge_1 attempt) as Hp.
    split; [|split; [|split]].
    + apply Q.min_glb; [nra | discriminate].
    + apply Q.le_min_r.
    + intro H6. apply Q.min_r.
      pose proof (inject_pow2_mono 6 attempt H6) as Hm.
      change (inject_Z (2 ^ Z.of_nat 6)) with 64%Q in Hm. nra.
    + intros attempt' d' Ha.
      destruct (HTTPRequests.float_of_pow2 attempt') as [power|] eqn:F;
        [|discriminate].
      apply float_of_pow2_value in F. subst power.
      intro E. injection E as <-. apply Q.min_le_compat_r.
      pose proof (inject_pow2_mono attempt attempt' Ha) as Hm. nra.
  - intros Hge s j. now rewrite (float_of_pow2_none attempt Hge).
Qed.

(** X26 on the first retry after a 429, and on the attempt number 1024. *)
Lemma backoff_delay_bounds_witness :
  (exists d : Q,
     HTTPRequests._calculate_backoff_delay 1 429 (1 # 2) = Some d /\
     (d <= 60)%Q) /\
  HTTPRequests._calculate_backoff_delay 1024 429 (1 # 2) = None.
Proof.
  split.
  - refine (match proj1 (backoff_delay_bounds 1 429 (1 # 2) _ _) _ with
            | ex_intro _ d (conj E (conj _ (conj H _))) =>
                ex_intro _ d (conj E H)
            end).
    + discriminate.
    + discriminate.
    + apply Nat.ltb_lt. vm_compute. reflexivity.
  - refine (proj2 (backoff_delay_bounds 1024 429 (1 # 2) _ _) _
                  429 (1 # 2)).
    + discriminate.
    + discriminate.
    + apply Nat.leb_le. vm_compute. reflexivity.
Defined.

(** X27: with a positive [rate_limit], a clock that does not run backwards
    and a sleep that lasts at least the requested time, the client's
    [_apply_rate_limit] sets [last_request_time] at least [1 / rate_limit]
    after its previous value: two requests of one client are never closer
    than that. *)
Theorem apply_rate_limit_gap
        (rate_limit last_request_time current_time after : Q) :
  (0 < rate_limit)%Q -> (current_time <= after)%Q ->
  (forall d,
      HTTPRequests.rate_limit_sleep rate_limit last_request_time
                                    current_time = Some d ->
      (current_time + d <= after)%Q) ->
  (1 / rate_limit <=
   HTTPRequests._apply_rate_limit rate_limit last_request_time after -
   last_request_time)%Q.
Proof.
  intros Hr Hclock Hsleep.
  unfold HTTPRequests._apply_rate_limit, HTTPRequests.rate_limit_sleep in *.
  assert (Hb : Qltb 0 rate_limit = true) by now apply Qltb_true.
  rewrite Hb in *.
  destruct (Qltb (current_time - last_request_time) (1 / rate_limit)) eqn:E.
  - specialize (Hsleep _ eq_refl). lra.
  - apply Qltb_false in E. lra.
Qed.

(** X27 at two requests per second: a call right after a request sleeps
    half a second. *)
Lemma apply_rate_limit_gap_witness :
  (1 / 2 <= HTTPRequests._apply_rate_limit 2 10 (21 # 2) - 10)%Q.
Proof.
  refine (apply_rate_limit_gap 2 10 10 (21 # 2) _ _ _).
  - reflexivity.
  - discriminate.
  - intros d H. vm_compute in H. injection H as <-. discriminate.
Defined.

(* ------------------------------------------------------------------ *)
(** * The request loop *)

Section RequestLoop.
Import HTTPRequests.

Variable config : HTTPClient.ScraperConfig.
Variable outcome : Z -> Outcome.
Variable proxy : option string.

Lemma with_proxy_counters (c : Client)
      (f : ProxyManager.t -> string -> ProxyManager.t) :
  request_count (with_proxy c proxy f) = request_count c /\
  success_count (with_proxy c proxy f) = success_count c /\
  error_count (with_proxy c proxy f) = error_count c.
Proof.
  unfold with_proxy. destruct proxy as [u|]; [|repeat split].
  destruct (proxy_manager c); [|repeat split].
  destruct (String.eqb u EmptyString); repeat split.
Qed.

Lemma should_retry_lt (s a : Z) :
  HTTPClient._should_retry config s a = true ->
  a < HTTPClient.max_retries config /\
  (s = 408 \/ s = 429 \/ 500 <= s <= 599).
Proof. apply should_retry_iff. Qed.

Lemma get_loop_counters (fuel : nat) (attempt : Z) (c : Client)
      (sent : nat) :
  attempt + Z.of_nat fuel = HTTPClient.max_retries config + 1 ->
  (0 < fuel)%nat ->
  let res := get_loop config outcome proxy fuel attempt c sent in
  request_count (client res) = request_count c /\
  ((raised res = false /\ response res <> None /\
    success_count (client res) = success_count c + 1 /\
    error_count (client res) = error_count c) \/
   (raised res = false /\ response res = None /\
    success_count (client res) = success_count c /\
    error_count (client res) = error_count c + 1) \/
   (raised res = true /\ response res = None /\
    success_count (client res) = success_count c /\
    error_count (client res) = error_count c)) /\
  (sent < requests res <= sent + fuel)%nat.
Proof.
  revert attempt c sent.
  induction fuel as [|fuel IH]; intros attempt c sent Hsum Hpos; [lia|].
  cbn [get_loop].
  assert (Hlast : ~ attempt < HTTPClient.max_retries config -> fuel = 0%nat)
    by lia.
  assert (Hzero : forall c0,
            get_loop config outcome proxy 0 (attempt + 1) c0 (S sent) =
            mkResult c0 None (S sent) false) by reflexivity.
  destruct (outcome attempt) as [s content | | |].
  - destruct (s =? 200); [cbn; repeat split; try lia; left;
                          repeat split; discriminate|].
    destruct (with_proxy_counters c
                (fun pm u => ProxyManager.handle_ip_ban pm u content s))
      as (W1 & W2 & W3).
    destruct (HTTPClient._should_retry config s attempt) eqn:R.
    + apply should_retry_lt in R. destruct R as [R _].
      destruct (backoff_raises attempt s).
      * cbn. rewrite W1, W2, W3. repeat split; try lia.
        right. left. now repeat split.
      * match goal with
        | |- context [get_loop config outcome proxy fuel (attempt + 1) ?c1
                               (S sent)] =>
            destruct (IH (attempt + 1) c1 (S sent)) as (I1 & I2 & I3);
            [lia | lia |]
        end.
        cbv zeta in *. rewrite I1, W1. split; [reflexivity|].
        rewrite W2, W3 in I2. split; [exact I2 | lia].
    + cbn. rewrite W1, W2, W3. repeat split; try lia.
      right. left. now repeat split.
  - destruct (Z.ltb_spec attempt (HTTPClient.max_retries config)) as [L | L].
    + destruct (backoff_raises attempt 408).
      * cbn. repeat split; try lia. right. right. now repeat split.
      * destruct (IH (attempt + 1) c (S sent)) as (I1 & I2 & I3);
          [lia | lia |].
        cbv zeta in *. split; [exact I1|]. split; [exact I2 | lia].
    + rewrite (Hlast ltac:(lia)), Hzero. cbn.
      repeat split; try lia. right. left. now repeat split.
  - destruct (with_proxy_counters c ProxyManager.mark_proxy_failed)
      as (W1 & W2 & W3).
    destruct (Z.ltb_spec attempt (HTTPClient.max_retries config)) as [L | L].
    + destruct (backoff_raises attempt 500).
      * cbn. rewrite W1, W2, W3. repeat split; try lia.
        right. right. now repeat split.
      * match goal with
        | |- context [get_loop config outcome proxy fuel (attempt + 1) ?c1
                               (S sent)] =>
            destruct (IH (attempt + 1) c1 (S sent)) as (I1 & I2 & I3);
            [lia | lia |]
        end.
        cbv zeta in *. rewrite I1, W1. split; [reflexivity|].
        rewrite W2, W3 in I2. split; [exact I2 | lia].
    + rewrite (Hlast ltac:(lia)), Hzero. cbn. rewrite W1, W2, W3.
      repeat split; try lia. right. left. now repeat split.
  - cbn. repeat split; try lia. right. left. now repeat split.
Qed.

(** The loop raises exactly at the attempt 1024, after a timeout or a
    network error that may still be retried; it never goes past that
    attempt unless the retries end there. *)
Lemma get_loop_raised (fuel : nat) (attempt : Z) (c : Client)
      (sent : nat) :
  0 <= attempt ->
  attempt + Z.of_nat fuel = HTTPClient.max_retries config + 1 ->
  attempt <= 1024 \/ fuel = 0%nat ->
  let res := get_loop config outcome proxy fuel attempt c sent in
  (raised res = true <->
   attempt <= 1024 < HTTPClient.max_retries config /\
   (forall b, attempt <= b < 1024 -> retried (outcome b)) /\
   raises_at_overflow (outcome 1024)) /\
  Z.of_nat (requests res) <= Z.of_nat sent + Z.max 0 (1025 - attempt).
Proof.
  revert attempt c sent.
  induction fuel as [|fuel IH]; intros attempt c sent H0 Hsum Hinv;
    cbn [get_loop].
  - cbn [raised requests]. split; [|lia].
    split; [discriminate|]. intros (H & _). lia.
  - destruct Hinv as [Hinv | Hinv]; [|discriminate].
    assert (Hrec : forall c0,
              attempt < 1024 -> retried (outcome attempt) ->
              let res := get_loop config outcome proxy fuel (attempt + 1)
                                  c0 (S sent) in
              (raised res = true <->
               attempt <= 1024 < HTTPClient.max_retries config /\
               (forall b, attempt <= b < 1024 -> retried (outcome b)) /\
               raises_at_overflow (outcome 1024)) /\
              Z.of_nat (requests res) <=
              Z.of_nat sent + Z.max 0 (1025 - attempt)).
    { intros c0 Hlt Hret.
      destruct (IH (attempt + 1) c0 (S sent)) as (I1 & I2);
        [lia | lia | left; lia |].
      cbv zeta in *. split; [|lia]. rewrite I1. split.
      - intros (A1 & A2 & A3). split; [lia|]. split; [|exact A3].
        intros b Hb. destruct (Z.eq_dec b attempt) as [-> | Hne];
          [exact Hret | apply A2; lia].
      - intros (A1 & A2 & A3). split; [lia|]. split; [|exact A3].
        intros b Hb. apply A2. lia. }
    assert (Hstop : forall c0 r,
              (attempt < 1024 -> 1024 < HTTPClient.max_retries config ->
               ~ retried (outcome attempt)) ->
              (attempt = 1024 -> 1024 < HTTPClient.max_retries config ->
               ~ raises_at_overflow (outcome 1024)) ->
              let res := mkResult c0 r (S sent) false in
              (raised res = true <->
               attempt <= 1024 < HTTPClient.max_retries config /\
               (forall b, attempt <= b < 1024 -> retried (outcome b)) /\
               raises_at_overflow (outcome 1024)) /\
              Z.of_nat (requests res) <=
              Z.of_nat sent + Z.max 0 (1025 - attempt)).
    { intros c0 r Hnr Hno. cbn [raised requests]. split; [|lia].
      split; [discriminate|]. intros (A1 & A2 & A3). exfalso.
      destruct (Z.eq_dec attempt 1024) as [E | E].
      - apply (Hno E); [lia | exact A3].
      - apply Hnr; [lia | lia |]. apply A2. lia. }
    assert (Hend : forall c0,
              ~ attempt < HTTPClient.max_retries config ->
              let res := get_loop config outcome proxy fuel (attempt + 1)
                                  c0 (S sent) in
              (raised res = true <->
               attempt <= 1024 < HTTPClient.max_retries config /\
               (forall b, attempt <= b < 1024 -> retried (outcome b)) /\
               raises_at_overflow (outcome 1024)) /\
              Z.of_nat (requests res) <=
              Z.of_nat sent + Z.max 0 (1025 - attempt)).
    { intros c0 Hge. assert (fuel = 0%nat) as -> by lia.
      cbn [get_loop raised requests]. split; [|lia].
      split; [discriminate|]. intros (A1 & _). lia. }
    assert (Hraise : forall c0,
              attempt < HTTPClient.max_retries config ->
              1024 <= attempt ->
              raises_at_overflow (outcome attempt) ->
              let res := mkResult c0 None (S sent) true in
              (raised res = true <->
               attempt <= 1024 < HTTPClient.max_retries config /\
               (forall b, attempt <= b < 1024 -> retried (outcome b)) /\
               raises_at_overflow (outcome 1024)) /\
              Z.of_nat (requests res) <=
              Z.of_nat sent + Z.max 0 (1025 - attempt)).
    { intros c0 Hlt Hge Hout. assert (attempt = 1024) as E by lia.
      cbn [raised requests]. split; [|lia].
      split; [intros _ | reflexivity].
      split; [lia|]. split; [intros b Hb; lia|]. now rewrite <- E. }
    destruct (outcome attempt) as [s content | | |] eqn:O.
    + destruct (Z.eqb_spec s 200) as [E | E].
      * apply Hstop.
        -- intros _ _. cbn. lia.
        -- intros E1 _ [H | H]; rewrite <- E1, O in H; discriminate H.
      * destruct (HTTPClient._should_retry config s attempt) eqn:R.
        -- apply should_retry_lt in R. destruct R as [R1 R2].
           destruct (backoff_raises attempt s) eqn:B.
           ++ apply backoff_raises_iff in B; [|exact H0].
              apply Hstop.
              ** intros. lia.
              ** intros E1 _ [H | H]; rewrite <- E1, O in H;
                   discriminate H.
           ++ apply Hrec; [|exact R2].
              destruct (Z_lt_ge_dec attempt 1024) as [L | L]; [exact L|].
              assert (backoff_raises attempt s = true)
                by (apply backoff_raises_iff; lia).
              congruence.
        -- apply Hstop.
           ++ intros Hlt Hmax Hret. cbn in Hret.
              assert (HTTPClient._should_retry config s attempt = true).
              { apply should_retry_iff. split; [lia | exact Hret]. }
              congruence.
           ++ intros E1 _ [H | H]; rewrite <- E1, O in H; discriminate H.
    + destruct (Z.ltb_spec attempt (HTTPClient.max_retries config))
        as [L | L].
      * destruct (backoff_raises attempt 408) eqn:B.
        -- apply backoff_raises_iff in B; [|exact H0].
           apply Hraise; [exact L | exact B | now left].
        -- apply Hrec; [|exact I].
           destruct (Z_lt_ge_dec attempt 1024) as [L' | L']; [exact L'|].
           assert (backoff_raises attempt 408 = true)
             by (apply backoff_raises_iff; lia).
           congruence.
      * apply Hend. lia.
    + destruct (Z.ltb_spec attempt (HTTPClient.max_retries config))
        as [L | L].
      * destruct (backoff_raises attempt 500) eqn:B.
        -- apply backoff_raises_iff in B; [|exact H0].
           apply Hraise; [exact L | exact B | now right].
        -- apply Hrec; [|exact I].
           destruct (Z_lt_ge_dec attempt 1024) as [L' | L']; [exact L'|].
           assert (backoff_raises attempt 500 = true)
             by (apply backoff_raises_iff; lia).
           congruence.
      * apply Hend. lia.
    + apply Hstop.
      * intros _ _ H. exact H.
      * intros E1 _ [H | H]; rewrite <- E1, O in H; discriminate H.
Qed.

Lemma get_loop_response (fuel : nat) (attempt : Z) (c : Client)
      (sent : nat) (content : string) :
  response (get_loop config outcome proxy fuel attempt c sent) =
    Some content ->
  exists a : Z,
    attempt <= a < attempt + Z.of_nat fuel /\
    outcome a = Response 200 content /\
    (forall b, attempt <= b < a -> retried (outcome b)) /\
    Z.of_nat (requests (get_loop config outcome proxy fuel attempt c sent))
    = Z.of_nat sent + (a - attempt) + 1.
Proof.
  revert attempt c sent.
  induction fuel as [|fuel IH]; intros attempt c sent; cbn [get_loop];
    [discriminate|].
  assert (Hstep : forall c0,
            retried (outcome attempt) ->
            response (get_loop config outcome proxy fuel (attempt + 1) c0
                               (S sent)) = Some content ->
            exists a : Z,
              attempt <= a < attempt + Z.of_nat (S fuel) /\
              outcome a = Response 200 content /\
              (forall b, attempt <= b < a -> retried (outcome b)) /\
              Z.of_nat
                (requests (get_loop config outcome proxy fuel (attempt + 1)
                                    c0 (S sent)))
              = Z.of_nat sent + (a - attempt) + 1).
  { intros c0 Hret H. destruct (IH _ _ _ H) as (a & A1 & A2 & A3 & A4).
    exists a. split; [lia|]. split; [exact A2|]. split.
    - intros b Hb. destruct (Z.eq_dec b attempt) as [-> | Hne];
        [exact Hret | apply A3; lia].
    - rewrite A4. lia. }
  destruct (outcome attempt) as [s content' | | |] eqn:O.
  - destruct (Z.eqb_spec s 200) as [E | E].
    + cbn. intro H. injection H as <-. exists attempt.
      split; [lia|]. split; [now rewrite O, E|]. split; [intros b Hb; lia|].
      lia.
    + destruct (HTTPClient._should_retry config s attempt) eqn:R;
        [|discriminate].
      destruct (backoff_raises attempt s); [discriminate|].
      apply Hstep. cbn. now apply should_retry_lt in R.
  - destruct (attempt <? HTTPClient.max_retries config);
      [destruct (backoff_raises attempt 408); [discriminate|]|];
      apply Hstep; exact I.
  - destruct (attempt <? HTTPClient.max_retries config);
      [destruct (backoff_raises attempt 500); [discriminate|]|];
      apply Hstep; exact I.
  - discriminate.
Qed.

End RequestLoop.


Section RequestTheorems.
Import HTTPRequests.

Lemma success_share (c : Client) :
  0 <= success_count c <= request_count c ->
  (0 <= success_rate c)%Q /\ (success_rate c <= 1)%Q.
Proof.
  intros [H1 H2]. unfold success_rate.
  destruct (Z.gtb_spec (request_count c) 0) as [Hp | Hz].
  - assert (Hq : (0 < inject_Z (request_count c))%Q).
    { change 0%Q with (inject_Z 0). now rewrite <- Zlt_Qlt. }
    split.
    + apply Qle_shift_div_l; [exact Hq|]. rewrite Qmult_0_l.
      change 0%Q with (inject_Z 0). now rewrite <- Zle_Qle.
    + apply Qle_shift_div_r; [exact Hq|]. rewrite Qmult_1_l.
      now rewrite <- Zle_Qle.
  - split; discriminate.
Qed.

Lemma penalty_keeps (u : string) (o : ProxyManager.op) :
  penalty u o -> negb (ProxyManager.releases u o) = true.
Proof. intros [[d ->] | ->]; reflexivity. Qed.

Lemma get_loop_penalties (config : HTTPClient.ScraperConfig)
      (outcome : Z -> Outcome) (u : string) (fuel : nat) :
  u <> EmptyString ->
  forall (attempt : Z) (c : Client) (sent : nat) (pm : ProxyManager.t),
    proxy_manager c = Some pm ->
    exists os,
      Forall (penalty u) os /\
      proxy_manager
        (client (get_loop config outcome (Some u) fuel attempt c sent)) =
      Some (ProxyManager.run_ops pm os).
Proof.
  intro Hu. apply String.eqb_neq in Hu.
  induction fuel as [|fuel IH]; intros attempt c sent pm Hpm;
    cbn [get_loop].
  - exists []. split; [constructor | exact Hpm].
  - assert (Hwith : forall f,
              proxy_manager (with_proxy c (Some u) f) = Some (f pm u)).
    { intro f. unfold with_proxy. now rewrite Hpm, Hu. }
    assert (Hcons : forall o c1 a' k,
              penalty u o ->
              proxy_manager c1 = Some (ProxyManager.step pm o) ->
              exists os,
                Forall (penalty u) os /\
                proxy_manager
                  (client (get_loop config outcome (Some u) fuel a' c1 k)) =
                Some (ProxyManager.run_ops pm os)).
    { intros o c1 a' k Ho Hc1.
      destruct (IH a' c1 k _ Hc1) as (os & Hos & E).
      exists (o :: os). split; [now constructor | exact E]. }
    destruct (outcome attempt) as [s content | | |].
    + destruct (s =? 200).
      * exists []. split; [constructor | exact Hpm].
      * assert (Hone : exists os,
                  Forall (penalty u) os /\
                  proxy_manager
                    (count_error
                       (with_proxy c (Some u)
                          (fun pm0 u0 =>
                             ProxyManager.handle_ip_ban pm0 u0 content s)))
                  = Some (ProxyManager.run_ops pm os)).
        { exists [ProxyManager.HandleIpBan u
                    (ProxyManager.detect_ip_ban content s)].
          split; [constructor; [left; eauto | constructor]|].
          cbn [count_error proxy_manager]. apply Hwith. }
        destruct (HTTPClient._should_retry config s attempt);
          [destruct (backoff_raises attempt s)|]; cbn [client];
          try exact Hone.
        apply (Hcons (ProxyManager.HandleIpBan u
                        (ProxyManager.detect_ip_ban content s))).
        -- left. eauto.
        -- apply Hwith.
    + destruct (attempt <? HTTPClient.max_retries config);
        [destruct (backoff_raises attempt 408)|]; try (now apply IH).
      exists []. split; [constructor | exact Hpm].
    + destruct (attempt <? HTTPClient.max_retries config);
        [destruct (backoff_raises attempt 500)|];
        try (apply (Hcons (ProxyManager.MarkFailed u)); try (now right);
             cbn [count_error proxy_manager]; apply Hwith).
      exists [ProxyManager.MarkFailed u].
      split; [constructor; [now right | constructor]|].
      cbn [client]. apply Hwith.
    + exists []. split; [constructor | exact Hpm].
Qed.

End RequestTheorems.

(** X28: with [max_retries >= 0], one [get] counts one request and sends
    between 1 and [max_retries + 1] requests, never more than 1025.  When
    it returns it has counted exactly one success or one error, the
    success exactly when it returns a response, so the counters of a
    client that started balanced stay balanced.  It does not return but
    raises [OverflowError] exactly when [max_retries] is above 1024, the
    attempts 0 to 1023 all ended in a timeout, a network error or a status
    408, 429 or 5xx, and the attempt 1024 ends in a timeout or a network
    error: the delay before the next attempt cannot be computed in the
    handler; neither a success nor an error is counted then.  In all cases
    the success rate of [get_stats] lies between 0 and 1. *)
Theorem get_accounting
        (config : HTTPClient.ScraperConfig)
        (outcome : Z -> HTTPRequests.Outcome) (r : nat)
        (c : HTTPRequests.Client) :
  0 <= HTTPClient.max_retries config ->
  HTTPRequests.balanced c ->
  let res := HTTPRequests.get config outcome r c in
  let c' := HTTPRequests.client res in
  HTTPRequests.request_count c' = HTTPRequests.request_count c + 1 /\
  (1 <= Z.of_nat (HTTPRequests.requests res) <=
   HTTPClient.max_retries config + 1) /\
  Z.of_nat (HTTPRequests.requests res) <= 1025 /\
  (HTTPRequests.raised res = true <->
   1024 < HTTPClient.max_retries config /\
   (forall b, 0 <= b < 1024 -> HTTPRequests.retried (outcome b)) /\
   HTTPRequests.raises_at_overflow (outcome 1024)) /\
  (HTTPClient.max_retries config <= 1024 ->
   HTTPRequests.raised res = false) /\
  (HTTPRequests.raised res = false ->
   HTTPRequests.balanced c' /\
   (HTTPRequests.response res <> None <->
    HTTPRequests.success_count c' = HTTPRequests.success_count c + 1) /\
   (HTTPRequests.response res = None <->
    HTTPRequests.error_count c' = HTTPRequests.error_count c + 1)) /\
  (HTTPRequests.raised res = true ->
   HTTPRequests.response res = None /\
   HTTPRequests.success_count c' = HTTPRequests.success_count c /\
   HTTPRequests.error_count c' = HTTPRequests.error_count c) /\
  (0 <= HTTPRequests.success_rate c')%Q /\
  (HTTPRequests.success_rate c' <= 1)%Q.
Proof.
  intros Hmax (B1 & B2 & B3) res c'. subst c' res. unfold HTTPRequests.get.
  destruct (get_loop_counters config outcome
              (HTTPRequests._get_proxy c r)
              (Z.to_nat (HTTPClient.max_retries config + 1)) 0
              (HTTPRequests.count_request c) 0)
    as (L1 & L2 & L3); [lia | lia |].
  destruct (get_loop_raised config outcome
              (HTTPRequests._get_proxy c r)
              (Z.to_nat (HTTPClient.max_retries config + 1)) 0
              (HTTPRequests.count_request c) 0)
    as (R1 & R2); [lia | lia | left; lia |].
  cbv zeta in *.
  cbn [HTTPRequests.count_request HTTPRequests.request_count
       HTTPRequests.success_count HTTPRequests.error_count] in L1, L2.
  set (res := HTTPRequests.get_loop config outcome
                (HTTPRequests._get_proxy c r)
                (Z.to_nat (HTTPClient.max_retries config + 1)) 0
                (HTTPRequests.count_request c) 0) in *.
  assert (Hiff : HTTPRequests.raised res = true <->
                 1024 < HTTPClient.max_retries config /\
                 (forall b, 0 <= b < 1024 ->
                            HTTPRequests.retried (outcome b)) /\
                 HTTPRequests.raises_at_overflow (outcome 1024)).
  { rewrite R1. split.
    - intros (A1 & A2 & A3). split; [lia|]. split; assumption.
    - intros (A1 & A2 & A3). split; [lia|]. split; assumption. }
  split; [exact L1|]. split; [lia|]. split; [lia|]. split; [exact Hiff|].
  split; [|split; [|split]].
  - intro Hle. destruct (HTTPRequests.raised res); [|reflexivity].
    destruct (proj1 Hiff eq_refl) as (A1 & _). lia.
  - intro Hret.
    destruct L2 as [(_ & R & S1 & S2) | [(_ & R & S1 & S2)
                                        | (Hr & _)]];
      [| |congruence].
    + split; [unfold HTTPRequests.balanced; lia|].
      split; [tauto|]. split; [congruence | lia].
    + split; [unfold HTTPRequests.balanced; lia|].
      split; [split; [congruence | lia] | tauto].
  - intro Hr.
    destruct L2 as [(Hf & _) | [(Hf & _) | (_ & R & S1 & S2)]];
      [congruence | congruence | auto].
  - apply success_share.
    destruct L2 as [(_ & _ & S1 & S2) | [(_ & _ & S1 & S2)
                                        | (_ & _ & S1 & S2)]]; lia.
Qed.

(** X28 on a client without proxies whose first request times out and
    whose second one is answered, and on a client allowed 1025 retries
    whose requests all time out: the latter call raises. *)
Lemma get_accounting_witness :
  HTTPRequests.request_count
    (HTTPRequests.client
       (HTTPRequests.get (HTTPClient.mkConfig 3)
          (fun a => if a =? 0 then HTTPRequests.TimeoutError
                    else HTTPRequests.Response 200 "ok")
          0 (HTTPRequests.mkClient 0 0 0 None []))) = 0 + 1 /\
  HTTPRequests.raised
    (HTTPRequests.get (HTTPClient.mkConfig 1025)
       (fun _ => HTTPRequests.TimeoutError)
       0 (HTTPRequests.mkClient 0 0 0 None [])) = true.
Proof.
  split.
  - refine (proj1 (get_accounting (HTTPClient.mkConfig 3) _ 0
                     (HTTPRequests.mkClient 0 0 0 None []) _ _)).
    + discriminate.
    + repeat split; discriminate.
  - refine (proj2 (proj1 (proj2 (proj2 (proj2
              (get_accounting (HTTPClient.mkConfig 1025)
                 (fun _ => HTTPRequests.TimeoutError) 0
                 (HTTPRequests.mkClient 0 0 0 None []) _ _))))) _).
    + discriminate.
    + repeat split; discriminate.
    + split; [reflexivity|]. split; [intros b _; exact I | now left].
Defined.

(** X29: a response returned by [get] is the body of a status-200 answer
    to one of its attempts, every attempt before it having ended in a
    timeout, a network error or a status 408, 429 or 5xx, and as many
    requests were sent as that attempt's number says.  A first answer with
    any other status ends the call at once: one request, no response, one
    error counted.  With a negative [max_retries] no request is sent at
    all. *)
Theorem get_response
        (config : HTTPClient.ScraperConfig)
        (outcome : Z -> HTTPRequests.Outcome) (r : nat)
        (c : HTTPRequests.Client) :
  let res := HTTPRequests.get config outcome r c in
  (forall content, HTTPRequests.response res = Some content ->
     exists a : Z,
       0 <= a <= HTTPClient.max_retries config /\
       outcome a = HTTPRequests.Response 200 content /\
       (forall b, 0 <= b < a -> HTTPRequests.retried (outcome b)) /\
       Z.of_nat (HTTPRequests.requests res) = a + 1) /\
  (forall s content,
     0 <= HTTPClient.max_retries config ->
     outcome 0 = HTTPRequests.Response s content ->
     s <> 200 -> ~ (s = 408 \/ s = 429 \/ 500 <= s <= 599) ->
     HTTPRequests.response res = None /\
     HTTPRequests.requests res = 1%nat /\
     HTTPRequests.error_count (HTTPRequests.client res) =
       HTTPRequests.error_count c + 1) /\
  (HTTPClient.max_retries config < 0 ->
   HTTPRequests.response res = None /\
   HTTPRequests.requests res = 0%nat /\
   HTTPRequests.success_count (HTTPRequests.client res) =
     HTTPRequests.success_count c /\
   HTTPRequests.error_count (HTTPRequests.client res) =
     HTTPRequests.error_count c).
Proof.
  intro res. subst res. unfold HTTPRequests.get. split; [|split].
  - intros content H.
    destruct (get_loop_response _ _ _ _ _ _ _ _ H)
      as (a & A1 & A2 & A3 & A4).
    exists a. split; [lia|]. split; [exact A2|]. split; [exact A3|].
    rewrite A4. lia.
  - intros s content Hmax O Hs Hr.
    destruct (Z.to_nat (HTTPClient.max_retries config + 1)) as [|fuel] eqn:F;
      [lia|].
    cbn [HTTPRequests.get_loop]. rewrite O.
    destruct (Z.eqb_spec s 200) as [E | _]; [contradiction|].
    destruct (HTTPClient._should_retry config s 0) eqn:R.
    + apply should_retry_iff in R. tauto.
    + cbn [HTTPRequests.response HTTPRequests.requests HTTPRequests.client].
      repeat split.
      destruct (with_proxy_counters (HTTPRequests._get_proxy c r)
                  (HTTPRequests.count_request c)
                  (fun pm u => ProxyManager.handle_ip_ban pm u content s))
        as (_ & _ & W3).
      cbn [HTTPRequests.count_error HTTPRequests.error_count].
      rewrite W3. reflexivity.
  - intro Hneg.
    replace (Z.to_nat (HTTPClient.max_retries config + 1)) with 0%nat by lia.
    cbn. repeat split.
Qed.

(** X30: [get] picks its proxy once and keeps it for all attempts.  When
    the first answer through a proxy of the pool has a status other than
    200 and [detect_ip_ban] finds a ban in it, the proxy is BANNED or
    FAILED when [get] returns, whatever the later attempts through it end
    in, and the selection does not return it any more. *)
Theorem get_bans_proxy
        (config : HTTPClient.ScraperConfig)
        (outcome : Z -> HTTPRequests.Outcome) (r : nat)
        (c : HTTPRequests.Client) (pm : ProxyManager.t)
        (u content : string) (s : Z) :
  ProxyManager.wf pm ->
  HTTPRequests.proxy_manager c = Some pm ->
  HTTPRequests._get_proxy c r = Some u -> u <> EmptyString ->
  0 <= HTTPClient.max_retries config ->
  outcome 0 = HTTPRequests.Response s content -> s <> 200 ->
  ProxyManager.detect_ip_ban content s = true ->
  exists pm',
    HTTPRequests.proxy_manager
      (HTTPRequests.client (HTTPRequests.get config outcome r c)) =
    Some pm' /\
    (ProxyManager.status_of pm' u = Some ProxyManager.BANNED \/
     ProxyManager.status_of pm' u = Some ProxyManager.FAILED) /\
    (forall r' : nat, ProxyManager.get_active_proxy pm' r' <> Some u).
Proof.
  intros Hwf Hpm Hproxy Hu Hmax O Hs Hd.
  assert (Hmem : ProxyManager.mem u (ProxyManager.proxies pm) = true).
  { unfold HTTPRequests._get_proxy in Hproxy. rewrite Hpm in Hproxy.
    apply get_active_proxy_some in Hproxy.
    destruct Hproxy as (p & Hp & Hpu). apply nth_error_In in Hp.
    unfold ProxyManager.top_proxies in Hp. apply In_firstn in Hp.
    apply (Permutation_in _ (ranked_perm pm)) in Hp.
    unfold ProxyManager.active_proxies in Hp. apply filter_In in Hp.
    apply mem_in. rewrite <- Hpu. apply in_map. tauto. }
  set (pm1 := ProxyManager.mark_proxy_banned pm u None).
  assert (Hq1 : ProxyManager.quarantined u (ProxyManager.proxies pm1)).
  { apply banned_quarantined.
    - exact (wf_step pm (ProxyManager.MarkBanned u None) Hwf).
    - now apply status_of_banned. }
  assert (Hfin : forall pm' os,
            Forall (HTTPRequests.penalty u) os ->
            pm' = ProxyManager.run_ops pm1 os ->
            (ProxyManager.status_of pm' u = Some ProxyManager.BANNED \/
             ProxyManager.status_of pm' u = Some ProxyManager.FAILED) /\
            (forall r' : nat,
                ProxyManager.get_active_proxy pm' r' <> Some u)).
  { intros pm' os Hos ->.
    assert (Hq : ProxyManager.quarantined u
                   (ProxyManager.proxies (ProxyManager.run_ops pm1 os))).
    { apply run_ops_quarantined; [|exact Hq1].
      apply forallb_forall. intros o Ho. apply penalty_keeps.
      rewrite Forall_forall in Hos. now apply Hos. }
    split; [now apply quarantined_status|].
    intro r'. now apply quarantined_not_selected. }
  unfold HTTPRequests.get. rewrite Hproxy.
  destruct (Z.to_nat (HTTPClient.max_retries config + 1)) as [|fuel] eqn:F;
    [lia|].
  cbn [HTTPRequests.get_loop]. rewrite O.
  destruct (Z.eqb_spec s 200) as [E | _]; [contradiction|].
  assert (Hc1 : HTTPRequests.proxy_manager
                  (HTTPRequests.with_proxy (HTTPRequests.count_request c)
                     (Some u)
                     (fun pm0 u0 =>
                        ProxyManager.handle_ip_ban pm0 u0 content s)) =
                Some pm1).
  { unfold HTTPRequests.with_proxy.
    cbn [HTTPRequests.count_request HTTPRequests.proxy_manager].
    rewrite Hpm. apply String.eqb_neq in Hu. rewrite Hu.
    cbn [HTTPRequests.proxy_manager].
    unfold ProxyManager.handle_ip_ban. now rewrite Hd. }
  destruct (HTTPClient._should_retry config s 0).
  - destruct (get_loop_penalties config outcome u fuel Hu (0 + 1) _ 1%nat
                pm1 Hc1) as (os & Hos & Eos).
    exists (ProxyManager.run_ops pm1 os). split; [exact Eos|].
    now apply (Hfin _ os).
  - exists pm1. split; [exact Hc1|]. now apply (Hfin _ []).
Qed.

(** X30 on a client with the pool of three: a 403 through the first proxy
    takes it out of selection. *)
Lemma get_bans_proxy_witness :
  exists pm',
    HTTPRequests.proxy_manager
      (HTTPRequests.client
         (HTTPRequests.get (HTTPClient.mkConfig 3)
            (fun _ => HTTPRequests.Response 403 "")
            0 (HTTPRequests.mkClient 0 0 0 (Some ProxyManager.pool3) [])))
    = Some pm' /\
    (ProxyManager.status_of pm' "http://10.0.0.1:8080" =
       Some ProxyManager.BANNED \/
     ProxyManager.status_of pm' "http://10.0.0.1:8080" =
       Some ProxyManager.FAILED) /\
    (forall r' : nat,
        ProxyManager.get_active_proxy pm' r' <>
        Some "http://10.0.0.1:8080"%string).
Proof.
  refine (get_bans_proxy (HTTPClient.mkConfig 3)
            (fun _ => HTTPRequests.Response 403 "")
            0 (HTTPRequests.mkClient 0 0 0 (Some ProxyManager.pool3) [])
            ProxyManager.pool3 "http://10.0.0.1:8080" "" 403
            _ eq_refl eq_refl _ _ eq_refl _ eq_refl).
  - unfold ProxyManager.wf. cbn.
    repeat constructor; cbn; intuition discriminate.
  - discriminate.
  - discriminate.
  - discriminate.
Defined.
